(** * The module registry of utils/src/module.c

    A shallow embedding of the dynamic module interface: the singly linked
    list of [struct module] reached from [g_module_head], the last-error slot
    [g_module_err], the mutex [g_lock], and the three public operations
    [module_open], [module_close] and [module_symbol], followed by the
    properties of the registry that are proved about them.

    The C code works on heap-allocated structs through pointers, so the
    model keeps a heap of structs and a heap of strings, both indexed by
    addresses, and threads them through a small monad together with the
    globals.  The platform loader (dlopen, dlsym, dlclose, dlerror), malloc,
    strdup and the callbacks of a module are external: what each of them
    answers is an argument of the operation that calls it. *)

From stdpp Require Import gmap strings list fin_maps.

Open Scope Z_scope.

(** ** Data *)

(** Pointers are addresses, [NULL] is address 0. *)
Abbreviation ptr := N (only parsing).
Definition NULL : ptr := 0%N.

(** [ref_count] is an [int] of 32 bits (module.c prints it with "%d" and
    returns it from [module_close], whose result is an [int]).  The model
    keeps it in [Z] and writes out what [++] and [--] do at the two ends of
    the range: the count wraps around, as two's complement arithmetic does. *)
Definition INT_MAX : Z := 2147483647.
Definition INT_MIN : Z := -2147483648.

(** [c++] and [c--] on an [int]. *)
Definition int_incr (c : Z) : Z := if c =? INT_MAX then INT_MIN else c + 1.
Definition int_decr (c : Z) : Z := if c =? INT_MIN then INT_MAX else c - 1.

(** The same results by arithmetic modulo 2^32. *)
Definition int_wrap (z : Z) : Z := (z + 2 ^ 31) mod 2 ^ 32 - 2 ^ 31.

(** [struct module] of module.h.  The header is not among the sources; the
    fields are the ones module.c reads and writes. *)
Record module := Module {
  name : ptr;        (* char pointer, a string made by strdup *)
  ref_count : Z;
  handle : ptr;      (* void pointer *)
  init : ptr;        (* function pointer, int init(struct module) *)
  exit : ptr;        (* function pointer, void exit(struct module) *)
  priv : ptr;        (* void pointer *)
  next : ptr         (* struct module pointer *)
}.

Definition set_name (v : ptr) (m : module) : module :=
  Module v (ref_count m) (handle m) (init m) (exit m) (priv m) (next m).
Definition set_ref_count (v : Z) (m : module) : module :=
  Module (name m) v (handle m) (init m) (exit m) (priv m) (next m).
Definition set_handle (v : ptr) (m : module) : module :=
  Module (name m) (ref_count m) v (init m) (exit m) (priv m) (next m).
Definition set_init (v : ptr) (m : module) : module :=
  Module (name m) (ref_count m) (handle m) v (exit m) (priv m) (next m).
Definition set_exit (v : ptr) (m : module) : module :=
  Module (name m) (ref_count m) (handle m) (init m) v (priv m) (next m).
Definition set_priv (v : ptr) (m : module) : module :=
  Module (name m) (ref_count m) (handle m) (init m) (exit m) v (next m).
Definition set_next (v : ptr) (m : module) : module :=
  Module (name m) (ref_count m) (handle m) (init m) (exit m) (priv m) v.

(** [g_lock], a default (non-recursive) pthread mutex. *)
Inductive lock_state := Released | Held.

(** What the code asks of its collaborators, in the order it asks. *)
Inductive event :=
| EvDlopen (file : string) (flag : Z)
| EvDlsym (h : ptr) (symbol : string)
| EvDlclose (h : ptr)
| EvInit (fn : ptr) (module : ptr)
| EvExit (fn : ptr) (module : ptr)
| EvErrorLog (fmt : string)
| EvVerboseLog (fmt : string).

(** The globals of module.c, the two heaps, the loader's pending error (what
    the next [dlerror()] answers) and the calls made so far.  [g_module_err]
    is modelled by the text it points to. *)
Record state := State {
  g_module_head : ptr;
  g_module_err : option string;
  g_lock : lock_state;
  mods : gmap N module;
  strs : gmap N string;
  dl_err : option string;
  trace : list event
}.

Definition with_head (v : ptr) (s : state) : state :=
  State v (g_module_err s) (g_lock s) (mods s) (strs s) (dl_err s) (trace s).
Definition with_err (v : option string) (s : state) : state :=
  State (g_module_head s) v (g_lock s) (mods s) (strs s) (dl_err s) (trace s).
Definition with_lock (v : lock_state) (s : state) : state :=
  State (g_module_head s) (g_module_err s) v (mods s) (strs s) (dl_err s) (trace s).
Definition with_mods (v : gmap N module) (s : state) : state :=
  State (g_module_head s) (g_module_err s) (g_lock s) v (strs s) (dl_err s) (trace s).
Definition with_strs (v : gmap N string) (s : state) : state :=
  State (g_module_head s) (g_module_err s) (g_lock s) (mods s) v (dl_err s) (trace s).
Definition with_dl_err (v : option string) (s : state) : state :=
  State (g_module_head s) (g_module_err s) (g_lock s) (mods s) (strs s) v (trace s).
Definition with_trace (v : list event) (s : state) : state :=
  State (g_module_head s) (g_module_err s) (g_lock s) (mods s) (strs s) (dl_err s) v.

(** The registry before any call. *)
Definition empty_registry : state :=
  State NULL None Released ∅ ∅ None [].

(** ** The monad of the operations

    A call either returns a value and a state, or never returns because it
    waits for a mutex that nobody will release ([Blocked]), or reads, writes
    or frees memory that is not allocated or calls a null function pointer
    ([Fault], undefined behaviour in C), or walks a cyclic list for ever
    ([Diverge]). *)
Inductive result (A : Type) :=
| Ret (a : A) (s : state)
| Blocked
| Fault
| Diverge.
Arguments Ret {A} a s.
Arguments Blocked {A}.
Arguments Fault {A}.
Arguments Diverge {A}.

Definition M (A : Type) : Type := state → result A.

Definition ret {A} (a : A) : M A := fun s => Ret a s.
Definition bind {A B} (c : M A) (k : A → M B) : M B :=
  fun s => match c s with
           | Ret a s' => k a s'
           | Blocked => Blocked
           | Fault => Fault
           | Diverge => Diverge
           end.
Definition fault {A} : M A := fun _ => Fault.
Definition diverge {A} : M A := fun _ => Diverge.
Definition get : M state := fun s => Ret s s.
Definition modify (f : state → state) : M unit := fun s => Ret tt (f s).

#[export] Instance M_ret : MRet M := @ret.
#[export] Instance M_bind : MBind M := fun A B k c => bind c k.

Definition is_null (p : ptr) : bool := (p =? NULL)%N.

(** *** Memory *)

Definition load (p : ptr) : M module :=
  fun s => match mods s !! p with Some m => Ret m s | None => Fault end.

Definition store (p : ptr) (m : module) : M unit :=
  fun s => match mods s !! p with
           | Some _ => Ret tt (with_mods (<[p := m]> (mods s)) s)
           | None => Fault
           end.

(** [p->field = v]. *)
Definition assign (p : ptr) (f : module → module) : M unit :=
  m ← load p; store p (f m).

Definition load_str (p : ptr) : M string :=
  fun s => match strs s !! p with Some x => Ret x s | None => Fault end.

(** [malloc(sizeof(struct module))]: [p] is the address malloc answers, NULL
    when it fails, and [junk] the indeterminate contents of the new block. *)
Definition malloc (p : ptr) (junk : module) : M ptr :=
  if is_null p then ret NULL
  else modify (fun s => with_mods (<[p := junk]> (mods s)) s);; ret p.

(** [strdup(x)]: [p] is the address of the copy, NULL when it fails. *)
Definition strdup (p : ptr) (x : string) : M ptr :=
  if is_null p then ret NULL
  else modify (fun s => with_strs (<[p := x]> (strs s)) s);; ret p.

(** [free] of a struct and of a string; [free(NULL)] does nothing. *)
Definition free (p : ptr) : M unit :=
  if is_null p then ret tt
  else fun s => match mods s !! p with
                | Some _ => Ret tt (with_mods (delete p (mods s)) s)
                | None => Fault
                end.

Definition free_str (p : ptr) : M unit :=
  if is_null p then ret tt
  else fun s => match strs s !! p with
                | Some _ => Ret tt (with_strs (delete p (strs s)) s)
                | None => Fault
                end.

(** *** The mutex *)

(** Locking a mutex that is held never returns: in a sequential run the
    holder is an earlier call that returned without unlocking. *)
Definition pthread_mutex_lock : M unit :=
  fun s => match g_lock s with
           | Released => Ret tt (with_lock Held s)
           | Held => Blocked
           end.

(** Unlocking leaves the mutex released (also when it was not held, which
    module_open does on two of its failure paths). *)
Definition pthread_mutex_unlock : M unit := modify (with_lock Released).

(** *** The loader, the callbacks and the logs *)

Definition emit (e : event) : M unit :=
  modify (fun s => with_trace (trace s ++ [e]) s).

(** [dlerror()] answers the pending error and forgets it. *)
Definition dlerror : M (option string) :=
  s ← get; modify (with_dl_err None);; ret (dl_err s).

(** A loader call that fails leaves its message pending; one that succeeds
    leaves the pending error as it was. *)
Definition dl_outcome (err : option string) : M unit :=
  match err with
  | Some e => modify (with_dl_err (Some e))
  | None => ret tt
  end.

(** The answers of the loader are pairs: the value returned and the error
    the call leaves pending, if any. *)
Definition dlopen (ans : ptr * option string) (file : string) (flag : Z) : M ptr :=
  emit (EvDlopen file flag);; dl_outcome (snd ans);; ret (fst ans).

Definition dlsym (ans : ptr * option string) (h : ptr) (symbol : string) : M ptr :=
  emit (EvDlsym h symbol);; dl_outcome (snd ans);; ret (fst ans).

Definition dlclose (err : option string) (h : ptr) : M unit :=
  emit (EvDlclose h);; dl_outcome err.

(** [new->init(new)]: the module's initializer answers a status and may
    fill the private slot of the entry it is given. *)
Definition call_init (fn new : ptr) (status : Z) (slot : ptr) : M Z :=
  if is_null fn then fault
  else emit (EvInit fn new);; assign new (set_priv slot);; ret status.

(** [module->exit(module)]. *)
Definition call_exit (fn module : ptr) : M unit :=
  if is_null fn then fault else emit (EvExit fn module).

(** The log sinks; the arguments of the format are not modelled. *)
Definition omx_errorLog (fmt : string) : M unit := emit (EvErrorLog fmt).
Definition omx_verboseLog (fmt : string) : M unit := emit (EvVerboseLog fmt).

(** ** The list helpers

    The loops of [for_each_module] follow [next] pointers through the heap.
    A walk over an acyclic list visits each struct at most once, so it makes
    at most one step per allocated struct and one more to see [NULL]; a walk
    that needs more is inside a cycle and never ends. *)
Definition walk_fuel (s : state) : nat := S (size (mods s)).

Fixpoint find_with_name_loop (fuel : nat) (module : ptr) (filename : string) : M ptr :=
  match fuel with
  | O => diverge
  | S fuel' =>
      if is_null module then mret NULL
      else
        m ← load module;
        x ← load_str (name m);
        if String.eqb x filename then mret module
        else find_with_name_loop fuel' (next m) filename
  end.

Definition module_find_with_name (head : ptr) (filename : string) : M ptr :=
  s ← get; find_with_name_loop (walk_fuel s) head filename.

Fixpoint find_with_handle_loop (fuel : nat) (module : ptr) (h : ptr) : M ptr :=
  match fuel with
  | O => diverge
  | S fuel' =>
      if is_null module then mret NULL
      else
        m ← load module;
        if (handle m =? h)%N then mret module
        else find_with_handle_loop fuel' (next m) h
  end.

Definition module_find_with_handle (head : ptr) (h : ptr) : M ptr :=
  s ← get; find_with_handle_loop (walk_fuel s) head h.

(** The macro [find_last_module]: the struct whose [next] is null, NULL for
    the empty list. *)
Fixpoint find_last_loop (fuel : nat) (m : ptr) : M ptr :=
  match fuel with
  | O => diverge
  | S fuel' =>
      if is_null m then mret NULL
      else
        mm ← load m;
        if is_null (next mm) then mret m
        else find_last_loop fuel' (next mm)
  end.

Definition find_last_module (head : ptr) : M ptr :=
  s ← get; find_last_loop (walk_fuel s) head.

Definition module_add_list (head add : ptr) : M ptr :=
  last ← find_last_module head;
  if is_null last then mret add
  else assign last (set_next add);; mret head.

(** The loop of [module_del_list]: the struct whose [next] is [del], NULL
    when there is none. *)
Fixpoint del_list_loop (fuel : nat) (prev del : ptr) : M ptr :=
  match fuel with
  | O => diverge
  | S fuel' =>
      if is_null prev then mret NULL
      else
        m ← load prev;
        if (next m =? del)%N then mret prev
        else del_list_loop fuel' (next m) del
  end.

Definition module_del_list (head del : ptr) : M ptr :=
  s ← get;
  prev ← del_list_loop (walk_fuel s) head del;
  d ← load del;
  if is_null prev then mret (next d)
  else assign prev (set_next (next d));; mret head.

(** ** The last error

    The slot is modelled by the text it points to, [None] for the null
    pointer.  [module_set_error] frees the old message and stores what
    strdup answers: a copy of the new message, or NULL when the copy cannot
    be allocated.  [copied] says which. *)

(** [strdup(dlerr)] of [module_set_error]. *)
Definition strdup_err (copied : bool) (x : string) : option string :=
  if copied then Some x else None.

Definition module_set_error (copied : bool) (dlerr : option string) : M unit :=
  match dlerr with
  | Some x => modify (with_err (strdup_err copied x))
  | None => modify (with_err None)
  end.

Definition module_error (s : state) : option string := g_module_err s.

(** ** module_open *)

(** What the collaborators answer during one [module_open]. *)
Record open_env := OpenEnv {
  oe_malloc : ptr;                       (* malloc of the struct *)
  oe_junk : module;                      (* contents of the fresh block *)
  oe_dlopen : ptr * option string;       (* dlopen(file, flag) *)
  oe_dlsym_init : ptr * option string;   (* dlsym(handle, "module_init") *)
  oe_init_status : Z;                    (* new->init(new) *)
  oe_init_priv : ptr;                    (* new->priv as init leaves it *)
  oe_dlsym_exit : ptr * option string;   (* dlsym(handle, "module_exit") *)
  oe_strdup : ptr;                       (* strdup(file) *)
  oe_dlclose : option string;            (* dlclose(handle) when unwinding *)
  oe_copied : bool                       (* strdup(dlerr) is not NULL *)
}.

(** The label [free_new]. *)
Definition open_free_new (new : ptr) : M ptr :=
  free new;;
  pthread_mutex_unlock;;
  mret NULL.

(** The label [free_handle], which falls through to [free_new]. *)
Definition open_free_handle (env : open_env) (new : ptr) : M ptr :=
  m ← load new;
  dlclose (oe_dlclose env) (handle m);;
  open_free_new new.

(** From the second [dlerror()] on: the struct [new] has its handle and no
    entry of the list has it. *)
Definition open_init (env : open_env) (file : string) (new : ptr) : M ptr :=
  dlerror;;
  m ← load new;
  fn ← dlsym (oe_dlsym_init env) (handle m) "module_init";
  assign new (set_init fn);;
  dlerr ← dlerror;
  init_ret ← match dlerr with
             | None =>
                 omx_errorLog "module %s has init(), call the symbol\n";;
                 m ← load new;
                 call_init (init m) new (oe_init_status env) (oe_init_priv env)
             | Some _ => mret 0
             end;
  if negb (init_ret =? 0) then
    omx_errorLog "module %s init() failed (%d)\n";;
    pthread_mutex_unlock;;
    open_free_handle env new
  else
    dlerror;;
    m ← load new;
    fn ← dlsym (oe_dlsym_exit env) (handle m) "module_exit";
    assign new (set_exit fn);;
    dlerr ← dlerror;
    (if dlerr is Some _ then assign new (set_exit NULL) else mret tt);;
    nm ← strdup (oe_strdup env) file;
    assign new (set_name nm);;
    m ← load new;
    if is_null (name m) then
      (if negb (is_null (exit m)) then call_exit (exit m) new else mret tt);;
      open_free_handle env new
    else
      s ← get;
      head ← module_add_list (g_module_head s) new;
      modify (with_head head);;
      pthread_mutex_unlock;;
      mret new.

(** After [new] has its handle: the search by handle. *)
Definition open_by_handle (env : open_env) (file : string) (new : ptr) : M ptr :=
  s ← get;
  m ← load new;
  existing ← module_find_with_handle (g_module_head s) (handle m);
  if negb (is_null existing) then
    omx_errorLog "found opened module %s\n";;
    e ← load existing;
    assign existing (set_ref_count (int_incr (ref_count e)));;
    free new;;
    pthread_mutex_unlock;;
    mret existing
  else open_init env file new.

Definition module_open (env : open_env) (file : string) (flag : Z) (preload : ptr)
  : M ptr :=
  pthread_mutex_lock;;
  s ← get;
  existing ← module_find_with_name (g_module_head s) file;
  if negb (is_null existing) then
    omx_errorLog "found opened module %s\n";;
    e ← load existing;
    assign existing (set_ref_count (int_incr (ref_count e)));;
    pthread_mutex_unlock;;
    mret existing
  else
    new ← malloc (oe_malloc env) (oe_junk env);
    if is_null new then
      pthread_mutex_unlock;;
      mret NULL
    else
      assign new (set_ref_count 1);;
      assign new (set_priv NULL);;
      assign new (set_next NULL);;
      dlerror;;
      if negb (is_null preload) then
        assign new (set_handle preload);;
        open_by_handle env file new
      else
        h ← dlopen (oe_dlopen env) file flag;
        assign new (set_handle h);;
        dlerr ← dlerror;
        if dlerr is Some e then
          omx_errorLog "dlopen failed (%s)\n";;
          module_set_error (oe_copied env) (Some e);;
          pthread_mutex_unlock;;
          open_free_new new
        else open_by_handle env file new.

(** ** module_close *)

(** What [dlclose] leaves pending during one [module_close]. *)
Record close_env := CloseEnv {
  ce_dlclose : option string;            (* dlclose(handle) *)
  ce_copied : bool                       (* strdup(dlerr) is not NULL *)
}.

Definition module_close (env : close_env) (module : ptr) (preload : Z) : M Z :=
  if is_null module then mret 0
  else
    m ← load module;
    if is_null (handle m) then mret 0
    else
      pthread_mutex_lock;;
      m ← load module;
      if ref_count m =? 0 then
        omx_errorLog "module %s decrease refcont (%d)------\n";;
        mret 0
      else
        assign module (set_ref_count (int_decr (ref_count m)));;
        m ← load module;
        let ret := ref_count m in
        omx_verboseLog "module %s decrease refcont (%d)\n";;
        if ref_count m =? 0 then
          (if negb (is_null (exit m)) then call_exit (exit m) module else mret tt);;
          ret ← (if preload =? 0 then
                   dlerror;;
                   dlclose (ce_dlclose env) (handle m);;
                   dlerr ← dlerror;
                   if dlerr is Some e then
                     module_set_error (ce_copied env) (Some e);; mret (-1)
                   else mret ret
                 else mret ret);
          s ← get;
          head ← module_del_list (g_module_head s) module;
          modify (with_head head);;
          omx_verboseLog "module %s closed\n";;
          (if preload =? 0 then
             m ← load module;
             free_str (name m);;
             free module
           else mret tt);;
          pthread_mutex_unlock;;
          mret ret
        else
          pthread_mutex_unlock;;
          mret ret.

(** ** module_symbol *)

(** What [dlsym] answers during one [module_symbol]. *)
Record symbol_env := SymbolEnv {
  se_dlsym : ptr * option string;        (* dlsym(handle, string) *)
  se_copied : bool                       (* strdup(dlerr) is not NULL *)
}.

(** [string] is a [const char *]: [None] is the null pointer. *)
Definition module_symbol (env : symbol_env) (module : ptr) (string : option string)
  : M ptr :=
  if is_null module then mret NULL
  else
    m ← load module;
    if is_null (handle m) then mret NULL
    else
      match string with
      | None => mret NULL
      | Some str =>
          pthread_mutex_lock;;
          dlerror;;
          m ← load module;
          symbol ← dlsym (se_dlsym env) (handle m) str;
          dlerr ← dlerror;
          symbol ← (if dlerr is Some e then
                      omx_errorLog "not founded symbol %s in module %s (%s)\n";;
                      module_set_error (se_copied env) (Some e);;
                      mret NULL
                    else
                      omx_verboseLog "found symbol %s in module %s";;
                      mret symbol);
          pthread_mutex_unlock;;
          mret symbol
      end.

(** ** The registry as a list

    The entries of the registry are the structs reached from
    [g_module_head] through [next].  [registry] walks them with the fuel of
    the C loops; [is_list] is the same reading as a relation. *)
Fixpoint walk (fuel : nat) (h : gmap N module) (p : ptr) : option (list ptr) :=
  match fuel with
  | O => None
  | S fuel' =>
      if is_null p then Some []
      else match h !! p with
           | Some m => cons p <$> walk fuel' h (next m)
           | None => None
           end
  end.

Definition registry (s : state) : option (list ptr) :=
  walk (walk_fuel s) (mods s) (g_module_head s).

Fixpoint is_list (h : gmap N module) (p : ptr) (l : list ptr) : Prop :=
  match l with
  | [] => p = NULL
  | q :: l' => p = q ∧ q ≠ NULL ∧ ∃ m, h !! q = Some m ∧ is_list h (next m) l'
  end.

(** The name string and the handle of the struct at [q]. *)
Definition name_of (s : state) (q : ptr) : option string :=
  m ← mods s !! q; strs s !! name m.

Definition handle_of (s : state) (q : ptr) : option ptr :=
  handle <$> mods s !! q.

Definition ref_count_of (s : state) (q : ptr) : option Z :=
  ref_count <$> mods s !! q.

(** The names and the handles of the entries, in list order. *)
Definition entry_names (s : state) : option (list string) :=
  l ← registry s; mapM (name_of s) l.

Definition entry_handles (s : state) : option (list ptr) :=
  l ← registry s; mapM (handle_of s) l.

(** The list without the entry [p]. *)
Definition without (p : ptr) (l : list ptr) : list ptr :=
  filter (λ q, q ≠ p) l.

(** ** Runs of the registry

    malloc and strdup answer NULL or the address of a block that is not
    allocated. *)
Definition env_fresh (env : open_env) (s : state) : Prop :=
  mods s !! oe_malloc env = None ∧ strs s !! oe_strdup env = None.

(** A caller passes to [module_close] and [module_symbol] the null pointer
    or a pointer to a struct that has not been freed. *)
Definition valid_arg (s : state) (module : ptr) : Prop :=
  module = NULL ∨ is_Some (mods s !! module).

(** One call that returns. *)
Inductive step (s s' : state) : Prop :=
| step_open env file flag preload r :
    env_fresh env s →
    module_open env file flag preload s = Ret r s' →
    step s s'
| step_close env module preload r :
    valid_arg s module →
    module_close env module preload s = Ret r s' →
    step s s'
| step_symbol env module string r :
    valid_arg s module →
    module_symbol env module string s = Ret r s' →
    step s s'.

Inductive reachable : state → Prop :=
| reachable_empty : reachable empty_registry
| reachable_step s s' : reachable s → step s s' → reachable s'.

(** The registries reached from the empty one by [n] calls that return. *)
Inductive reachable_in : nat → state → Prop :=
| reachable_in_empty : reachable_in 0 empty_registry
| reachable_in_step n s s' :
    reachable_in n s → step s s' → reachable_in (S n) s'.

(** What one call can make of the count of an entry: the entry is new and
    has one holder, or it was in the list [l] of [s] and its count is what
    it was, or incremented, or decremented from a count that was neither 0
    nor 1. *)
Definition count_moves (s : state) (l : list ptr) (q : ptr) (c' : Z) : Prop :=
  c' = 1 ∨
  ∃ c, q ∈ l ∧ ref_count_of s q = Some c ∧
       (c' = c ∨ c' = int_incr c ∨ (c' = int_decr c ∧ c ≠ 0 ∧ c ≠ 1)).

(** What holds of the registry between calls: the list [l] of its entries
    is well formed, every entry has a name string, no two entries share a
    name or a handle, and a struct that is allocated but not in the list (an
    entry closed as preloaded) has no holder. *)
Record registry_inv (s : state) (l : list ptr) : Prop := RegistryInv {
  inv_list : is_list (mods s) (g_module_head s) l;
  inv_null_mods : mods s !! NULL = None;
  inv_null_strs : strs s !! NULL = None;
  inv_named : ∀ q, q ∈ l → is_Some (name_of s q);
  inv_names : NoDup (name_of s <$> l);
  inv_handles : NoDup (handle_of s <$> l);
  inv_unlinked : ∀ q c, q ∉ l → ref_count_of s q = Some c → c = 0
}.

(** Two heaps that hold the same structs up to their [next] fields. *)
Definition same_but_next (h h' : gmap N module) : Prop :=
  ∀ q, set_next NULL <$> h' !! q = set_next NULL <$> h !! q.

(** The call of the finalizer of the struct [m] at [p], when it has one. *)
Definition exit_events (m : module) (p : ptr) : list event :=
  if is_null (exit m) then [] else [EvExit (exit m) p].

(** [module_open] past the initializer: the module has no [module_init], or
    it has one and it answers 0. *)
Definition init_passes (env : open_env) : Prop :=
  is_Some (snd (oe_dlsym_init env)) ∨
  (fst (oe_dlsym_init env) ≠ NULL ∧ oe_init_status env = 0).

(** What the resolution and the call of the initializer add to the trace and
    do to the struct [m] at [new]. *)
Definition init_events (env : open_env) (m : module) (new : ptr) : list event :=
  EvDlsym (handle m) "module_init" ::
  if snd (oe_dlsym_init env) is Some _ then []
  else [EvErrorLog "module %s has init(), call the symbol\n";
        EvInit (fst (oe_dlsym_init env)) new].

Definition after_init (env : open_env) (m : module) : module :=
  if snd (oe_dlsym_init env) is Some _ then set_init (fst (oe_dlsym_init env)) m
  else set_priv (oe_init_priv env) (set_init (fst (oe_dlsym_init env)) m).

(** The finalizer as [module_open] records it: NULL when [dlsym] reports an
    error. *)
Definition resolved_exit (env : open_env) : ptr :=
  if snd (oe_dlsym_exit env) is Some _ then NULL else fst (oe_dlsym_exit env).

(** The struct at [new] when [module_open] links it. *)
Definition linked_entry (env : open_env) (m : module) : module :=
  set_name (oe_strdup env) (set_exit (resolved_exit env) (after_init env m)).

(** The handle [module_open] gives to a new struct: the preload handle when
    there is one, what [dlopen] answers otherwise. *)
Definition new_handle (env : open_env) (preload : ptr) : ptr :=
  if is_null preload then fst (oe_dlopen env) else preload.

(** The struct at [new] before the search by handle. *)
Definition new_struct (env : open_env) (preload : ptr) : module :=
  set_handle (new_handle env preload)
    (set_next NULL (set_priv NULL (set_ref_count 1 (oe_junk env)))).

(** The state before the search by handle: the lock is held, the new
    struct is allocated, and [dlopen] has been called unless a preload
    handle was given. *)
Definition loaded_state (env : open_env) (file : string) (flag : Z)
    (preload : ptr) (s : state) : state :=
  State (g_module_head s) (g_module_err s) Held
    (<[oe_malloc env := new_struct env preload]> (mods s)) (strs s) None
    (if is_null preload then trace s ++ [EvDlopen file flag] else trace s).

(** The ways [module_open] can end on a registry whose list is [l], one
    constructor per path through the function.  The heaps are written as
    they are once the struct that is not linked has been freed. *)
Inductive open_outcome (env : open_env) (file : string) (flag : Z)
    (preload : ptr) (s : state) (l : list ptr) : result ptr → Prop :=
| open_found_name r e :
    r ∈ l → name_of s r = Some file → mods s !! r = Some e →
    open_outcome env file flag preload s l
      (Ret r (State (g_module_head s) (g_module_err s) Released
                (<[r := set_ref_count (int_incr (ref_count e)) e]> (mods s))
                (strs s) (dl_err s)
                (trace s ++ [EvErrorLog "found opened module %s\n"])))
| open_no_memory :
    (∀ q, q ∈ l → name_of s q ≠ Some file) →
    oe_malloc env = NULL →
    open_outcome env file flag preload s l (Ret NULL s)
| open_load_failed e :
    (∀ q, q ∈ l → name_of s q ≠ Some file) →
    preload = NULL → snd (oe_dlopen env) = Some e →
    open_outcome env file flag preload s l
      (Ret NULL (State (g_module_head s) (strdup_err (oe_copied env) e) Released
                   (mods s) (strs s) None
                   (trace s ++ [EvDlopen file flag;
                                EvErrorLog "dlopen failed (%s)\n"])))
| open_found_handle r e :
    (∀ q, q ∈ l → name_of s q ≠ Some file) →
    r ∈ l → mods s !! r = Some e → handle e = new_handle env preload →
    open_outcome env file flag preload s l
      (Ret r (State (g_module_head s) (g_module_err s) Released
                (<[r := set_ref_count (int_incr (ref_count e)) e]> (mods s))
                (strs s) None
                (trace (loaded_state env file flag preload s) ++
                   [EvErrorLog "found opened module %s\n"])))
| open_init_null :
    snd (oe_dlsym_init env) = None → fst (oe_dlsym_init env) = NULL →
    open_outcome env file flag preload s l Fault
| open_init_failed :
    (∀ q, q ∈ l → name_of s q ≠ Some file) →
    (∀ q, q ∈ l → handle_of s q ≠ Some (new_handle env preload)) →
    snd (oe_dlsym_init env) = None → oe_init_status env ≠ 0 →
    open_outcome env file flag preload s l
      (Ret NULL
         (State (g_module_head s) (g_module_err s) Released (mods s) (strs s)
            (oe_dlclose env)
            (trace (loaded_state env file flag preload s) ++
               [EvDlsym (new_handle env preload) "module_init";
                EvErrorLog "module %s has init(), call the symbol\n";
                EvInit (fst (oe_dlsym_init env)) (oe_malloc env);
                EvErrorLog "module %s init() failed (%d)\n";
                EvDlclose (new_handle env preload)])))
| open_no_name :
    (∀ q, q ∈ l → name_of s q ≠ Some file) →
    (∀ q, q ∈ l → handle_of s q ≠ Some (new_handle env preload)) →
    init_passes env → oe_strdup env = NULL →
    open_outcome env file flag preload s l
      (Ret NULL
         (State (g_module_head s) (g_module_err s) Released (mods s) (strs s)
            (oe_dlclose env)
            (trace (loaded_state env file flag preload s)
               ++ init_events env (new_struct env preload) (oe_malloc env)
               ++ [EvDlsym (new_handle env preload) "module_exit"]
               ++ exit_events
                    (set_exit (resolved_exit env) (new_struct env preload))
                    (oe_malloc env)
               ++ [EvDlclose (new_handle env preload)])))
| open_linked head' h' :
    (∀ q, q ∈ l → name_of s q ≠ Some file) →
    (∀ q, q ∈ l → handle_of s q ≠ Some (new_handle env preload)) →
    init_passes env → oe_malloc env ≠ NULL → oe_strdup env ≠ NULL →
    is_list h' head' (l ++ [oe_malloc env]) →
    same_but_next
      (<[oe_malloc env := linked_entry env (new_struct env preload)]> (mods s)) h' →
    open_outcome env file flag preload s l
      (Ret (oe_malloc env)
         (State head' (g_module_err s) Released h'
            (<[oe_strdup env := file]> (strs s)) None
            (trace (loaded_state env file flag preload s)
               ++ init_events env (new_struct env preload) (oe_malloc env)
               ++ [EvDlsym (new_handle env preload) "module_exit"]))).

(** ** The lock across a computation

    [releases c]: whenever [c] returns, the lock is released. *)
Definition releases {A} (c : M A) : Prop :=
  ∀ s a s', c s = Ret a s' → g_lock s' = Released.

(** ** Sample libraries and registries

    Concrete answers of the collaborators and concrete registries, on which
    the statements below are instantiated. *)
Definition sample_junk : module := Module 7 7 7 7 7 7 7.

(** A library with neither [module_init] nor [module_exit], loaded at
    handle [h]; the struct goes to [new] and the name to [nm]. *)
Definition plain_env (new nm h : ptr) : open_env :=
  OpenEnv new sample_junk (h, None)
    (NULL, Some "undefined symbol: module_init") 0 NULL
    (NULL, Some "undefined symbol: module_exit") nm None true.

(** A library whose [module_init], at address 500, answers 3. *)
Definition failing_init_env (new nm h : ptr) : open_env :=
  OpenEnv new sample_junk (h, None)
    (500%N, None) 3 NULL
    (NULL, Some "undefined symbol: module_exit") nm None true.

Definition state_of {A} (r : result A) : state :=
  match r with Ret _ s => s | _ => empty_registry end.

(** The registry after [module_open("libA.so", 2, NULL)]: one entry at
    address 10, with handle 100 and one holder. *)
Definition one_entry : state :=
  state_of (module_open (plain_env 10 20 100) "libA.so" 2 NULL empty_registry).

(** The registry after [module_open("libP.so", 0, preload)] with the
    preload handle 300 and [module_close(entry, 1)]: the list is empty, the
    struct at address 10 is still allocated and has no holder. *)
Definition closed_preload : state :=
  state_of (module_close (CloseEnv None true) 10%N 1
    (state_of (module_open (plain_env 10 20 0) "libP.so" 0 300%N empty_registry))).

(** The registry after a second library, "libB.so", is opened into
    [one_entry]: two entries, at addresses 10 and 30. *)
Definition two_entries : state :=
  state_of (module_open (plain_env 30 40 200) "libB.so" 2 NULL one_entry).

(** [one_entry] with one more struct allocated at address 30, which is not
    in the list. *)
Definition one_entry_and_a_stranger : state :=
  with_mods (<[30%N := Module 40 1 200 NULL NULL NULL NULL]> (mods one_entry))
    one_entry.

(** The same registry with [g_lock] held. *)
Definition stuck_registry : state := with_lock Held one_entry.

(** [one_entry] when its entry has [INT_MAX] holders. *)
Definition one_entry_at_INT_MAX : state :=
  with_mods (<[10%N := Module 20 INT_MAX 100 NULL NULL NULL NULL]> (mods one_entry))
    one_entry.

(** [two_entries] after a lookup of "g" in "libA.so" that failed: the last
    error is the loader's message. *)
Definition two_entries_after_error : state :=
  state_of (module_symbol (SymbolEnv (NULL, Some "undefined symbol: g") true)
              10%N (Some "g") two_entries).

(** * Lemmas on the model *)

Close Scope Z_scope.

(** ** The count, an [int] *)

Lemma int_incr_small c : c ≠ INT_MAX → int_incr c = (c + 1)%Z.
Proof. unfold int_incr. by intros ->%Z.eqb_neq. Qed.

Lemma int_decr_small c : c ≠ INT_MIN → int_decr c = (c - 1)%Z.
Proof. unfold int_decr. by intros ->%Z.eqb_neq. Qed.

Lemma int_decr_zero c : int_decr c = 0%Z ↔ c = 1%Z.
Proof.
  unfold int_decr, INT_MIN, INT_MAX.
  destruct (Z.eqb_spec c (-2147483648)); lia.
Qed.

Lemma int_decr_minus_one c : int_decr c = (-1)%Z ↔ c = 0%Z.
Proof.
  unfold int_decr, INT_MIN, INT_MAX.
  destruct (Z.eqb_spec c (-2147483648)); lia.
Qed.

Lemma int_incr_zero c : int_incr c = 0%Z ↔ c = (-1)%Z.
Proof.
  unfold int_incr, INT_MIN, INT_MAX.
  destruct (Z.eqb_spec c 2147483647); lia.
Qed.

(** On the values an [int] holds, [++] and [--] are the arithmetic modulo
    2^32, they stay in the range, and each undoes the other. *)
Lemma int_incr_wrap c :
  (INT_MIN ≤ c ≤ INT_MAX)%Z → int_incr c = int_wrap (c + 1).
Proof.
  unfold int_incr, int_wrap, INT_MIN, INT_MAX. intros Hc.
  destruct (Z.eqb_spec c 2147483647) as [->|Hne]; [reflexivity|].
  rewrite Z.mod_small by lia. lia.
Qed.

Lemma int_decr_wrap c :
  (INT_MIN ≤ c ≤ INT_MAX)%Z → int_decr c = int_wrap (c - 1).
Proof.
  unfold int_decr, int_wrap, INT_MIN, INT_MAX. intros Hc.
  destruct (Z.eqb_spec c (-2147483648)) as [->|Hne]; [reflexivity|].
  rewrite Z.mod_small by lia. lia.
Qed.

Lemma int_incr_range c :
  (INT_MIN ≤ c ≤ INT_MAX)%Z → (INT_MIN ≤ int_incr c ≤ INT_MAX)%Z.
Proof.
  unfold int_incr, INT_MIN, INT_MAX. intros Hc.
  destruct (Z.eqb_spec c 2147483647); lia.
Qed.

Lemma int_decr_range c :
  (INT_MIN ≤ c ≤ INT_MAX)%Z → (INT_MIN ≤ int_decr c ≤ INT_MAX)%Z.
Proof.
  unfold int_decr, INT_MIN, INT_MAX. intros Hc.
  destruct (Z.eqb_spec c (-2147483648)); lia.
Qed.

Lemma int_decr_incr c :
  (INT_MIN ≤ c ≤ INT_MAX)%Z → int_decr (int_incr c) = c.
Proof.
  unfold int_incr, int_decr, INT_MIN, INT_MAX. intros Hc.
  destruct (Z.eqb_spec c 2147483647) as [->|Hne]; [reflexivity|].
  destruct (Z.eqb_spec (c + 1) (-2147483648)); lia.
Qed.

(** ** Running the monad *)

Ltac munfold :=
  unfold call_init, call_exit, dlopen, dlsym, dlclose, omx_errorLog,
    omx_verboseLog, module_set_error, assign, malloc, strdup in *;
  unfold dlerror, dl_outcome, emit, load, store, load_str, free, free_str,
    pthread_mutex_lock, pthread_mutex_unlock in *;
  unfold mbind, M_bind, mret, M_ret, bind, ret, get, modify, fault, diverge in *;
  cbv beta in *.

Lemma mods_lookup_insert (h : gmap N module) i x : <[i := x]> h !! i = Some x.
Proof. apply lookup_insert_eq. Qed.

Lemma mods_insert_insert (h : gmap N module) i x y :
  <[i := x]> (<[i := y]> h) = <[i := x]> h.
Proof. apply insert_insert_eq. Qed.

Lemma mods_delete_insert (h : gmap N module) i x :
  delete i (<[i := x]> h) = delete i h.
Proof. apply delete_insert_eq. Qed.

Ltac msimpl :=
  cbn [g_module_head g_module_err g_lock mods strs dl_err trace
       with_head with_err with_lock with_mods with_strs with_dl_err with_trace
       name ref_count handle init exit priv next
       set_name set_ref_count set_handle set_init set_exit set_priv set_next
       fst snd negb] in *.

(** Rewrite with a heap lookup wherever the run meets it. *)
Ltac mrew H :=
  repeat first [rewrite H | rewrite mods_lookup_insert | progress msimpl].

(** Two states are equal when their components are. *)
Lemma state_ext s s' :
  g_module_head s = g_module_head s' → g_module_err s = g_module_err s' →
  g_lock s = g_lock s' → mods s = mods s' → strs s = strs s' →
  dl_err s = dl_err s' → trace s = trace s' → s = s'.
Proof. destruct s, s'; simpl. by intros -> -> -> -> -> -> ->. Qed.

(** Two results that differ in how the final state is written. *)
Ltac states_eq :=
  apply state_ext; msimpl;
  rewrite ?mods_insert_insert, ?mods_delete_insert, <- ?app_assoc; try done.

Ltac state_eq := f_equal; states_eq.

(** The same with a tactic that rewrites with the facts at hand. *)
Ltac mrun tac :=
  repeat first [tac | rewrite mods_lookup_insert | progress msimpl].

Lemma is_null_false p : p ≠ NULL → is_null p = false.
Proof. intros H. unfold is_null. by apply N.eqb_neq. Qed.

Lemma is_null_NULL : is_null NULL = true.
Proof. reflexivity. Qed.

Lemma is_null_cases p : (p = NULL ∧ is_null p = true) ∨ (p ≠ NULL ∧ is_null p = false).
Proof.
  unfold is_null. destruct (N.eqb_spec p NULL); [left | right]; done.
Qed.

(** ** Lists in the heap *)

Lemma is_list_functional h p l1 l2 :
  is_list h p l1 → is_list h p l2 → l1 = l2.
Proof.
  revert p l2. induction l1 as [|q l1 IH]; intros p [|q2 l2]; simpl.
  - done.
  - intros -> (<- & Hq & _). done.
  - intros (<- & Hq & _) ->. done.
  - intros (<- & _ & m & Hm & H1) (<- & _ & m2 & Hm2 & H2).
    rewrite Hm in Hm2. injection Hm2 as <-. f_equal. eauto.
Qed.

Lemma is_list_suffix h p a l :
  is_list h p (a ++ l) → ∃ q, is_list h q l.
Proof.
  revert p. induction a as [|x a IH]; intros p; simpl.
  - eauto.
  - intros (_ & _ & m & _ & H). eauto.
Qed.

Lemma is_list_cons_head h p q l : is_list h p (q :: l) → p = q.
Proof. by intros (-> & _). Qed.

Lemma is_list_NoDup h p l : is_list h p l → NoDup l.
Proof.
  revert p. induction l as [|q l IH]; intros p; simpl.
  - constructor.
  - intros (-> & Hq & m & Hm & Hl). constructor; [|by eapply IH].
    intros (a & b & ->)%list_elem_of_split.
    destruct (is_list_suffix _ _ _ _ Hl) as (q' & Hq').
    pose proof (is_list_cons_head _ _ _ _ Hq') as ->.
    assert (is_list h q (q :: a ++ q :: b)) as Hfull.
    { simpl. eauto 6. }
    pose proof (is_list_functional _ _ _ _ Hq' Hfull) as Heq.
    apply (f_equal length) in Heq. simpl in Heq.
    rewrite length_app in Heq. simpl in Heq. lia.
Qed.

Lemma is_list_live h p l q : is_list h p l → q ∈ l → q ≠ NULL ∧ is_Some (h !! q).
Proof.
  revert p. induction l as [|x l IH]; intros p; simpl.
  - intros _ H. by apply elem_of_nil in H.
  - intros (-> & Hx & m & Hm & Hl) [->|Hin]%elem_of_cons; eauto.
Qed.

(** A heap that keeps the [next] of every node of the list keeps the list. *)
Lemma is_list_agree h h' p l :
  (∀ q, q ∈ l → next <$> h' !! q = next <$> h !! q) →
  is_list h p l → is_list h' p l.
Proof.
  revert p. induction l as [|x l IH]; intros p Hag; simpl; [done|].
  intros (-> & Hx & m & Hm & Hl).
  split; [done|]. split; [done|].
  pose proof (Hag x ltac:(left)) as Hx'. rewrite Hm in Hx'.
  destruct (h' !! x) as [m'|] eqn:Hm'; [|done].
  simpl in Hx'. injection Hx' as Hx'.
  exists m'. split; [done|]. rewrite Hx'. apply IH; [|done].
  intros q Hq. apply Hag. by right.
Qed.

Lemma is_list_length h p l : is_list h p l → length l ≤ size h.
Proof.
  intros Hl.
  rewrite <- (size_list_to_set (C := gset N) l) by (by eapply is_list_NoDup).
  rewrite <- size_dom. apply subseteq_size.
  intros q Hq%elem_of_list_to_set. apply elem_of_dom.
  by eapply is_list_live.
Qed.

Lemma walk_is_list fuel h p l : walk fuel h p = Some l → is_list h p l.
Proof.
  revert p l. induction fuel as [|fuel IH]; intros p l; simpl; [done|].
  destruct (is_null_cases p) as [[-> ->]|[Hp ->]].
  - by intros [= <-].
  - destruct (h !! p) as [m|] eqn:Hm; [|done].
    destruct (walk fuel h (next m)) as [l'|] eqn:Hw; [|done].
    intros [= <-]. simpl. eauto 6.
Qed.

Lemma is_list_walk fuel h p l :
  is_list h p l → length l < fuel → walk fuel h p = Some l.
Proof.
  revert p l. induction fuel as [|fuel IH]; intros p l Hl Hlen; [lia|].
  destruct l as [|q l]; simpl in *.
  - by subst p.
  - destruct Hl as (-> & Hq & m & Hm & Hl).
    rewrite (is_null_false _ Hq), Hm. rewrite (IH _ l); [done|done|lia].
Qed.

Lemma registry_is_list s l :
  registry s = Some l ↔ is_list (mods s) (g_module_head s) l.
Proof.
  split; [apply walk_is_list|].
  intros Hl. apply is_list_walk; [done|].
  unfold walk_fuel. pose proof (is_list_length _ _ _ Hl). lia.
Qed.

(** ** The loops *)

Lemma find_with_name_loop_spec s l fuel p f :
  is_list (mods s) p l → length l < fuel →
  (∀ q, q ∈ l → is_Some (name_of s q)) →
  ∃ r, find_with_name_loop fuel p f s = Ret r s ∧
       ((r = NULL ∧ ∀ q, q ∈ l → name_of s q ≠ Some f) ∨
        (r ∈ l ∧ name_of s r = Some f)).
Proof.
  revert p fuel. induction l as [|x l IH]; intros p fuel Hl Hlen Hnamed.
  - simpl in Hl. subst p. destruct fuel; [simpl in Hlen; lia|].
    exists NULL. split; [done|]. left. split; [done|].
    intros q Hq. by apply elem_of_nil in Hq.
  - destruct fuel; [simpl in Hlen; lia|].
    destruct Hl as (-> & Hx & m & Hm & Hl).
    destruct (Hnamed x ltac:(left)) as [nm Hnm].
    pose proof Hnm as Hnm'. unfold name_of in Hnm'. rewrite Hm in Hnm'. simpl in Hnm'.
    simpl. rewrite (is_null_false _ Hx). munfold. rewrite Hm, Hnm'.
    destruct (String.eqb_spec nm f) as [->|Hne].
    + exists x. split; [done|]. right. split; [by left|done].
    + destruct (IH (next m) fuel Hl) as (r & Hr & Hcase).
      { simpl in Hlen. lia. }
      { intros q Hq. apply Hnamed. by right. }
      exists r. split; [done|].
      destruct Hcase as [[-> Hnone]|[Hin Hrn]].
      * left. split; [done|]. intros q [->|Hq]%elem_of_cons; [|by apply Hnone].
        rewrite Hnm. congruence.
      * right. split; [by right|done].
Qed.

Lemma find_with_handle_loop_spec s l fuel p h :
  is_list (mods s) p l → length l < fuel →
  ∃ r, find_with_handle_loop fuel p h s = Ret r s ∧
       ((r = NULL ∧ ∀ q, q ∈ l → handle_of s q ≠ Some h) ∨
        (r ∈ l ∧ handle_of s r = Some h)).
Proof.
  revert p fuel. induction l as [|x l IH]; intros p fuel Hl Hlen.
  - simpl in Hl. subst p. destruct fuel; [simpl in Hlen; lia|].
    exists NULL. split; [done|]. left. split; [done|].
    intros q Hq. by apply elem_of_nil in Hq.
  - destruct fuel; [simpl in Hlen; lia|].
    destruct Hl as (-> & Hx & m & Hm & Hl).
    simpl. rewrite (is_null_false _ Hx). munfold. rewrite Hm.
    destruct (N.eqb_spec (handle m) h) as [Heq|Hne].
    + exists x. split; [done|]. right. split; [by left|].
      unfold handle_of. rewrite Hm. simpl. by rewrite Heq.
    + destruct (IH (next m) fuel Hl) as (r & Hr & Hcase).
      { simpl in Hlen. lia. }
      exists r. split; [done|].
      destruct Hcase as [[-> Hnone]|[Hin Hrn]].
      * left. split; [done|]. intros q [->|Hq]%elem_of_cons; [|by apply Hnone].
        unfold handle_of. rewrite Hm. simpl. congruence.
      * right. split; [by right|done].
Qed.

(** The last node of the list, NULL for the empty list. *)
Lemma find_last_loop_spec s l fuel p :
  is_list (mods s) p l → length l < fuel →
  find_last_loop fuel p s = Ret (default NULL (last l)) s.
Proof.
  revert p fuel. induction l as [|x l IH]; intros p fuel Hl Hlen.
  - simpl in Hl. subst p. destruct fuel; [simpl in Hlen; lia|]. done.
  - destruct fuel; [simpl in Hlen; lia|].
    destruct Hl as (-> & Hx & m & Hm & Hl).
    simpl. rewrite (is_null_false _ Hx). munfold. rewrite Hm.
    destruct l as [|y l].
    + simpl in Hl. rewrite Hl. done.
    + pose proof Hl as (Hy & Hy' & _). rewrite Hy, (is_null_false _ Hy').
      rewrite <- Hy. rewrite (IH (next m) fuel Hl); [|simpl in *; lia].
      rewrite Hy. done.
Qed.

(** The loop of [module_del_list] over a well-formed list ends: at NULL
    when no node points to [del], at the first node that does otherwise. *)
Lemma del_list_loop_spec s l fuel p del :
  is_list (mods s) p l → length l < fuel →
  ∃ r, del_list_loop fuel p del s = Ret r s ∧
       ((r = NULL ∧ ∀ q m, q ∈ l → mods s !! q = Some m → next m ≠ del) ∨
        (∃ a b m, l = a ++ r :: b ∧ mods s !! r = Some m ∧ next m = del)).
Proof.
  revert p fuel. induction l as [|x l IH]; intros p fuel Hl Hlen.
  - simpl in Hl. subst p. destruct fuel; [simpl in Hlen; lia|].
    exists NULL. split; [done|]. left. split; [done|].
    intros q m Hq. by apply elem_of_nil in Hq.
  - destruct fuel; [simpl in Hlen; lia|].
    destruct Hl as (-> & Hx & m & Hm & Hl).
    simpl. rewrite (is_null_false _ Hx). munfold. rewrite Hm.
    destruct (N.eqb_spec (next m) del) as [Heq|Hne].
    + exists x. split; [done|]. right. by exists [], l, m.
    + destruct (IH (next m) fuel Hl) as (r & Hr & Hcase).
      { simpl in Hlen. lia. }
      exists r. split; [done|].
      destruct Hcase as [[-> Hnone]|(a & b & m' & -> & Hm' & Hnext)].
      * left. split; [done|]. intros q mq [->|Hq]%elem_of_cons Hmq.
        -- congruence.
        -- by eapply Hnone.
      * right. by exists (x :: a), b, m'.
Qed.

(** ** Linking and unlinking *)

Lemma without_notin p l : p ∉ l → without p l = l.
Proof.
  induction l as [|x l IH]; [done|].
  intros [Hx Hl]%not_elem_of_cons. unfold without in *.
  rewrite filter_cons_True by done. by rewrite IH.
Qed.

Lemma without_split p a b :
  NoDup (a ++ p :: b) → without p (a ++ p :: b) = a ++ b.
Proof.
  intros (Ha & Hab & Hb)%NoDup_app. apply NoDup_cons in Hb as [Hpb Hb].
  unfold without. rewrite filter_app, filter_cons_False by (intros H; by apply H).
  fold (without p a). fold (without p b).
  rewrite !without_notin; [done|done|].
  intros Hin. apply (Hab p Hin). by left.
Qed.

Lemma not_elem_of_without p l : p ∉ without p l.
Proof. unfold without. intros [H _]%list_elem_of_filter. by apply H. Qed.

Lemma elem_of_without p q l : q ∈ without p l ↔ q ∈ l ∧ q ≠ p.
Proof. unfold without. rewrite list_elem_of_filter. tauto. Qed.

Lemma same_but_next_refl h : same_but_next h h.
Proof. by intros q. Qed.

Lemma same_but_next_set h q m v :
  h !! q = Some m → same_but_next h (<[q := set_next v m]> h).
Proof.
  intros Hm q'. destruct (decide (q = q')) as [<-|Hne].
  - by rewrite lookup_insert_eq, Hm.
  - by rewrite lookup_insert_ne.
Qed.

Lemma same_but_next_lookup h h' q m :
  same_but_next h h' → h !! q = Some m →
  ∃ m', h' !! q = Some m' ∧ set_next NULL m' = set_next NULL m.
Proof.
  intros Hs Hm. specialize (Hs q). rewrite Hm in Hs.
  destruct (h' !! q) as [m'|]; [|done]. simpl in Hs.
  exists m'. split; [done|]. congruence.
Qed.

Lemma same_but_next_None h h' q :
  same_but_next h h' → h !! q = None → h' !! q = None.
Proof.
  intros Hs Hm. specialize (Hs q). rewrite Hm in Hs.
  by destruct (h' !! q).
Qed.

(** The node before [del] takes over the [next] of [del]. *)
Lemma is_list_unlink h p a r del b m md :
  is_list h p (a ++ r :: del :: b) →
  h !! r = Some m → h !! del = Some md →
  is_list (<[r := set_next (next md) m]> h) p (a ++ r :: b).
Proof.
  intros Hl Hm Hmd. pose proof (is_list_NoDup _ _ _ Hl) as Hnd.
  revert p Hl Hnd. induction a as [|x a IH]; intros p Hl Hnd.
  - simpl in *. destruct Hl as (-> & Hr & m' & Hm' & Hd & Hd' & md' & Hmd' & Hb).
    rewrite Hm in Hm'. injection Hm' as <-. rewrite Hmd in Hmd'. injection Hmd' as <-.
    split; [done|]. split; [done|].
    exists (set_next (next md) m). rewrite lookup_insert_eq. split; [done|].
    simpl. eapply is_list_agree; [|done].
    intros q Hq. rewrite lookup_insert_ne; [done|].
    intros <-. apply NoDup_cons in Hnd as [Hnd _]. apply Hnd. by right.
  - simpl in *. destruct Hl as (-> & Hx & mx & Hmx & Hl).
    apply NoDup_cons in Hnd as [Hxn Hnd].
    split; [done|]. split; [done|]. exists mx. split.
    + rewrite lookup_insert_ne; [done|]. intros ->. apply Hxn.
      apply elem_of_app. right. by left.
    + by apply IH.
Qed.

(** The last node takes [new] as its [next]. *)
Lemma is_list_link h p l lst ml new mn :
  is_list h p l → last l = Some lst → h !! lst = Some ml →
  new ≠ NULL → new ∉ l → h !! new = Some mn → next mn = NULL →
  is_list (<[lst := set_next new ml]> h) p (l ++ [new]).
Proof.
  intros Hl Hlast Hml Hnew Hnotin Hmn Hnext.
  pose proof (is_list_NoDup _ _ _ Hl) as Hnd.
  revert p Hl Hlast Hnotin Hnd. induction l as [|x l IH]; intros p Hl Hlast Hnotin Hnd; [done|].
  simpl in Hl. destruct Hl as (-> & Hx & mx & Hmx & Hl).
  apply not_elem_of_cons in Hnotin as [Hnx Hnotin].
  apply NoDup_cons in Hnd as [Hxn Hnd].
  destruct l as [|y l].
  - simpl in Hlast. injection Hlast as <-. rewrite Hml in Hmx. injection Hmx as <-.
    simpl. split; [done|]. split; [done|].
    exists (set_next new ml). rewrite lookup_insert_eq. split; [done|]. simpl.
    split; [done|]. split; [done|]. exists mn.
    rewrite lookup_insert_ne by done. done.
  - change (last (x :: y :: l)) with (last (y :: l)) in Hlast.
    simpl. split; [done|]. split; [done|]. exists mx. split.
    + rewrite lookup_insert_ne; [done|]. intros <-. apply Hxn.
      by eapply last_Some_elem_of.
    + by apply (IH (next mx)).
Qed.

Lemma is_list_next_in h p a r b m :
  is_list h p (a ++ r :: b) → h !! r = Some m → next m ≠ NULL →
  ∃ b', b = next m :: b'.
Proof.
  revert p. induction a as [|x a IH]; intros p Hl Hm Hn; simpl in Hl.
  - destruct Hl as (_ & _ & m' & Hm' & Hb). rewrite Hm in Hm'. injection Hm' as <-.
    destruct b as [|y b]; simpl in Hb; [done|].
    destruct Hb as (-> & _). eauto.
  - destruct Hl as (_ & _ & mx & _ & Hl). eauto.
Qed.

(** ** The list helpers on a well-formed list *)

Lemma with_mods_id s : with_mods (mods s) s = s.
Proof. by destruct s. Qed.

Lemma walk_fuel_enough s p l : is_list (mods s) p l → length l < walk_fuel s.
Proof. intros H%is_list_length. unfold walk_fuel. lia. Qed.

Lemma module_find_with_name_spec s l head f :
  is_list (mods s) head l →
  (∀ q, q ∈ l → is_Some (name_of s q)) →
  ∃ r, module_find_with_name head f s = Ret r s ∧
       ((r = NULL ∧ ∀ q, q ∈ l → name_of s q ≠ Some f) ∨
        (r ∈ l ∧ name_of s r = Some f)).
Proof.
  intros Hl Hn. unfold module_find_with_name. munfold.
  eapply find_with_name_loop_spec; eauto using walk_fuel_enough.
Qed.

Lemma module_find_with_handle_spec s l head h :
  is_list (mods s) head l →
  ∃ r, module_find_with_handle head h s = Ret r s ∧
       ((r = NULL ∧ ∀ q, q ∈ l → handle_of s q ≠ Some h) ∨
        (r ∈ l ∧ handle_of s r = Some h)).
Proof.
  intros Hl. unfold module_find_with_handle. munfold.
  eapply find_with_handle_loop_spec; eauto using walk_fuel_enough.
Qed.

Lemma module_add_list_spec s head l new mn :
  is_list (mods s) head l →
  new ≠ NULL → new ∉ l → mods s !! new = Some mn → next mn = NULL →
  ∃ head' h', module_add_list head new s = Ret head' (with_mods h' s) ∧
              is_list h' head' (l ++ [new]) ∧ same_but_next (mods s) h'.
Proof.
  intros Hl Hnew Hnotin Hmn Hnext. unfold module_add_list, find_last_module. munfold.
  rewrite (find_last_loop_spec s l) by eauto using walk_fuel_enough.
  destruct (last l) as [lst|] eqn:Hlast; simpl.
  - pose proof (last_Some_elem_of _ _ Hlast) as Hin.
    destruct (is_list_live _ _ _ _ Hl Hin) as [Hlst [ml Hml]].
    rewrite (is_null_false _ Hlst). mrew Hml.
    exists head, (<[lst := set_next new ml]> (mods s)). split; [done|].
    split; [by eapply is_list_link|by apply same_but_next_set].
  - apply last_None in Hlast. subst l. simpl in Hl. subst head.
    exists new, (mods s). rewrite with_mods_id. split; [done|].
    split; [|apply same_but_next_refl].
    simpl. split; [done|]. split; [done|]. exists mn. by rewrite Hnext.
Qed.

Lemma module_del_list_spec s head l del md :
  is_list (mods s) head l → del ≠ NULL → mods s !! del = Some md →
  ∃ head' h', module_del_list head del s = Ret head' (with_mods h' s) ∧
              same_but_next (mods s) h' ∧
              (del ∈ l → is_list h' head' (without del l)).
Proof.
  intros Hl Hdel Hmd. unfold module_del_list. munfold.
  pose proof (is_list_NoDup _ _ _ Hl) as Hnd.
  destruct (del_list_loop_spec s l (walk_fuel s) head del Hl) as (r & -> & Hcase).
  { eauto using walk_fuel_enough. }
  rewrite Hmd. destruct Hcase as [[-> Hnone]|(a & b & m & -> & Hm & Hnext)].
  - exists (next md), (mods s). rewrite with_mods_id. simpl.
    split; [done|]. split; [apply same_but_next_refl|].
    intros (a & b & ->)%list_elem_of_split.
    destruct a as [|x a _] using rev_ind.
    + simpl in *. destruct Hl as (-> & _ & m' & Hm' & Hb).
      rewrite Hmd in Hm'. injection Hm' as <-.
      apply NoDup_cons in Hnd as [Hnotin _].
      unfold without. rewrite filter_cons_False by (intros H; by apply H).
      fold (without del b). by rewrite without_notin.
    + exfalso.
      assert (x ∈ (a ++ [x]) ++ del :: b) as Hx.
      { apply elem_of_app. left. apply elem_of_app. right. by left. }
      destruct (is_list_live _ _ _ x Hl Hx) as [_ [mx Hmx]].
      rewrite <- app_assoc in Hl. simpl in Hl.
      destruct (decide (next mx = NULL)) as [Hz|Hnz].
      * destruct (is_list_suffix _ _ _ _ Hl) as (q & Hq). simpl in Hq.
        destruct Hq as (-> & _ & mx' & Hmx' & Hd & _).
        rewrite Hmx in Hmx'. injection Hmx' as <-. congruence.
      * destruct (is_list_next_in _ _ _ _ _ _ Hl Hmx Hnz) as (b' & Hb').
        injection Hb' as Hb' _. by eapply (Hnone x mx).
  - assert (next m ≠ NULL) as Hnz by congruence.
    destruct (is_list_next_in _ _ _ _ _ _ Hl Hm Hnz) as (b' & ->).
    rewrite Hnext in *.
    assert (r ≠ NULL) as Hr.
    { eapply is_list_live; [done|]. apply elem_of_app. right. by left. }
    rewrite (is_null_false _ Hr). mrew Hm.
    exists head, (<[r := set_next (next md) m]> (mods s)).
    split; [done|]. split; [by apply same_but_next_set|].
    intros _.
    replace (a ++ r :: del :: b') with ((a ++ [r]) ++ del :: b') in *
      by (by rewrite <- app_assoc).
    rewrite without_split by done. rewrite <- app_assoc. simpl.
    rewrite <- app_assoc in Hl. simpl in Hl. by eapply is_list_unlink.
Qed.

(** ** module_close, path by path *)

Lemma module_close_null env preload s :
  module_close env NULL preload s = Ret 0%Z s.
Proof. done. Qed.

Lemma module_close_no_handle env p preload s m :
  mods s !! p = Some m → handle m = NULL →
  module_close env p preload s = Ret 0%Z s.
Proof.
  intros Hm Hh. unfold module_close.
  destruct (is_null p); [done|]. munfold. mrew Hm. by rewrite Hh.
Qed.

(** The guard on a count that is already zero: the function returns
    between [pthread_mutex_lock] and any [pthread_mutex_unlock]. *)
Lemma module_close_zero env p preload s m :
  g_lock s = Released → p ≠ NULL →
  mods s !! p = Some m → handle m ≠ NULL → ref_count m = 0%Z →
  module_close env p preload s =
    Ret 0%Z (State (g_module_head s) (g_module_err s) Held (mods s) (strs s)
               (dl_err s)
               (trace s ++ [EvErrorLog "module %s decrease refcont (%d)------\n"])).
Proof.
  intros Hl Hp Hm Hh Hr. unfold module_close.
  rewrite (is_null_false p Hp). munfold. mrew Hm.
  rewrite (is_null_false _ Hh), Hl. msimpl. mrew Hm. rewrite Hr. done.
Qed.

(** Holders remain: the count is decremented and nothing is torn down. *)
Lemma module_close_decrement env p preload s m :
  g_lock s = Released → p ≠ NULL →
  mods s !! p = Some m → handle m ≠ NULL →
  ref_count m ≠ 0%Z → ref_count m ≠ 1%Z →
  module_close env p preload s =
    Ret (int_decr (ref_count m))
      (State (g_module_head s) (g_module_err s) Released
         (<[p := set_ref_count (int_decr (ref_count m)) m]> (mods s)) (strs s)
         (dl_err s)
         (trace s ++ [EvVerboseLog "module %s decrease refcont (%d)\n"])).
Proof.
  intros Hl Hp Hm Hh Hr0 Hr1. unfold module_close.
  rewrite (is_null_false p Hp). munfold. mrew Hm.
  rewrite (is_null_false _ Hh), Hl. msimpl. mrew Hm.
  destruct (Z.eqb_spec (ref_count m) 0) as [?|_]; [done|].
  mrew Hm.
  destruct (Z.eqb_spec (int_decr (ref_count m)) 0) as [H0%int_decr_zero|_];
    [done|].
  done.
Qed.

Ltac close_run Hm Hr Hp Hh Hlk :=
  mrun ltac:(first [ rewrite Hm | rewrite Hr | rewrite Hp | rewrite Hh | rewrite Hlk
                   | progress change (1 =? 0)%Z with false
                   | progress change (int_decr 1 =? 0)%Z with true
                   | progress change (0 =? 0)%Z with true
                   | progress change (int_decr 1) with 0%Z ]).

Lemma is_list_set_ref_count h p l q m v :
  h !! q = Some m → is_list h p l → is_list (<[q := set_ref_count v m]> h) p l.
Proof.
  intros Hm. apply is_list_agree. intros x _.
  destruct (decide (q = x)) as [<-|Hne].
  - by rewrite lookup_insert_eq, Hm.
  - by rewrite lookup_insert_ne.
Qed.

(** The last holder leaves: the finalizer runs, the library is unloaded
    unless the entry is closed as preloaded, the entry leaves the list, and
    its memory is freed unless it is closed as preloaded. *)
Lemma module_close_last env p preload s m l :
  g_lock s = Released → p ≠ NULL →
  mods s !! p = Some m → handle m ≠ NULL → ref_count m = 1%Z →
  is_list (mods s) (g_module_head s) l →
  (preload = 0%Z → name m ≠ NULL ∧ is_Some (strs s !! name m)) →
  ∃ head' h',
    same_but_next (<[p := set_ref_count 0 m]> (mods s)) h' ∧
    (p ∈ l → is_list h' head' (without p l)) ∧
    module_close env p preload s =
      if (preload =? 0)%Z then
        Ret (if ce_dlclose env is Some _ then -1 else 0)%Z
          (State head'
             (if ce_dlclose env is Some e then strdup_err (ce_copied env) e
              else g_module_err s)
             Released (delete p h') (delete (name m) (strs s)) None
             (trace s ++ [EvVerboseLog "module %s decrease refcont (%d)\n"]
                ++ exit_events m p
                ++ [EvDlclose (handle m); EvVerboseLog "module %s closed\n"]))
      else
        Ret 0%Z
          (State head' (g_module_err s) Released h' (strs s) (dl_err s)
             (trace s ++ [EvVerboseLog "module %s decrease refcont (%d)\n"]
                ++ exit_events m p
                ++ [EvVerboseLog "module %s closed\n"])).
Proof.
  intros Hlk Hp Hm Hh Hr Hl Hname.
  set (h1 := <[p := set_ref_count 0 m]> (mods s)).
  assert (is_list h1 (g_module_head s) l) as Hl1 by (by apply is_list_set_ref_count).
  assert (h1 !! p = Some (set_ref_count 0 m)) as Hm1 by apply lookup_insert_eq.
  assert (∀ s1, mods s1 = h1 →
    ∃ head' h', same_but_next h1 h' ∧ (p ∈ l → is_list h' head' (without p l)) ∧
      module_del_list (g_module_head s) p s1 = Ret head' (with_mods h' s1)) as Hdel.
  { intros s1 Hs1.
    destruct (module_del_list_spec s1 (g_module_head s) l p (set_ref_count 0 m))
      as (head' & h' & Heq & Hsame & Hlist); rewrite ?Hs1; try done.
    exists head', h'. rewrite <- Hs1 at 1. done. }
  pose proof (is_null_false _ Hp) as Hp'. pose proof (is_null_false _ Hh) as Hh'.
  unfold module_close. munfold. unfold exit_events.
  close_run Hm Hr Hp' Hh' Hlk. fold h1.
  destruct (Z.eqb_spec preload 0) as [Hpre|Hpre].
  - destruct (Hname Hpre) as [Hnm%is_null_false [x Hx]].
    destruct (is_null (exit m)) eqn:Hex, (ce_dlclose env) as [e|]; msimpl.
    all: match goal with
         | |- context [module_del_list _ _ ?s1] =>
             destruct (Hdel s1 eq_refl) as (head' & h' & Hsame & Hlist & Heq)
         end.
    all: exists head', h'; split; [done|]; split; [done|]; rewrite Heq.
    all: destruct (same_but_next_lookup _ _ _ _ Hsame Hm1) as (m' & Hm' & Hfields).
    all: assert (name m' = name m) as Hnm' by (by injection Hfields).
    all: mrun ltac:(first [rewrite Hm' | rewrite Hnm' | rewrite Hnm | rewrite Hx]).
    all: state_eq.
  - destruct (is_null (exit m)) eqn:Hex; msimpl.
    all: match goal with
         | |- context [module_del_list _ _ ?s1] =>
             destruct (Hdel s1 eq_refl) as (head' & h' & Hsame & Hlist & Heq)
         end.
    all: exists head', h'; split; [done|]; split; [done|]; rewrite Heq.
    all: msimpl; state_eq.
Qed.

(** ** module_symbol, path by path *)

Lemma module_symbol_rejects env p str s :
  p = NULL ∨ (∃ m, mods s !! p = Some m ∧ handle m = NULL) ∨
  (is_Some (mods s !! p) ∧ str = None) →
  module_symbol env p str s = Ret NULL s.
Proof.
  unfold module_symbol. intros [->|[(m & Hm & Hh)|[[m Hm] ->]]]; [done| |].
  - destruct (is_null p); [done|]. munfold. mrew Hm. by rewrite Hh.
  - destruct (is_null p); [done|]. munfold. mrew Hm. by destruct (is_null (handle m)).
Qed.

Lemma module_symbol_looks_up env p str s m :
  g_lock s = Released → p ≠ NULL →
  mods s !! p = Some m → handle m ≠ NULL →
  module_symbol env p (Some str) s =
    match snd (se_dlsym env) with
    | Some e =>
        Ret NULL
          (State (g_module_head s) (strdup_err (se_copied env) e) Released
             (mods s) (strs s) None
             (trace s ++ [EvDlsym (handle m) str;
                          EvErrorLog "not founded symbol %s in module %s (%s)\n"]))
    | None =>
        Ret (fst (se_dlsym env))
          (State (g_module_head s) (g_module_err s) Released (mods s) (strs s) None
             (trace s ++ [EvDlsym (handle m) str;
                          EvVerboseLog "found symbol %s in module %s"]))
    end.
Proof.
  intros Hlk Hp%is_null_false Hm Hh%is_null_false.
  unfold module_symbol. munfold.
  mrun ltac:(first [rewrite Hm | rewrite Hp | rewrite Hh | rewrite Hlk]).
  destruct (se_dlsym env) as [a [e|]]; msimpl; state_eq.
Qed.

(** ** module_open, piece by piece *)

Lemma open_free_new_spec new s :
  new ≠ NULL → is_Some (mods s !! new) →
  open_free_new new s =
    Ret NULL (State (g_module_head s) (g_module_err s) Released
                (delete new (mods s)) (strs s) (dl_err s) (trace s)).
Proof.
  intros Hn%is_null_false [m Hm]. unfold open_free_new. munfold.
  mrun ltac:(first [rewrite Hm | rewrite Hn]). state_eq.
Qed.

Lemma open_free_handle_spec env new s m :
  new ≠ NULL → mods s !! new = Some m →
  open_free_handle env new s =
    Ret NULL (State (g_module_head s) (g_module_err s) Released
                (delete new (mods s)) (strs s)
                (if oe_dlclose env is Some e then Some e else dl_err s)
                (trace s ++ [EvDlclose (handle m)])).
Proof.
  intros Hn%is_null_false Hm. unfold open_free_handle, open_free_new. munfold.
  mrun ltac:(first [rewrite Hm | rewrite Hn]).
  destruct (oe_dlclose env); mrun ltac:(first [rewrite Hm | rewrite Hn]); state_eq.
Qed.

(** The initializer answers a nonzero status: the handle is closed and the
    struct freed; neither the list nor the last error is written. *)
Lemma open_init_fails env file new s m :
  new ≠ NULL → mods s !! new = Some m →
  snd (oe_dlsym_init env) = None → fst (oe_dlsym_init env) ≠ NULL →
  oe_init_status env ≠ 0%Z →
  open_init env file new s =
    Ret NULL
      (State (g_module_head s) (g_module_err s) Released
         (delete new (mods s)) (strs s) (oe_dlclose env)
         (trace s ++ [EvDlsym (handle m) "module_init";
                      EvErrorLog "module %s has init(), call the symbol\n";
                      EvInit (fst (oe_dlsym_init env)) new;
                      EvErrorLog "module %s init() failed (%d)\n";
                      EvDlclose (handle m)])).
Proof.
  intros Hn%is_null_false Hm Herr Hfn%is_null_false Hst.
  unfold open_init, open_free_handle, open_free_new. munfold.
  destruct (oe_dlsym_init env) as [fn err]. simpl in Herr, Hfn. subst err.
  mrun ltac:(first [rewrite Hm | rewrite Hn | rewrite Hfn]).
  destruct (Z.eqb_spec (oe_init_status env) 0) as [?|_]; [done|].
  mrun ltac:(first [rewrite Hm | rewrite Hn | rewrite Hfn]).
  destruct (oe_dlclose env); mrun ltac:(first [rewrite Hm | rewrite Hn]); state_eq.
Qed.

(** [dlsym] finds a [module_init] that is the null pointer: the call
    through it is undefined. *)
Lemma open_init_faults env file new s m :
  new ≠ NULL → mods s !! new = Some m →
  snd (oe_dlsym_init env) = None → fst (oe_dlsym_init env) = NULL →
  open_init env file new s = Fault.
Proof.
  intros Hn%is_null_false Hm Herr Hfn.
  unfold open_init. munfold.
  destruct (oe_dlsym_init env) as [fn err]. simpl in Herr, Hfn. subst err fn.
  mrun ltac:(first [rewrite Hm | rewrite Hn]). done.
Qed.

(** [strdup] fails: the finalizer runs if there is one, the handle is
    closed and the struct freed. *)
Lemma open_init_no_name env file new s m :
  new ≠ NULL → mods s !! new = Some m →
  init_passes env → oe_strdup env = NULL →
  open_init env file new s =
    Ret NULL
      (State (g_module_head s) (g_module_err s) Released
         (delete new (mods s)) (strs s) (oe_dlclose env)
         (trace s ++ init_events env m new
            ++ [EvDlsym (handle m) "module_exit"]
            ++ exit_events (set_exit (resolved_exit env) m) new
            ++ [EvDlclose (handle m)])).
Proof.
  intros Hn%is_null_false Hm Hpass Hdup.
  unfold open_init, open_free_handle, open_free_new, init_events, exit_events,
    resolved_exit. munfold. rewrite Hdup.
  unfold init_passes in Hpass.
  destruct (oe_dlsym_init env) as [fn err], (oe_dlsym_exit env) as [ex err'].
  simpl in Hpass.
  assert (err = None → is_null fn = false ∧ (oe_init_status env =? 0)%Z = true) as Hok.
  { intros ->. destruct Hpass as [[? [=]]|[?%is_null_false ->]]. done. }
  destruct err as [e|]; [|destruct Hok as [Hfn Hst]; [done|]].
  all: destruct err' as [e'|]; [|destruct (is_null ex) eqn:Hex].
  all: destruct (oe_dlclose env) as [e''|].
  all: mrun ltac:(first [rewrite Hm | rewrite Hn | rewrite Hfn | rewrite Hst
                        | rewrite Hex | rewrite is_null_NULL
                        | progress change (0 =? 0)%Z with true]).
  all: state_eq.
Qed.

(** The success path: the struct is completed and appended to the list. *)
Lemma open_init_links env file new s m l :
  new ≠ NULL → mods s !! new = Some m → next m = NULL →
  is_list (mods s) (g_module_head s) l → new ∉ l →
  init_passes env → oe_strdup env ≠ NULL →
  ∃ head' h',
    is_list h' head' (l ++ [new]) ∧
    same_but_next (<[new := linked_entry env m]> (mods s)) h' ∧
    open_init env file new s =
      Ret new
        (State head' (g_module_err s) Released h'
           (<[oe_strdup env := file]> (strs s)) None
           (trace s ++ init_events env m new
              ++ [EvDlsym (handle m) "module_exit"])).
Proof.
  intros Hn Hm Hnext Hl Hnotin Hpass Hdup.
  set (h1 := <[new := linked_entry env m]> (mods s)).
  assert (is_list h1 (g_module_head s) l) as Hl1.
  { eapply is_list_agree; [|done]. intros q Hq. unfold h1.
    rewrite lookup_insert_ne; [done|]. by intros <-. }
  assert (∀ s1, mods s1 = h1 →
    ∃ head' h', is_list h' head' (l ++ [new]) ∧ same_but_next h1 h' ∧
      module_add_list (g_module_head s) new s1 = Ret head' (with_mods h' s1)) as Hadd.
  { intros s1 Hs1.
    destruct (module_add_list_spec s1 (g_module_head s) l new (linked_entry env m))
      as (head' & h' & Heq & Hlist & Hsame); rewrite ?Hs1; try done.
    - apply lookup_insert_eq.
    - unfold linked_entry, after_init. by destruct (snd (oe_dlsym_init env)).
    - exists head', h'. by rewrite <- Hs1. }
  apply is_null_false in Hn, Hdup.
  unfold open_init, init_events. munfold. rewrite Hdup.
  unfold h1, linked_entry, after_init, resolved_exit in *.
  unfold init_passes in Hpass.
  destruct (oe_dlsym_init env) as [fn err], (oe_dlsym_exit env) as [ex err'].
  simpl in Hpass.
  assert (err = None → is_null fn = false ∧ (oe_init_status env =? 0)%Z = true) as Hok.
  { intros ->. destruct Hpass as [[? [=]]|[?%is_null_false ->]]. done. }
  destruct err as [e|]; [|destruct Hok as [Hfn Hst]; [done|]].
  all: destruct err' as [e'|].
  all: mrun ltac:(first [rewrite Hm | rewrite Hn | rewrite Hfn | rewrite Hst
                        | rewrite Hdup | rewrite mods_insert_insert
                        | progress change (0 =? 0)%Z with true]).
  all: match goal with
       | |- context [module_add_list _ _ ?s1] =>
           destruct (Hadd s1) as (head' & h' & Hlist & Hsame & Heq);
             [msimpl; rewrite ?mods_insert_insert; done|]
       end.
  all: exists head', h'; split; [done|]; split; [done|]; rewrite Heq.
  all: msimpl; state_eq.
Qed.

Lemma open_by_handle_cases env file new s m l :
  is_list (mods s) (g_module_head s) l →
  new ≠ NULL → mods s !! new = Some m → new ∉ l →
  (∃ r e, r ∈ l ∧ mods s !! r = Some e ∧ handle e = handle m ∧
     open_by_handle env file new s =
       Ret r (State (g_module_head s) (g_module_err s) Released
                (delete new (<[r := set_ref_count (int_incr (ref_count e)) e]> (mods s)))
                (strs s) (dl_err s)
                (trace s ++ [EvErrorLog "found opened module %s\n"]))) ∨
  ((∀ q, q ∈ l → handle_of s q ≠ Some (handle m)) ∧
   open_by_handle env file new s = open_init env file new s).
Proof.
  intros Hl Hn Hm Hnotin.
  destruct (module_find_with_handle_spec s l (g_module_head s) (handle m) Hl)
    as (r & Hfind & [[-> Hnone]|[Hin Hh]]).
  - right. split; [done|]. unfold open_by_handle. munfold.
    mrun ltac:(first [rewrite Hm | rewrite Hfind]). done.
  - left. destruct (is_list_live _ _ _ _ Hl Hin) as [Hr [e He]].
    assert (r ≠ new) as Hne by (by intros ->).
    exists r, e. split; [done|]. split; [done|]. split.
    { unfold handle_of in Hh. rewrite He in Hh. by injection Hh. }
    apply is_null_false in Hr, Hn.
    unfold open_by_handle. munfold.
    mrun ltac:(first [rewrite Hm | rewrite Hfind | rewrite He | rewrite Hr | rewrite Hn
                     | rewrite (lookup_insert_ne _ r new) by done]).
    state_eq.
Qed.

(** ** module_open, path by path *)

(** The path is registered: the count of its entry is incremented, nothing is
    loaded. *)
Lemma module_open_by_name env file flag preload s l :
  g_lock s = Released →
  is_list (mods s) (g_module_head s) l →
  (∀ q, q ∈ l → is_Some (name_of s q)) →
  (∃ q, q ∈ l ∧ name_of s q = Some file) →
  ∃ r e, r ∈ l ∧ name_of s r = Some file ∧ mods s !! r = Some e ∧
    module_open env file flag preload s =
      Ret r (State (g_module_head s) (g_module_err s) Released
               (<[r := set_ref_count (int_incr (ref_count e)) e]> (mods s))
               (strs s) (dl_err s)
               (trace s ++ [EvErrorLog "found opened module %s\n"])).
Proof.
  intros Hlk Hl Hnamed (q & Hq & Hqn).
  destruct (module_find_with_name_spec (with_lock Held s) l (g_module_head s) file)
    as (r & Hfind & [[-> Hnone]|[Hin Hrn]]); [done|done| |].
  - by destruct (Hnone q Hq).
  - destruct (is_list_live _ _ _ _ Hl Hin) as [Hr%is_null_false [e He]].
    exists r, e. split; [done|]. split; [done|]. split; [done|].
    unfold module_open. munfold.
    mrun ltac:(first [rewrite Hlk | rewrite Hfind | rewrite He | rewrite Hr]).
    state_eq.
Qed.

Lemma module_open_find_fails file s l :
  is_list (mods s) (g_module_head s) l →
  (∀ q, q ∈ l → is_Some (name_of s q)) →
  (∀ q, q ∈ l → name_of s q ≠ Some file) →
  module_find_with_name (g_module_head s) file (with_lock Held s)
    = Ret NULL (with_lock Held s).
Proof.
  intros Hl Hnamed Hfile.
  destruct (module_find_with_name_spec (with_lock Held s) l (g_module_head s) file)
    as (r & Hfind & [[-> Hnone]|[Hin Hrn]]); [done|done|done|].
  by destruct (Hfile r Hin).
Qed.

(** malloc fails. *)
Lemma module_open_no_memory env file flag preload s l :
  g_lock s = Released →
  is_list (mods s) (g_module_head s) l →
  (∀ q, q ∈ l → is_Some (name_of s q)) →
  (∀ q, q ∈ l → name_of s q ≠ Some file) →
  oe_malloc env = NULL →
  module_open env file flag preload s = Ret NULL s.
Proof.
  intros Hlk Hl Hnamed Hfile Hnew.
  pose proof (module_open_find_fails file s l Hl Hnamed Hfile) as Hfind.
  unfold module_open. munfold.
  mrun ltac:(first [rewrite Hlk | rewrite Hfind | rewrite Hnew | rewrite is_null_NULL]).
  destruct s. simpl in Hlk. by subst.
Qed.

(** dlopen reports an error. *)
Lemma module_open_load_fails env file flag s l e :
  g_lock s = Released →
  is_list (mods s) (g_module_head s) l →
  (∀ q, q ∈ l → is_Some (name_of s q)) →
  (∀ q, q ∈ l → name_of s q ≠ Some file) →
  oe_malloc env ≠ NULL → snd (oe_dlopen env) = Some e →
  module_open env file flag NULL s =
    Ret NULL (State (g_module_head s) (strdup_err (oe_copied env) e) Released
                (delete (oe_malloc env) (mods s)) (strs s) None
                (trace s ++ [EvDlopen file flag; EvErrorLog "dlopen failed (%s)\n"])).
Proof.
  intros Hlk Hl Hnamed Hfile Hnew%is_null_false Herr.
  pose proof (module_open_find_fails file s l Hl Hnamed Hfile) as Hfind.
  unfold module_open, open_free_new. munfold.
  destruct (oe_dlopen env) as [h err]. simpl in Herr. subst err.
  mrun ltac:(first [rewrite Hlk | rewrite Hfind | rewrite Hnew | rewrite is_null_NULL]).
  state_eq.
Qed.

(** A handle is at hand: the run goes on with the search by handle. *)
Lemma module_open_continues env file flag preload s l :
  g_lock s = Released →
  is_list (mods s) (g_module_head s) l →
  (∀ q, q ∈ l → is_Some (name_of s q)) →
  (∀ q, q ∈ l → name_of s q ≠ Some file) →
  oe_malloc env ≠ NULL →
  preload ≠ NULL ∨ snd (oe_dlopen env) = None →
  module_open env file flag preload s =
    open_by_handle env file (oe_malloc env) (loaded_state env file flag preload s).
Proof.
  intros Hlk Hl Hnamed Hfile Hnew%is_null_false Hh.
  pose proof (module_open_find_fails file s l Hl Hnamed Hfile) as Hfind.
  unfold module_open, loaded_state, new_struct, new_handle. munfold.
  destruct (is_null_cases preload) as [[-> Hp]|[Hpn Hp]]; rewrite Hp.
  - destruct Hh as [?|Herr]; [done|].
    destruct (oe_dlopen env) as [h err]. simpl in Herr. subst err.
    mrun ltac:(first [rewrite Hlk | rewrite Hfind | rewrite Hnew | rewrite is_null_NULL]).
    f_equal. states_eq.
  - mrun ltac:(first [rewrite Hlk | rewrite Hfind | rewrite Hnew | rewrite Hp
                     | rewrite is_null_NULL]).
    f_equal. states_eq.
Qed.

(** * Properties of the operations *)

(** ** The guard of module_close *)

(** C5, on the code: for an entry whose [ref_count] is already zero,
    [module_close] logs the inconsistency and returns 0 without decrementing
    (the entry has a handle, as every struct whose count has come down to
    zero has; a struct without one is turned away before the lock, see
    [module_close_no_handle]): the count stays zero, neither the finalizer
    nor [dlclose] is called (the only call added to the trace is the error
    log), and the list, the structs, the strings and the last error are what
    they were.  The state is not: the call took [g_lock] and returns without
    releasing it, so that the registry it leaves is not the one it was given
    and every later [module_open] waits for the lock for ever. *)
Theorem C5_close_at_zero_count env p preload s m :
  g_lock s = Released → p ≠ NULL →
  mods s !! p = Some m → handle m ≠ NULL → ref_count m = 0%Z →
  ∃ s', module_close env p preload s = Ret 0%Z s' ∧
        ref_count_of s' p = Some 0%Z ∧
        g_module_head s' = g_module_head s ∧
        mods s' = mods s ∧ strs s' = strs s ∧
        registry s' = registry s ∧
        g_module_err s' = g_module_err s ∧
        trace s' =
          trace s ++ [EvErrorLog "module %s decrease refcont (%d)------\n"] ∧
        g_lock s' = Held ∧ s' ≠ s ∧
        (∀ env' file flag preload',
           module_open env' file flag preload' s' = Blocked) ∧
        (∀ env' preload', module_close env' p preload' s' = Blocked).
Proof.
  intros Hlk Hp Hm Hh Hr. eexists. split.
  { by eapply module_close_zero. }
  unfold ref_count_of, registry, walk_fuel. simpl. rewrite Hm. simpl.
  rewrite Hr. do 8 (split; [done|]). split; [|split].
  - intros Heq. apply (f_equal g_lock) in Heq. simpl in Heq. congruence.
  - intros. unfold module_open. munfold. done.
  - intros. unfold module_close. munfold.
    rewrite (is_null_false p Hp). mrew Hm. by rewrite (is_null_false _ Hh).
Qed.

Lemma C5_witness :
  ∃ s', module_close (CloseEnv None true) 10%N 1 closed_preload = Ret 0%Z s' ∧
        ref_count_of s' 10%N = Some 0%Z ∧
        mods s' = mods closed_preload ∧
        g_lock closed_preload = Released ∧ g_lock s' = Held ∧
        module_open (plain_env 30 40 200) "libB.so" 2 NULL s' = Blocked.
Proof.
  destruct (C5_close_at_zero_count (CloseEnv None true) 10%N 1 closed_preload
              (Module 20 0 300 NULL NULL NULL NULL))
    as (s' & H1 & H2 & _ & H3 & _ & _ & _ & _ & H4 & _ & H5 & _);
    [reflexivity|done|reflexivity|done|reflexivity|].
  exists s'. do 3 (split; [assumption|]). split; [reflexivity|].
  split; [assumption|]. apply H5.
Defined.

(** ** module_symbol *)

(** C9, as the code has it: [module_symbol] returns NULL at once, in the
    state it was given (the lock is not taken, so the call returns even while
    the lock is held, and the last error is not touched), when the entry is
    null, when its handle is null, or when the symbol name is null.
    Otherwise a lookup that fails returns NULL after [module_set_error] has
    freed the old message and stored what strdup answers for the loader's
    message: the last error is that message when the copy is made and NULL
    when it is not.  A lookup that succeeds returns the address found and
    leaves the last error as it was. *)
Theorem C9_module_symbol env p str s :
  (p = NULL ∨ (∃ m, mods s !! p = Some m ∧ handle m = NULL) ∨
   (is_Some (mods s !! p) ∧ str = None) →
   module_symbol env p str s = Ret NULL s) ∧
  (∀ m sym, g_lock s = Released → p ≠ NULL →
     mods s !! p = Some m → handle m ≠ NULL → str = Some sym →
     ∃ s', module_symbol env p str s =
             Ret (if snd (se_dlsym env) is Some _ then NULL else fst (se_dlsym env)) s' ∧
           g_module_err s' =
             (if snd (se_dlsym env) is Some e
              then (if se_copied env then Some e else None)
              else g_module_err s) ∧
           EvDlsym (handle m) sym ∈ trace s').
Proof.
  split; [apply module_symbol_rejects|].
  intros m sym Hlk Hp Hm Hh ->.
  rewrite (module_symbol_looks_up env p sym s m) by done.
  destruct (snd (se_dlsym env)) as [e|]; eexists; (split; [done|]); simpl.
  all: split; [done|]; apply elem_of_app; right; by left.
Qed.

Lemma C9_witness :
  module_symbol (SymbolEnv (700%N, None) true) NULL (Some "f") stuck_registry
    = Ret NULL stuck_registry ∧
  module_symbol (SymbolEnv (700%N, None) true) 10%N None stuck_registry
    = Ret NULL stuck_registry ∧
  (∃ s', module_symbol (SymbolEnv (NULL, Some "undefined symbol: f") true) 10%N
           (Some "f") one_entry = Ret NULL s' ∧
         g_module_err s' = Some "undefined symbol: f") ∧
  (∃ s', module_symbol (SymbolEnv (700%N, None) true) 10%N (Some "f")
           (with_err (Some "stale") one_entry) = Ret 700%N s' ∧
         g_module_err s' = Some "stale").
Proof.
  split; [|split; [|split]].
  - apply (C9_module_symbol (SymbolEnv (700%N, None) true) NULL (Some "f")
             stuck_registry).
    by left.
  - apply (C9_module_symbol (SymbolEnv (700%N, None) true) 10%N None
             stuck_registry).
    right. right. split; [|done]. by eexists.
  - destruct (proj2 (C9_module_symbol
                       (SymbolEnv (NULL, Some "undefined symbol: f") true)
                       10%N (Some "f") one_entry)
                (Module 20 1 100 NULL NULL NULL NULL) "f")
      as (s' & H1 & H2 & _); [reflexivity|done|reflexivity|done|done|].
    exists s'. auto.
  - destruct (proj2 (C9_module_symbol (SymbolEnv (700%N, None) true)
                       10%N (Some "f") (with_err (Some "stale") one_entry))
                (Module 20 1 100 NULL NULL NULL NULL) "f")
      as (s' & H1 & H2 & _); [reflexivity|done|reflexivity|done|done|].
    exists s'. auto.
Defined.

(** C9, as stated, fails: the lookup of "f" in "libA.so" fails, the loader
    leaves "undefined symbol: f" pending and strdup cannot copy it.
    [module_symbol] returns NULL and the last error, which held the message
    of an earlier failure, is NULL: the loader's error is not recorded. *)
Lemma C9_counterexample :
  ∃ s', module_symbol (SymbolEnv (NULL, Some "undefined symbol: f") false) 10%N
          (Some "f") two_entries_after_error = Ret NULL s' ∧
        module_error two_entries_after_error = Some "undefined symbol: g" ∧
        module_error s' = None ∧
        module_error s' ≠ Some "undefined symbol: f".
Proof.
  eexists. split; [vm_compute; reflexivity|]. by split.
Qed.

(** ** Closing a preloaded module *)

Lemma same_but_next_field {A} (f : module → A) h h' q :
  (∀ m, f (set_next NULL m) = f m) →
  same_but_next h h' → f <$> h' !! q = f <$> h !! q.
Proof.
  intros Hf Hs. specialize (Hs q).
  destruct (h !! q) as [m|], (h' !! q) as [m'|]; try done.
  simpl in *. f_equal.
  rewrite <- (Hf m), <- (Hf m'). f_equal. congruence.
Qed.



(** ** Teardown *)

Lemma is_list_delete h p l q : q ∉ l → is_list h p l → is_list (delete q h) p l.
Proof.
  intros Hq. apply is_list_agree. intros x Hx.
  rewrite lookup_delete_ne; [done|]. by intros <-.
Qed.

Lemma registry_after_unlink s' l p h' head' :
  mods s' = delete p h' ∨ mods s' = h' → g_module_head s' = head' →
  is_list h' head' (without p l) → registry s' = Some (without p l).
Proof.
  intros Hm <- Hl. apply registry_is_list. destruct Hm as [-> | ->]; [|done].
  apply is_list_delete; [apply not_elem_of_without|done].
Qed.

(** C6, as the code has it: when [module_close] with [preload] zero takes
    the count of an entry of the list from one to zero and [dlclose] leaves
    an error pending, the call returns -1 after [module_set_error] has freed
    the old message and stored what strdup answers for the loader's message:
    the last error is that message when the copy is made and NULL when it is
    not.  Either way the entry has left the list and its name string and its
    struct are freed. *)
Theorem C6_unload_failure_still_tears_down env p s m l x e :
  g_lock s = Released → registry s = Some l → p ∈ l →
  mods s !! p = Some m → handle m ≠ NULL → ref_count m = 1%Z →
  name m ≠ NULL → strs s !! name m = Some x →
  ce_dlclose env = Some e →
  ∃ s', module_close env p 0 s = Ret (-1)%Z s' ∧
        g_module_err s' = (if ce_copied env then Some e else None) ∧
        registry s' = Some (without p l) ∧ (p ∉ without p l) ∧
        strs s' !! name m = None ∧
        mods s' !! p = None ∧
        EvDlclose (handle m) ∈ trace s'.
Proof.
  intros Hlk Hl%registry_is_list Hin Hm Hh Hr Hnm Hx He.
  destruct (is_list_live _ _ _ _ Hl Hin) as [Hp _].
  destruct (module_close_last env p 0 s m l) as (head' & h' & Hs & Hlist & Heq);
    try done.
  rewrite He in Heq. simpl in Heq.
  eexists. split; [done|]. simpl. split; [done|]. split.
  { eapply registry_after_unlink; [by left|done|by apply Hlist]. }
  split; [apply not_elem_of_without|].
  rewrite !lookup_delete_eq. split; [done|]. split; [done|].
  apply elem_of_app. right. apply elem_of_cons. right.
  apply elem_of_app. right. by left.
Qed.

Lemma C6_witness :
  ∃ s', module_close (CloseEnv (Some "busy") true) 30%N 0 two_entries
          = Ret (-1)%Z s' ∧
        g_module_err s' = Some "busy" ∧
        registry s' = Some [10%N] ∧
        strs s' !! 40%N = None ∧ mods s' !! 30%N = None.
Proof.
  destruct (C6_unload_failure_still_tears_down (CloseEnv (Some "busy") true) 30%N
              two_entries (Module 40 1 200 NULL NULL NULL NULL) [10%N; 30%N]
              "libB.so" "busy")
    as (s' & H1 & H2 & H3 & _ & H4 & H5 & _);
    [reflexivity|vm_compute; reflexivity|by right; left|vm_compute; reflexivity
    |done|reflexivity|done|vm_compute; reflexivity|reflexivity|].
  exists s'. repeat (split; [assumption|]). assumption.
Defined.

(** C6, as stated, fails: the last holder of "libB.so" closes it, [dlclose]
    leaves "busy" pending and strdup cannot copy it.  [module_close] returns
    -1 and the entry is gone, but the last error, which held the message of
    an earlier failure, is NULL: the error of the unload is not recorded. *)
Lemma C6_counterexample :
  ∃ s', module_close (CloseEnv (Some "busy") false) 30%N 0
          two_entries_after_error = Ret (-1)%Z s' ∧
        module_error two_entries_after_error = Some "undefined symbol: g" ∧
        registry s' = Some [10%N] ∧
        module_error s' = None ∧
        module_error s' ≠ Some "busy".
Proof.
  eexists. split; [vm_compute; reflexivity|].
  split; [done|]. split; [vm_compute; reflexivity|]. by split.
Qed.

Lemma name_of_eq s s' q :
  name <$> mods s' !! q = name <$> mods s !! q → strs s' = strs s →
  name_of s' q = name_of s q.
Proof.
  unfold name_of. intros Hn ->.
  destruct (mods s !! q) as [m|], (mods s' !! q) as [m'|]; try done.
  simpl in *. by injection Hn as ->.
Qed.

Lemma name_field_set_ref_count (h : gmap N module) p m v q :
  h !! p = Some m →
  name <$> <[p := set_ref_count v m]> h !! q = name <$> h !! q.
Proof.
  intros Hm. destruct (decide (p = q)) as [<-|Hne].
  - by rewrite lookup_insert_eq, Hm.
  - by rewrite lookup_insert_ne.
Qed.

(** C7: when [module_close] with a nonzero [preload] takes the count of an
    entry of the list from one to zero, the entry leaves the list, and the
    search by name that [module_open] starts with no longer finds its name;
    its struct and its name string stay allocated, and [dlclose] is not
    called. *)
Theorem C7_preloaded_teardown_keeps_memory env p preload s m l x :
  g_lock s = Released → registry s = Some l → p ∈ l →
  mods s !! p = Some m → handle m ≠ NULL → ref_count m = 1%Z →
  preload ≠ 0%Z →
  strs s !! name m = Some x →
  (∀ q, q ∈ l → is_Some (name_of s q)) →
  (∀ q, q ∈ l → q ≠ p → name_of s q ≠ Some x) →
  ∃ s' evs,
    module_close env p preload s = Ret 0%Z s' ∧
    registry s' = Some (without p l) ∧ (p ∉ without p l) ∧
    module_find_with_name (g_module_head s') x s' = Ret NULL s' ∧
    (∃ m', mods s' !! p = Some m' ∧ name m' = name m ∧ handle m' = handle m) ∧
    strs s' !! name m = Some x ∧
    trace s' = trace s ++ evs ∧ (∀ h, EvDlclose h ∉ evs).
Proof.
  intros Hlk Hl%registry_is_list Hin Hm Hh Hr Hpre Hx Hnamed Huniq.
  destruct (is_list_live _ _ _ _ Hl Hin) as [Hp _].
  destruct (module_close_last env p preload s m l) as (head' & h' & Hs & Hlist & Heq);
    try done.
  rewrite (proj2 (Z.eqb_neq preload 0) Hpre) in Heq.
  specialize (Hlist Hin).
  eexists _, _. split; [done|]. simpl.
  assert (∀ q s1, mods s1 = h' → strs s1 = strs s → name_of s1 q = name_of s q) as Hnames.
  { intros q s1 Hm1 Hs1. apply name_of_eq; [|done]. rewrite Hm1.
    rewrite (same_but_next_field name _ _ q (λ _, eq_refl) Hs).
    by apply name_field_set_ref_count. }
  split; [by eapply registry_after_unlink; [right| |]|].
  split; [apply not_elem_of_without|]. split; [|split; [|split; [done|split]]].
  - match goal with |- module_find_with_name _ _ ?s1 = _ =>
      destruct (module_find_with_name_spec s1 (without p l) head' x)
        as (r & Hfind & [[-> _]|[[Hrl Hrp]%elem_of_without Hrn]]); try done
    end.
    + intros q [Hq _]%elem_of_without. rewrite Hnames by done. by apply Hnamed.
    + rewrite Hnames in Hrn by done. by destruct (Huniq r Hrl Hrp).
  - pose proof (same_but_next_field name _ _ p (λ _, eq_refl) Hs) as Hn.
    pose proof (same_but_next_field handle _ _ p (λ _, eq_refl) Hs) as Hhd.
    rewrite lookup_insert_eq in Hn, Hhd.
    destruct (h' !! p) as [m'|]; [|done]. simpl in *.
    exists m'. split; [done|]. split; congruence.
  - reflexivity.
  - intros h. unfold exit_events.
    destruct (is_null (exit m)); simpl; rewrite ?elem_of_cons, elem_of_nil;
      intros H; repeat destruct H as [H|H]; done.
Qed.

Lemma C7_witness :
  ∃ s', module_close (CloseEnv None true) 10%N 1 two_entries = Ret 0%Z s' ∧
        registry s' = Some [30%N] ∧
        module_find_with_name (g_module_head s') "libA.so" s' = Ret NULL s' ∧
        is_Some (mods s' !! 10%N) ∧ strs s' !! 20%N = Some "libA.so".
Proof.
  destruct (C7_preloaded_teardown_keeps_memory (CloseEnv None true) 10%N 1
              two_entries (Module 20 1 100 NULL NULL NULL 30) [10%N; 30%N]
              "libA.so")
    as (s' & evs & H1 & H2 & _ & H3 & (m' & H4 & _) & H5 & _);
    [reflexivity|vm_compute; reflexivity|by left|vm_compute; reflexivity
    |done|reflexivity|done|vm_compute; reflexivity| | |].
  - intros q [->|[->|[]%elem_of_nil]%elem_of_cons]%elem_of_cons;
      vm_compute; by eexists.
  - intros q [->|[->|[]%elem_of_nil]%elem_of_cons]%elem_of_cons Hq;
      [done|vm_compute; discriminate].
  - exists s'. split; [exact H1|]. split; [exact H2|]. split; [exact H3|].
    split; [by eexists|exact H5].
Defined.

(** ** A failing initializer *)

Lemma is_list_fresh h p l new : is_list h p l → h !! new = None → new ∉ l.
Proof.
  intros Hl Hnew Hin. destruct (is_list_live _ _ _ _ Hl Hin) as [_ [m Hm]].
  congruence.
Qed.

Lemma is_list_insert_fresh h p l new m :
  is_list h p l → h !! new = None → is_list (<[new := m]> h) p l.
Proof.
  intros Hl Hnew. eapply is_list_agree; [|done]. intros q Hq.
  rewrite lookup_insert_ne; [done|]. intros <-.
  by eapply is_list_fresh.
Qed.

(** The whole run of [module_open] when the initializer answers a nonzero
    status: the path is not registered, malloc succeeds, a handle is at hand
    and is not registered, [module_init] resolves. *)
Lemma module_open_init_fails env file flag preload s l :
  g_lock s = Released →
  is_list (mods s) (g_module_head s) l →
  (∀ q, q ∈ l → is_Some (name_of s q)) →
  (∀ q, q ∈ l → name_of s q ≠ Some file) →
  oe_malloc env ≠ NULL → mods s !! oe_malloc env = None →
  preload ≠ NULL ∨ snd (oe_dlopen env) = None →
  (∀ q, q ∈ l → handle_of s q ≠ Some (new_handle env preload)) →
  snd (oe_dlsym_init env) = None → fst (oe_dlsym_init env) ≠ NULL →
  oe_init_status env ≠ 0%Z →
  module_open env file flag preload s =
    Ret NULL
      (State (g_module_head s) (g_module_err s) Released (mods s) (strs s)
         (oe_dlclose env)
         (trace (loaded_state env file flag preload s) ++
            [EvDlsym (new_handle env preload) "module_init";
             EvErrorLog "module %s has init(), call the symbol\n";
             EvInit (fst (oe_dlsym_init env)) (oe_malloc env);
             EvErrorLog "module %s init() failed (%d)\n";
             EvDlclose (new_handle env preload)])).
Proof.
  intros Hlk Hl Hnamed Hfile Hnew Hfresh Hh Hhandles Herr Hfn Hst.
  rewrite (module_open_continues env file flag preload s l) by done.
  set (s1 := loaded_state env file flag preload s).
  assert (mods s1 !! oe_malloc env = Some (new_struct env preload)) as Hm1
    by apply lookup_insert_eq.
  assert (is_list (mods s1) (g_module_head s1) l) as Hl1
    by (by apply is_list_insert_fresh).
  pose proof (is_list_fresh _ _ _ _ Hl Hfresh) as Hnotin.
  destruct (open_by_handle_cases env file (oe_malloc env) s1 _ l Hl1 Hnew Hm1 Hnotin)
    as [(r & e & Hr & He & Hhe & _)|[_ ->]].
  - exfalso. apply (Hhandles r Hr). unfold handle_of.
    simpl in He. rewrite lookup_insert_ne in He by (by intros <-).
    rewrite He. simpl. by rewrite Hhe.
  - rewrite (open_init_fails env file (oe_malloc env) s1 _ Hnew Hm1) by done.
    f_equal. simpl. f_equal. by apply delete_insert_id.
Qed.

(** C4, as the code has it: when the initializer of a module answers a
    nonzero status, [module_open] returns NULL, the partly opened module is
    unwound ([dlclose] is called on its handle and its struct is freed, so
    that the structs and the strings are what they were), the list is what it
    was and the search by name still does not find the path.  The failure is
    reported through the error log and nowhere else: after the initializer
    the call makes the log "module %s init() failed (%d)" and [dlclose], and
    the last error is not written: it is what it was before the call. *)
Theorem C4_init_failure_unwinds env file flag preload s l :
  g_lock s = Released → registry s = Some l →
  (∀ q, q ∈ l → is_Some (name_of s q)) →
  (∀ q, q ∈ l → name_of s q ≠ Some file) →
  oe_malloc env ≠ NULL → mods s !! oe_malloc env = None →
  preload ≠ NULL ∨ snd (oe_dlopen env) = None →
  (∀ q, q ∈ l → handle_of s q ≠ Some (new_handle env preload)) →
  snd (oe_dlsym_init env) = None → fst (oe_dlsym_init env) ≠ NULL →
  oe_init_status env ≠ 0%Z →
  ∃ s', module_open env file flag preload s = Ret NULL s' ∧
        module_error s' = module_error s ∧
        EvInit (fst (oe_dlsym_init env)) (oe_malloc env) ∈ trace s' ∧
        EvDlclose (new_handle env preload) ∈ trace s' ∧
        mods s' = mods s ∧ strs s' = strs s ∧
        registry s' = Some l ∧
        (∀ q, q ∈ l → name_of s' q ≠ Some file) ∧
        module_find_with_name (g_module_head s') file s' = Ret NULL s' ∧
        EvErrorLog "module %s init() failed (%d)\n" ∈ trace s' ∧
        trace s' =
          trace s ++ (if is_null preload then [EvDlopen file flag] else [])
            ++ [EvDlsym (new_handle env preload) "module_init";
                EvErrorLog "module %s has init(), call the symbol\n";
                EvInit (fst (oe_dlsym_init env)) (oe_malloc env);
                EvErrorLog "module %s init() failed (%d)\n";
                EvDlclose (new_handle env preload)].
Proof.
  intros Hlk Hl%registry_is_list Hnamed Hfile Hnew Hfresh Hh Hhandles Herr Hfn Hst.
  eexists. split; [by eapply module_open_init_fails|]. simpl.
  split; [done|]. split.
  { apply elem_of_app. right. do 2 (apply elem_of_cons; right). by left. }
  split.
  { apply elem_of_app. right. do 4 (apply elem_of_cons; right). by left. }
  split; [done|]. split; [done|]. split; [by apply registry_is_list|].
  split; [done|]. split.
  { match goal with |- module_find_with_name _ _ ?s1 = _ =>
      destruct (module_find_with_name_spec s1 l (g_module_head s) file)
        as (r & Hfind & [[-> _]|[Hrl Hrn]]); try done
    end.
    by destruct (Hfile r Hrl). }
  split.
  { apply elem_of_app. right. do 3 (apply elem_of_cons; right). by left. }
  destruct (is_null preload); [by rewrite <- app_assoc|done].
Qed.

Lemma C4_witness :
  ∃ s', module_open (failing_init_env 30 40 200) "libB.so" 2 NULL one_entry
          = Ret NULL s' ∧
        module_error s' = None ∧ registry s' = Some [10%N] ∧
        mods s' = mods one_entry ∧
        EvErrorLog "module %s init() failed (%d)\n" ∈ trace s'.
Proof.
  destruct (C4_init_failure_unwinds (failing_init_env 30 40 200) "libB.so" 2 NULL
              one_entry [10%N])
    as (s' & H1 & H2 & _ & _ & H3 & _ & H4 & _ & _ & H5 & _);
    [reflexivity|reflexivity| | |done|reflexivity|by right| |reflexivity|done|done|].
  - intros q ->%list_elem_of_singleton. by eexists.
  - by intros q ->%list_elem_of_singleton.
  - by intros q ->%list_elem_of_singleton.
  - exists s'. auto.
Defined.

(** C4, as stated, fails: the initializer of "libB.so" is called and
    answers 3, [module_open] returns NULL, and the last error, empty before
    the call, is still empty: nothing reports the failure there. *)
Lemma C4_counterexample :
  ∃ s', module_open (failing_init_env 10 20 100) "libB.so" 2 NULL empty_registry
          = Ret NULL s' ∧
        oe_init_status (failing_init_env 10 20 100) = 3%Z ∧
        EvInit 500%N 10%N ∈ trace s' ∧
        module_error empty_registry = None ∧
        module_error s' = None.
Proof.
  eexists. split; [vm_compute; reflexivity|].
  split; [done|]. split; [|done].
  simpl. do 3 (apply elem_of_cons; right). by left.
Qed.

(** C8: when the initializer fails, the unwinding of [module_open] ends with
    [dlclose] on the handle of the new struct, whichever way the handle
    came: it is the same label [free_handle] after a [dlopen] and after a
    preload.  With a preload handle that handle is the caller's, and [dlopen]
    was not called. *)
Theorem C8_init_failure_closes_preload_handle env file flag preload s l :
  g_lock s = Released → registry s = Some l →
  (∀ q, q ∈ l → is_Some (name_of s q)) →
  (∀ q, q ∈ l → name_of s q ≠ Some file) →
  oe_malloc env ≠ NULL → mods s !! oe_malloc env = None →
  preload ≠ NULL ∨ snd (oe_dlopen env) = None →
  (∀ q, q ∈ l → handle_of s q ≠ Some (new_handle env preload)) →
  snd (oe_dlsym_init env) = None → fst (oe_dlsym_init env) ≠ NULL →
  oe_init_status env ≠ 0%Z →
  ∃ s' evs,
    module_open env file flag preload s = Ret NULL s' ∧
    trace s' = trace s ++ evs ++ [EvDlclose (new_handle env preload)] ∧
    (preload ≠ NULL →
     new_handle env preload = preload ∧ ∀ f fl, EvDlopen f fl ∉ evs).
Proof.
  intros Hlk Hl%registry_is_list Hnamed Hfile Hnew Hfresh Hh Hhandles Herr Hfn Hst.
  exists (State (g_module_head s) (g_module_err s) Released (mods s) (strs s)
            (oe_dlclose env)
            (trace (loaded_state env file flag preload s) ++
               [EvDlsym (new_handle env preload) "module_init";
                EvErrorLog "module %s has init(), call the symbol\n";
                EvInit (fst (oe_dlsym_init env)) (oe_malloc env);
                EvErrorLog "module %s init() failed (%d)\n";
                EvDlclose (new_handle env preload)])),
         ((if is_null preload then [EvDlopen file flag] else []) ++
            [EvDlsym (new_handle env preload) "module_init";
             EvErrorLog "module %s has init(), call the symbol\n";
             EvInit (fst (oe_dlsym_init env)) (oe_malloc env);
             EvErrorLog "module %s init() failed (%d)\n"]).
  split; [by eapply module_open_init_fails|]. split.
  - simpl. destruct (is_null preload); simpl; by rewrite <- ?app_assoc.
  - intros Hpre. unfold new_handle. rewrite (is_null_false _ Hpre).
    split; [done|]. intros f fl Hin. simpl in Hin.
    repeat (apply elem_of_cons in Hin as [Hin|Hin]; [done|]).
    by apply elem_of_nil in Hin.
Qed.

Lemma C8_witness :
  ∃ s', module_open (failing_init_env 30 40 0) "libB.so" 2 300%N one_entry
          = Ret NULL s' ∧
        EvDlclose 300%N ∈ trace s'.
Proof.
  destruct (C8_init_failure_closes_preload_handle (failing_init_env 30 40 0)
              "libB.so" 2 300%N one_entry [10%N])
    as (s' & evs & H1 & H2 & _);
    [reflexivity|reflexivity| | |done|reflexivity|by left| |reflexivity|done|done|].
  - intros q ->%list_elem_of_singleton. by eexists.
  - by intros q ->%list_elem_of_singleton.
  - by intros q ->%list_elem_of_singleton.
  - exists s'. split; [exact H1|]. rewrite H2.
    apply elem_of_app. right. apply elem_of_app. right.
    apply elem_of_cons. by left.
Defined.

(** ** Every run of module_open *)

Lemma init_cases env :
  (snd (oe_dlsym_init env) = None ∧ fst (oe_dlsym_init env) = NULL) ∨
  (snd (oe_dlsym_init env) = None ∧ fst (oe_dlsym_init env) ≠ NULL ∧
   oe_init_status env ≠ 0%Z) ∨
  init_passes env.
Proof.
  unfold init_passes. destruct (snd (oe_dlsym_init env)) as [e|]; [by eauto|].
  destruct (decide (fst (oe_dlsym_init env) = NULL)); [by eauto|].
  destruct (decide (oe_init_status env = 0%Z)); eauto 6.
Qed.

Lemma mods_fresh_swap (h : gmap N module) new r x y :
  h !! new = None → r ≠ new →
  delete new (<[r := x]> (<[new := y]> h)) = <[r := x]> h.
Proof.
  intros Hnew Hne. rewrite delete_insert_ne by done.
  by rewrite delete_insert_id.
Qed.

(** On a registry with a well-formed list of named entries, with the lock
    released and fresh addresses from malloc, [module_open] ends in one of
    the ways of [open_outcome]. *)
Lemma module_open_outcome env file flag preload s l :
  g_lock s = Released →
  is_list (mods s) (g_module_head s) l →
  (∀ q, q ∈ l → is_Some (name_of s q)) →
  mods s !! oe_malloc env = None →
  open_outcome env file flag preload s l (module_open env file flag preload s).
Proof.
  intros Hlk Hl Hnamed Hfresh.
  destruct (module_find_with_name_spec s l (g_module_head s) file Hl Hnamed)
    as (r0 & _ & [[_ Hfile]|[Hr0 Hrn0]]).
  2:{ destruct (module_open_by_name env file flag preload s l)
        as (r & e & Hr & Hrn & He & ->); try done; [by eauto|].
      by eapply open_found_name. }
  destruct (decide (oe_malloc env = NULL)) as [Hnull|Hnew].
  { rewrite (module_open_no_memory env file flag preload s l) by done.
    by apply open_no_memory. }
  assert ((preload = NULL ∧ ∃ e, snd (oe_dlopen env) = Some e) ∨
          (preload ≠ NULL ∨ snd (oe_dlopen env) = None)) as [[-> [e Herr]]|Hh].
  { destruct (decide (preload = NULL)); [|by eauto].
    destruct (snd (oe_dlopen env)); eauto. }
  { rewrite (module_open_load_fails env file flag s l e) by done.
    rewrite delete_id by done. by apply open_load_failed. }
  rewrite (module_open_continues env file flag preload s l) by done.
  set (s1 := loaded_state env file flag preload s).
  set (m1 := new_struct env preload).
  assert (mods s1 !! oe_malloc env = Some m1) as Hm1 by apply lookup_insert_eq.
  assert (is_list (mods s1) (g_module_head s1) l) as Hl1
    by (by apply is_list_insert_fresh).
  pose proof (is_list_fresh _ _ _ _ Hl Hfresh) as Hnotin.
  assert (∀ q, q ∈ l → mods s1 !! q = mods s !! q) as Hsame.
  { intros q Hq. simpl. rewrite lookup_insert_ne; [done|]. by intros <-. }
  destruct (open_by_handle_cases env file (oe_malloc env) s1 m1 l Hl1 Hnew Hm1 Hnotin)
    as [(r & e & Hr & He & Hhe & ->)|[Hnone ->]].
  { rewrite Hsame in He by done. simpl.
    rewrite mods_fresh_swap by (done || by intros ->).
    by eapply open_found_handle. }
  assert (∀ q, q ∈ l → handle_of s q ≠ Some (new_handle env preload)) as Hhandles.
  { intros q Hq. specialize (Hnone q Hq). unfold handle_of in *.
    by rewrite Hsame in Hnone. }
  destruct (init_cases env) as [[Herr Hfn]|[(Herr & Hfn & Hst)|Hpass]].
  - rewrite (open_init_faults env file (oe_malloc env) s1 m1) by done.
    by apply open_init_null.
  - rewrite (open_init_fails env file (oe_malloc env) s1 m1) by done.
    simpl. rewrite delete_insert_id by done.
    exact (open_init_failed env file flag preload s l Hfile Hhandles Herr Hst).
  - destruct (decide (oe_strdup env = NULL)) as [Hdup|Hdup].
    + rewrite (open_init_no_name env file (oe_malloc env) s1 m1) by done.
      simpl. rewrite delete_insert_id by done.
      exact (open_no_name env file flag preload s l Hfile Hhandles Hpass Hdup).
    + destruct (open_init_links env file (oe_malloc env) s1 m1 l)
        as (head' & h' & Hlist & Hsbn & ->); try done.
      simpl in Hsbn. rewrite mods_insert_insert in Hsbn.
      exact (open_linked env file flag preload s l head' h'
               Hfile Hhandles Hpass Hnew Hdup Hlist Hsbn).
Qed.

(** ** The invariant of the registry *)

Lemma fmap_ext_elem {A B} (f g : A → B) (l : list A) :
  (∀ x, x ∈ l → f x = g x) → f <$> l = g <$> l.
Proof.
  intros H. apply list_fmap_ext. intros i x Hx. apply H.
  by eapply list_elem_of_lookup_2.
Qed.

Lemma NoDup_fmap_without {B} (f : N → B) p l :
  NoDup (f <$> l) → NoDup (f <$> without p l).
Proof.
  induction l as [|x l IH]; [done|].
  rewrite fmap_cons. intros [Hx Hl]%NoDup_cons. unfold without in *.
  rewrite filter_cons. destruct (decide (x ≠ p)); [|by apply IH].
  rewrite fmap_cons. apply NoDup_cons. split; [|by apply IH].
  intros (y & Hy & [_ Hin]%list_elem_of_filter)%list_elem_of_fmap.
  apply Hx. apply list_elem_of_fmap. eauto.
Qed.

Lemma registry_inv_empty : registry_inv empty_registry [].
Proof.
  split; try done; try (simpl; constructor).
  intros q Hq. by apply elem_of_nil in Hq.
Qed.

(** The invariant reads the head, the structs and the strings only. *)
Lemma registry_inv_same s s' l :
  g_module_head s' = g_module_head s → mods s' = mods s → strs s' = strs s →
  registry_inv s l → registry_inv s' l.
Proof.
  intros Hh Hm Hs [].
  assert (name_of s' = name_of s) as Hn by (unfold name_of; by rewrite Hm, Hs).
  assert (handle_of s' = handle_of s) as Hhd by (unfold handle_of; by rewrite Hm).
  assert (ref_count_of s' = ref_count_of s) as Hr by (unfold ref_count_of; by rewrite Hm).
  split; rewrite ?Hh, ?Hm, ?Hs, ?Hn, ?Hhd, ?Hr; done.
Qed.

(** An entry of the list gets another count. *)
Lemma registry_inv_recount s s' l r e c :
  registry_inv s l → r ∈ l → mods s !! r = Some e →
  g_module_head s' = g_module_head s →
  mods s' = <[r := set_ref_count c e]> (mods s) → strs s' = strs s →
  registry_inv s' l.
Proof.
  intros [] Hr He Hh Hm Hs.
  assert (r ≠ NULL) as Hrn by (by eapply is_list_live).
  assert (∀ q, name_of s' q = name_of s q) as Hn.
  { intros q. apply name_of_eq; [|done]. rewrite Hm.
    by apply name_field_set_ref_count. }
  assert (∀ q, handle_of s' q = handle_of s q) as Hhd.
  { intros q. unfold handle_of. rewrite Hm.
    destruct (decide (r = q)) as [<-|Hne].
    - by rewrite lookup_insert_eq, He.
    - by rewrite lookup_insert_ne. }
  assert (∀ q, q ≠ r → ref_count_of s' q = ref_count_of s q) as Hrc.
  { intros q Hq. unfold ref_count_of. rewrite Hm. by rewrite lookup_insert_ne. }
  assert (ref_count_of s' r = Some c) as Hrr.
  { unfold ref_count_of. rewrite Hm. by rewrite lookup_insert_eq. }
  split.
  - rewrite Hh, Hm. by apply is_list_set_ref_count.
  - rewrite Hm. by rewrite lookup_insert_ne.
  - by rewrite Hs.
  - intros q Hq. rewrite Hn. auto.
  - by rewrite (fmap_ext_elem (name_of s') (name_of s)).
  - by rewrite (fmap_ext_elem (handle_of s') (handle_of s)).
  - intros q c' Hq Hc'. rewrite Hrc in Hc' by (by intros ->). eauto.
Qed.

Lemma name_of_via s q :
  name_of s q = (name <$> mods s !! q) ≫= (λ np, strs s !! np).
Proof. unfold name_of. by destruct (mods s !! q). Qed.

Lemma NoDup_fmap_elem {B} (f : N → B) l p q :
  NoDup (f <$> l) → p ∈ l → q ∈ l → f p = f q → p = q.
Proof.
  induction l as [|x l IH]; [by intros _ ?%elem_of_nil|].
  rewrite fmap_cons. intros [Hx Hl]%NoDup_cons Hp Hq Heq.
  apply elem_of_cons in Hp as [->|Hp], Hq as [->|Hq]; try done.
  - exfalso. apply Hx. rewrite Heq. apply list_elem_of_fmap. eauto.
  - exfalso. apply Hx. rewrite <- Heq. apply list_elem_of_fmap. eauto.
  - by apply IH.
Qed.

(** A new entry, with a fresh struct, a fresh name string, and a name and
    a handle that no entry has, joins the list. *)
Lemma registry_inv_link s s' l new entry file head' h' :
  registry_inv s l →
  new ≠ NULL → mods s !! new = None →
  name entry ≠ NULL → strs s !! name entry = None →
  (∀ q, q ∈ l → name_of s q ≠ Some file) →
  (∀ q, q ∈ l → handle_of s q ≠ Some (handle entry)) →
  is_list h' head' (l ++ [new]) →
  same_but_next (<[new := entry]> (mods s)) h' →
  g_module_head s' = head' → mods s' = h' →
  strs s' = <[name entry := file]> (strs s) →
  registry_inv s' (l ++ [new]).
Proof.
  intros [] Hnew Hfresh Hnm Hsfresh Hfile Hhandles Hlist Hsbn Hh Hm Hs.
  assert (new ∉ l) as Hnotin by (by eapply is_list_fresh).
  assert (∀ {A} (f : module → A), (∀ m, f (set_next NULL m) = f m) →
            ∀ q, q ≠ new → f <$> mods s' !! q = f <$> mods s !! q) as Hview.
  { intros A f Hf q Hq. rewrite Hm, (same_but_next_field f _ _ q Hf Hsbn).
    by rewrite lookup_insert_ne. }
  assert (∀ {A} (f : module → A), (∀ m, f (set_next NULL m) = f m) →
            f <$> mods s' !! new = Some (f entry)) as Hview_new.
  { intros A f Hf. rewrite Hm, (same_but_next_field f _ _ new Hf Hsbn).
    by rewrite lookup_insert_eq. }
  assert (∀ q, q ∈ l → name_of s' q = name_of s q) as Hn.
  { intros q Hq. rewrite !name_of_via, (Hview _ name) by (done || by intros ->).
    destruct (inv_named0 q Hq) as [x Hx]. rewrite name_of_via in Hx.
    destruct (name <$> mods s !! q) as [np|]; [|done]. simpl in *.
    rewrite Hs, lookup_insert_ne; [done|]. intros <-. congruence. }
  assert (name_of s' new = Some file) as Hn_new.
  { rewrite name_of_via, (Hview_new _ name) by done. simpl.
    by rewrite Hs, lookup_insert_eq. }
  assert (∀ q, q ∈ l → handle_of s' q = handle_of s q) as Hhd.
  { intros q Hq. apply (Hview _ handle); [done|by intros ->]. }
  assert (∀ q, q ≠ new → ref_count_of s' q = ref_count_of s q) as Hr.
  { intros q Hq. by apply (Hview _ ref_count). }
  split.
  - by rewrite Hh, Hm.
  - rewrite Hm. eapply same_but_next_None; [done|]. by rewrite lookup_insert_ne.
  - rewrite Hs. by rewrite lookup_insert_ne.
  - intros q [Hq| ->%list_elem_of_singleton]%elem_of_app.
    + rewrite Hn by done. auto.
    + by rewrite Hn_new.
  - rewrite fmap_app. simpl. rewrite Hn_new.
    rewrite (fmap_ext_elem (name_of s') (name_of s)) by done.
    apply NoDup_app. split; [done|]. split; [|apply NoDup_singleton].
    intros y (q & -> & Hq)%list_elem_of_fmap Hy%list_elem_of_singleton.
    by apply (Hfile q).
  - rewrite fmap_app. simpl.
    rewrite (fmap_ext_elem (handle_of s') (handle_of s)) by done.
    unfold handle_of at 2. rewrite (Hview_new _ handle) by done.
    apply NoDup_app. split; [done|]. split; [|apply NoDup_singleton].
    intros y (q & -> & Hq)%list_elem_of_fmap Hy%list_elem_of_singleton.
    by apply (Hhandles q).
  - intros q c [Hq Hqn%not_elem_of_cons]%not_elem_of_app Hc.
    rewrite Hr in Hc by tauto. eauto.
Qed.

(** An entry with one holder leaves the list; its struct and its name
    string are kept, with a count of zero, or both freed. *)
Lemma registry_inv_unlink s s' l p m head' h' :
  registry_inv s l → p ∈ l → mods s !! p = Some m →
  same_but_next (<[p := set_ref_count 0 m]> (mods s)) h' →
  is_list h' head' (without p l) →
  g_module_head s' = head' →
  (mods s' = h' ∧ strs s' = strs s) ∨
  (mods s' = delete p h' ∧ strs s' = delete (name m) (strs s)) →
  registry_inv s' (without p l).
Proof.
  intros [] Hp Hmp Hsbn Hlist Hh Hcase.
  destruct (is_list_live _ _ _ p inv_list0 Hp) as [Hpn _].
  assert (∀ {A} (f : module → A), (∀ m, f (set_next NULL m) = f m) →
            ∀ q, q ≠ p → f <$> mods s' !! q = f <$> mods s !! q) as Hview.
  { intros A f Hf q Hq.
    assert (f <$> h' !! q = f <$> mods s !! q) as <-.
    { rewrite (same_but_next_field f _ _ q Hf Hsbn). by rewrite lookup_insert_ne. }
    destruct Hcase as [[-> _]|[-> _]]; [done|]. by rewrite lookup_delete_ne. }
  assert (∀ q, q ∈ l → q ≠ p → name_of s' q = name_of s q) as Hn.
  { intros q Hq Hqp. rewrite !name_of_via, (Hview _ name) by done.
    destruct (name <$> mods s !! q) as [np|] eqn:Hnp; [|done]. simpl.
    destruct Hcase as [[_ ->]|[_ ->]]; [done|].
    rewrite lookup_delete_ne; [done|]. intros <-.
    apply Hqp. apply (NoDup_fmap_elem (name_of s) l); try done.
    rewrite !name_of_via, Hnp, Hmp. done. }
  assert (∀ q, q ≠ p → handle_of s' q = handle_of s q) as Hhd.
  { intros q Hq. by apply (Hview _ handle). }
  assert (∀ q, q ≠ p → ref_count_of s' q = ref_count_of s q) as Hr.
  { intros q Hq. by apply (Hview _ ref_count). }
  split.
  - rewrite Hh. destruct Hcase as [[-> _]|[-> _]]; [done|].
    apply is_list_delete; [apply not_elem_of_without|done].
  - assert (h' !! NULL = None) as Hnull.
    { eapply same_but_next_None; [done|]. by rewrite lookup_insert_ne. }
    destruct Hcase as [[-> _]|[-> _]]; [done|]. by rewrite lookup_delete_ne.
  - destruct Hcase as [[_ ->]|[_ ->]]; [done|].
    destruct (decide (name m = NULL)) as [->|?];
      [by rewrite lookup_delete_eq|by rewrite lookup_delete_ne].
  - intros q [Hq Hqp]%elem_of_without. rewrite Hn by done. auto.
  - rewrite (fmap_ext_elem (name_of s') (name_of s)).
    + by apply NoDup_fmap_without.
    + intros q [Hq Hqp]%elem_of_without. by apply Hn.
  - rewrite (fmap_ext_elem (handle_of s') (handle_of s)).
    + by apply NoDup_fmap_without.
    + intros q [Hq Hqp]%elem_of_without. by apply Hhd.
  - intros q c Hq Hc. destruct (decide (q = p)) as [->|Hqp].
    + unfold ref_count_of in Hc. destruct Hcase as [[Hm' _]|[Hm' _]]; rewrite Hm' in Hc.
      * rewrite (same_but_next_field ref_count _ _ p (λ _, eq_refl) Hsbn) in Hc.
        rewrite lookup_insert_eq in Hc. by injection Hc as <-.
      * by rewrite lookup_delete_eq in Hc.
    + rewrite Hr in Hc by done. apply (inv_unlinked0 q c); [|done].
      intros Hin. apply Hq. by apply elem_of_without.
Qed.

(** ** While the lock is held *)

Lemma module_open_blocked env file flag preload s :
  g_lock s = Held → module_open env file flag preload s = Blocked.
Proof. intros H. unfold module_open. munfold. by rewrite H. Qed.

Lemma module_close_blocked env p preload s m :
  g_lock s = Held → p ≠ NULL → mods s !! p = Some m → handle m ≠ NULL →
  module_close env p preload s = Blocked.
Proof.
  intros H Hp%is_null_false Hm Hh%is_null_false. unfold module_close. munfold.
  mrun ltac:(first [rewrite Hp | rewrite Hm | rewrite Hh | rewrite H]). done.
Qed.

Lemma module_symbol_blocked env p str s m :
  g_lock s = Held → p ≠ NULL → mods s !! p = Some m → handle m ≠ NULL →
  module_symbol env p (Some str) s = Blocked.
Proof.
  intros H Hp%is_null_false Hm Hh%is_null_false. unfold module_symbol. munfold.
  mrun ltac:(first [rewrite Hp | rewrite Hm | rewrite Hh | rewrite H]). done.
Qed.

(** ** Every call keeps the invariant *)

Lemma linked_entry_fields env m :
  name (linked_entry env m) = oe_strdup env ∧
  ref_count (linked_entry env m) = ref_count m ∧
  handle (linked_entry env m) = handle m.
Proof.
  unfold linked_entry, after_init. by destruct (snd (oe_dlsym_init env)).
Qed.

Lemma module_open_inv env file flag preload s l r s' :
  registry_inv s l → env_fresh env s →
  module_open env file flag preload s = Ret r s' →
  ∃ l', registry_inv s' l'.
Proof.
  intros Hinv [Hfresh Hsfresh] Heq.
  destruct (g_lock s) eqn:Hlk;
    [|by rewrite module_open_blocked in Heq].
  pose proof (module_open_outcome env file flag preload s l Hlk
                (inv_list _ _ Hinv) (inv_named _ _ Hinv) Hfresh) as Hout.
  rewrite Heq in Hout. inversion Hout; subst; clear Hout.
  - exists l.
    by eapply (registry_inv_recount s _ l r e (int_incr (ref_count e))).
  - by exists l.
  - exists l. by apply (registry_inv_same s).
  - exists l.
    by eapply (registry_inv_recount s _ l r e (int_incr (ref_count e))).
  - exists l. by apply (registry_inv_same s).
  - exists l. by apply (registry_inv_same s).
  - exists (l ++ [oe_malloc env]).
    destruct (linked_entry_fields env (new_struct env preload)) as (Hn & Hr & Hh).
    eapply (registry_inv_link s _ l (oe_malloc env)
              (linked_entry env (new_struct env preload)) file);
      rewrite ?Hn, ?Hh; try done.
Qed.

Lemma module_close_inv env p preload s l r s' :
  registry_inv s l → valid_arg s p →
  module_close env p preload s = Ret r s' →
  ∃ l', registry_inv s' l'.
Proof.
  intros Hinv [->|[m Hm]] Heq.
  { rewrite module_close_null in Heq. injection Heq as _ <-. by exists l. }
  assert (p ≠ NULL) as Hp.
  { intros ->. pose proof (inv_null_mods _ _ Hinv). congruence. }
  destruct (decide (handle m = NULL)) as [Hh|Hh].
  { rewrite (module_close_no_handle env p preload s m) in Heq by done.
    injection Heq as _ <-. by exists l. }
  destruct (g_lock s) eqn:Hlk;
    [|by rewrite (module_close_blocked env p preload s m) in Heq].
  destruct (decide (ref_count m = 0%Z)) as [H0|H0].
  { rewrite (module_close_zero env p preload s m) in Heq by done.
    injection Heq as _ <-. exists l. by apply (registry_inv_same s). }
  assert (p ∈ l) as Hin.
  { destruct (decide (p ∈ l)) as [|Hnotin]; [done|]. exfalso. apply H0.
    apply (inv_unlinked _ _ Hinv p); [done|]. unfold ref_count_of. by rewrite Hm. }
  destruct (decide (ref_count m = 1%Z)) as [H1|H1].
  - destruct (inv_named _ _ Hinv p Hin) as [x Hx].
    unfold name_of in Hx. rewrite Hm in Hx. simpl in Hx.
    assert (name m ≠ NULL) as Hnm.
    { intros Hz. rewrite Hz in Hx. pose proof (inv_null_strs _ _ Hinv). congruence. }
    destruct (module_close_last env p preload s m l)
      as (head' & h' & Hs & Hlist & Heq'); try done; [by apply (inv_list _ _ Hinv)|].
    rewrite Heq' in Heq. exists (without p l).
    destruct (preload =? 0)%Z; injection Heq as _ <-.
    + eapply (registry_inv_unlink s _ l p m head' h'); eauto.
    + eapply (registry_inv_unlink s _ l p m head' h'); eauto.
  - rewrite (module_close_decrement env p preload s m) in Heq by done.
    injection Heq as _ <-. exists l.
    by eapply (registry_inv_recount s _ l p m (int_decr (ref_count m))).
Qed.

Lemma module_symbol_inv env p str s l r s' :
  registry_inv s l → valid_arg s p →
  module_symbol env p str s = Ret r s' →
  ∃ l', registry_inv s' l'.
Proof.
  intros Hinv Hvalid Heq. exists l.
  assert (p = NULL ∨ (∃ m, mods s !! p = Some m ∧ handle m = NULL) ∨
          (is_Some (mods s !! p) ∧ str = None) ∨
          (∃ m x, p ≠ NULL ∧ mods s !! p = Some m ∧ handle m ≠ NULL ∧ str = Some x))
    as [H|[H|[H|(m & x & Hp & Hm & Hh & ->)]]].
  { destruct Hvalid as [->|[m Hm]]; [by left|].
    destruct (decide (p = NULL)); [by left|].
    destruct (decide (handle m = NULL)); [by eauto|].
    destruct str; [|by eauto 6]. right. right. right. by eauto 8. }
  1-3: rewrite module_symbol_rejects in Heq by eauto; by injection Heq as _ <-.
  destruct (g_lock s) eqn:Hlk;
    [|by rewrite (module_symbol_blocked env p x s m) in Heq].
  rewrite (module_symbol_looks_up env p x s m) in Heq by done.
  destruct (snd (se_dlsym env)); injection Heq as _ <-; by apply (registry_inv_same s).
Qed.

Lemma step_inv s s' :
  (∃ l, registry_inv s l) → step s s' → ∃ l', registry_inv s' l'.
Proof.
  intros [l Hinv] [env file flag preload r Hfresh Heq
                  |env p preload r Hvalid Heq
                  |env p str r Hvalid Heq].
  - by eapply module_open_inv.
  - by eapply module_close_inv.
  - by eapply module_symbol_inv.
Qed.

Lemma reachable_inv s : reachable s → ∃ l, registry_inv s l.
Proof.
  induction 1 as [|s s' _ IH Hstep].
  - exists []. apply registry_inv_empty.
  - by eapply step_inv.
Qed.

(** ** One entry per name and per handle *)

Lemma mapM_all_Some {A B} (f : A → option B) (l : list A) :
  (∀ x, x ∈ l → is_Some (f x)) →
  ∃ k, mapM f l = Some k ∧ f <$> l = Some <$> k.
Proof.
  induction l as [|x l IH]; intros H.
  - by exists [].
  - destruct (H x ltac:(left)) as [y Hy].
    destruct IH as (k & Hk & Hfk). { intros z Hz. apply H. by right. }
    exists (y :: k). rewrite !fmap_cons, <- Hfk, Hy. split; [|done].
    simpl. rewrite Hy. simpl. by rewrite Hk.
Qed.

Lemma registry_inv_names s l :
  registry_inv s l → ∃ ns, entry_names s = Some ns ∧ NoDup ns.
Proof.
  intros Hinv.
  destruct (mapM_all_Some (name_of s) l (inv_named _ _ Hinv)) as (ns & Hns & Heq).
  exists ns. split.
  - unfold entry_names. rewrite (proj2 (registry_is_list s l) (inv_list _ _ Hinv)).
    done.
  - apply (NoDup_fmap_1 Some). rewrite <- Heq. apply (inv_names _ _ Hinv).
Qed.

Lemma registry_inv_handles s l :
  registry_inv s l → ∃ hs, entry_handles s = Some hs ∧ NoDup hs.
Proof.
  intros Hinv.
  destruct (mapM_all_Some (handle_of s) l) as (hs & Hhs & Heq).
  { intros q Hq. destruct (is_list_live _ _ _ _ (inv_list _ _ Hinv) Hq) as [_ [m Hm]].
    unfold handle_of. rewrite Hm. by eexists. }
  exists hs. split.
  - unfold entry_handles. rewrite (proj2 (registry_is_list s l) (inv_list _ _ Hinv)).
    done.
  - apply (NoDup_fmap_1 Some). rewrite <- Heq. apply (inv_handles _ _ Hinv).
Qed.

(** C3: in every registry reached from the empty one by calls of
    [module_open], [module_close] and [module_symbol] that return, the list
    is well formed, its entries have names and handles, no two entries have
    the same name string and no two the same handle. *)
Theorem C3_one_entry_per_name_and_handle s :
  reachable s →
  ∃ l ns hs,
    registry s = Some l ∧
    entry_names s = Some ns ∧ NoDup ns ∧
    entry_handles s = Some hs ∧ NoDup hs.
Proof.
  intros (l & Hinv)%reachable_inv.
  destruct (registry_inv_names s l Hinv) as (ns & Hns & Hnd).
  destruct (registry_inv_handles s l Hinv) as (hs & Hhs & Hhd).
  exists l, ns, hs. split; [|done].
  apply registry_is_list, (inv_list _ _ Hinv).
Qed.

Lemma C3_witness :
  ∃ l ns hs,
    registry two_entries = Some l ∧ length l = 2 ∧
    entry_names two_entries = Some ns ∧ NoDup ns ∧
    entry_handles two_entries = Some hs ∧ NoDup hs.
Proof.
  destruct (C3_one_entry_per_name_and_handle two_entries)
    as (l & ns & hs & H1 & H2 & H3 & H4 & H5).
  - apply (reachable_step one_entry).
    + apply (reachable_step empty_registry); [apply reachable_empty|].
      apply (step_open _ _ (plain_env 10 20 100) "libA.so" 2%Z NULL 10%N);
        [split; vm_compute; reflexivity|vm_compute; reflexivity].
    + apply (step_open _ _ (plain_env 30 40 200) "libB.so" 2%Z NULL 30%N);
        [split; vm_compute; reflexivity|vm_compute; reflexivity].
  - exists l, ns, hs.
    assert (registry two_entries = Some [10%N; 30%N]) as Hl
      by (vm_compute; reflexivity).
    split; [exact H1|]. split; [|exact (conj H2 (conj H3 (conj H4 H5)))].
    rewrite Hl in H1. injection H1 as <-. reflexivity.
Defined.

(** ** The scenario of two opens and two closes *)

(** The first [module_open] of a path on the empty registry, when it
    succeeds, leaves one entry with one holder, the handle that [dlopen]
    returned and a name string that holds the path. *)
Lemma module_open_first env file flags E1 s1 :
  module_open env file flags NULL empty_registry = Ret E1 s1 → E1 ≠ NULL →
  ∃ m1, mods s1 !! E1 = Some m1 ∧
        ref_count m1 = 1%Z ∧ handle m1 = fst (oe_dlopen env) ∧
        name m1 ≠ NULL ∧ strs s1 !! name m1 = Some file ∧
        is_list (mods s1) (g_module_head s1) [E1] ∧
        g_lock s1 = Released.
Proof.
  intros Heq HE1.
  assert (open_outcome env file flags NULL empty_registry []
            (module_open env file flags NULL empty_registry)) as Hout.
  { apply module_open_outcome; try done. intros q Hq. by apply elem_of_nil in Hq. }
  rewrite Heq in Hout. inversion Hout; subst; clear Hout; try done.
  match goal with H : same_but_next _ _ |- _ => rename H into Hsbn end.
  match goal with H : is_list _ _ _ |- _ => rename H into Hlist end.
  destruct (linked_entry_fields env (new_struct env NULL)) as (Hn & Hr & Hh).
  destruct (same_but_next_lookup _ _ (oe_malloc env) _ Hsbn (lookup_insert_eq _ _ _))
    as (m1 & Hm1 & Hfields).
  exists m1. simpl.
  assert (name m1 = oe_strdup env) as Hn1.
  { rewrite <- Hn. by apply (f_equal name) in Hfields. }
  assert (ref_count m1 = ref_count (linked_entry env (new_struct env NULL))) as Hr1
    by (by apply (f_equal ref_count) in Hfields).
  assert (handle m1 = handle (linked_entry env (new_struct env NULL))) as Hh1
    by (by apply (f_equal handle) in Hfields).
  split; [done|]. split; [by rewrite Hr1, Hr|]. split; [by rewrite Hh1, Hh|].
  rewrite Hn1. split; [done|]. split; [by rewrite lookup_insert_eq|]. done.
Qed.

(** C1: on the empty registry, when [module_open("libA.so", flags, NULL)]
    succeeds with the entry [E1], the entry has one holder.  A second
    [module_open] of the same path returns [E1] again, now with two holders,
    and calls nothing but the log: there is no new load.  [module_close(E1,
    0)] then returns 1 and [E1] is still in the list.  A second
    [module_close(E1, 0)] calls [dlclose] on the handle of the library,
    returns 0 and leaves the list empty and the struct freed.  The loader is
    one that loads and unloads: [dlopen] returned a handle and [dlclose]
    left no error pending. *)
Theorem C1_open_twice_close_twice env1 env2 cenv1 cenv2 flags E1 s1 :
  module_open env1 "libA.so" flags NULL empty_registry = Ret E1 s1 →
  E1 ≠ NULL →
  fst (oe_dlopen env1) ≠ NULL →
  ce_dlclose cenv2 = None →
  (ref_count_of s1 E1 = Some 1%Z ∧ registry s1 = Some [E1]) ∧
  ∃ s2 s3 s4 evs,
    (module_open env2 "libA.so" flags NULL s1 = Ret E1 s2 ∧
     ref_count_of s2 E1 = Some 2%Z ∧
     trace s2 = trace s1 ++ [EvErrorLog "found opened module %s\n"]) ∧
    (module_close cenv1 E1 0 s2 = Ret 1%Z s3 ∧
     registry s3 = Some [E1]) ∧
    (module_close cenv2 E1 0 s3 = Ret 0%Z s4 ∧
     registry s4 = Some [] ∧ mods s4 !! E1 = None ∧
     trace s4 = trace s3 ++ evs ∧
     EvDlclose (fst (oe_dlopen env1)) ∈ evs).
Proof.
  intros Heq HE1 Hhandle Hunload.
  destruct (module_open_first env1 "libA.so" flags E1 s1 Heq HE1)
    as (m1 & Hm1 & Hr1 & Hh1 & Hn1 & Hs1 & Hl1 & Hlk1).
  split.
  { split; [unfold ref_count_of; by rewrite Hm1, <- Hr1|by apply registry_is_list]. }
  (* the second open *)
  destruct (module_open_by_name env2 "libA.so" flags NULL s1 [E1])
    as (r & e & ->%list_elem_of_singleton & _ & He & Hopen2); try done.
  { intros q ->%list_elem_of_singleton. unfold name_of. rewrite Hm1. by eexists. }
  { exists E1. split; [by left|]. unfold name_of. by rewrite Hm1. }
  rewrite Hm1 in He. injection He as <-. rewrite Hr1 in Hopen2.
  change (1 + 1)%Z with 2%Z in Hopen2.
  set (m2 := set_ref_count 2 m1) in *.
  match type of Hopen2 with _ = Ret _ ?s => set (s2 := s) in * end.
  assert (is_list (mods s2) (g_module_head s2) [E1]) as Hl2
    by (by apply is_list_set_ref_count).
  (* the first close *)
  assert (handle m2 ≠ NULL) as Hh2 by (simpl; by rewrite Hh1).
  pose proof (module_close_decrement cenv1 E1 0 s2 m2 eq_refl HE1
                (lookup_insert_eq _ _ _) Hh2 ltac:(done) ltac:(done)) as Hclose1.
  change (ref_count m2 - 1)%Z with 1%Z in Hclose1.
  set (m3 := set_ref_count 1 m2) in *.
  match type of Hclose1 with _ = Ret _ ?s => set (s3 := s) in * end.
  assert (is_list (mods s3) (g_module_head s3) [E1]) as Hl3.
  { apply is_list_set_ref_count; [apply lookup_insert_eq|done]. }
  (* the second close *)
  destruct (module_close_last cenv2 E1 0 s3 m3 [E1])
    as (head' & h' & Hs & Hlist & Hclose2); try done.
  { apply lookup_insert_eq. }
  rewrite Hunload in Hclose2. simpl in Hclose2.
  specialize (Hlist ltac:(by left)).
  assert (without E1 [E1] = []) as Hnil.
  { unfold without. by rewrite filter_cons_False, filter_nil by (by intros ?). }
  rewrite Hnil in Hlist.
  eexists s2, s3, _, _. split; [|split].
  - split; [done|]. split; [|done].
    unfold ref_count_of. simpl. by rewrite lookup_insert_eq.
  - split; [done|]. by apply registry_is_list.
  - split; [done|]. simpl. split.
    { apply registry_is_list. exact Hlist. }
    split; [by rewrite lookup_delete_eq|]. split; [reflexivity|].
    rewrite <- Hh1. apply elem_of_cons. right. apply elem_of_app. right.
    apply elem_of_cons. by left.
Qed.

Lemma C1_witness :
  ∃ s2 s3 s4,
    module_open (plain_env 30 40 200) "libA.so" 2 NULL one_entry = Ret 10%N s2 ∧
    ref_count_of s2 10%N = Some 2%Z ∧
    module_close (CloseEnv None true) 10%N 0 s2 = Ret 1%Z s3 ∧
    registry s3 = Some [10%N] ∧
    module_close (CloseEnv None true) 10%N 0 s3 = Ret 0%Z s4 ∧
    registry s4 = Some [] ∧
    EvDlclose 100%N ∈ trace s4.
Proof.
  destruct (C1_open_twice_close_twice (plain_env 10 20 100) (plain_env 30 40 200)
              (CloseEnv None true) (CloseEnv None true) 2 10%N one_entry)
    as (_ & s2 & s3 & s4 & evs & (H1 & H2 & _) & (H3 & H4) & (H5 & H6 & _ & H7 & H8));
    [vm_compute; reflexivity|done|done|reflexivity|].
  exists s2, s3, s4.
  repeat (split; [assumption|]).
  rewrite H7. apply elem_of_app. by right.
Defined.

(** ** Which returns release the lock *)

Lemma bind_Ret {A B} (c : M A) (k : A → M B) s b s' :
  (c ≫= k) s = Ret b s' → ∃ a s1, c s = Ret a s1 ∧ k a s1 = Ret b s'.
Proof.
  unfold mbind, M_bind, bind. destruct (c s) as [a s1| | |]; [|done..]. eauto.
Qed.

Lemma releases_bind {A B} (c : M A) (k : A → M B) :
  (∀ a, releases (k a)) → releases (c ≫= k).
Proof. intros Hk s b s' (a & s1 & _ & H)%bind_Ret. by eapply Hk. Qed.

Lemma releases_unlock {A} (x : A) : releases (pthread_mutex_unlock;; mret x).
Proof. intros s a s' H. munfold. by injection H as _ <-. Qed.

Lemma releases_open_free_new new : releases (open_free_new new).
Proof. unfold open_free_new. apply releases_bind. intros _. apply releases_unlock. Qed.

Lemma releases_open_free_handle env new : releases (open_free_handle env new).
Proof.
  unfold open_free_handle. do 2 (apply releases_bind; intros ?).
  apply releases_open_free_new.
Qed.

Ltac releases_step :=
  first [ apply releases_unlock
        | apply releases_open_free_new
        | apply releases_open_free_handle
        | apply releases_bind; intros ?
        | match goal with
          | |- releases (if ?b then _ else _) => destruct b
          | |- releases (match ?o with Some _ => _ | None => _ end) => destruct o
          end ].

Lemma releases_open_init env file new : releases (open_init env file new).
Proof. unfold open_init. repeat releases_step. Qed.

Lemma releases_open_by_handle env file new : releases (open_by_handle env file new).
Proof.
  unfold open_by_handle.
  repeat first [apply releases_open_init | releases_step].
Qed.

(** [module_open] releases the lock on every path on which it returns. *)
Lemma module_open_releases_lock env file flag preload :
  releases (module_open env file flag preload).
Proof.
  unfold module_open.
  repeat first [apply releases_open_by_handle | releases_step].
Qed.

(** So does [module_symbol] when it takes it; its early returns do not
    touch it. *)
Lemma module_symbol_releases_lock env p str s r s' :
  g_lock s = Released → module_symbol env p str s = Ret r s' →
  g_lock s' = Released.
Proof.
  intros Hlk. unfold module_symbol.
  destruct (is_null p); [munfold; by intros [= _ <-]|].
  intros (m & s1 & H1 & H2)%bind_Ret.
  assert (s1 = s) as ->.
  { munfold. destruct (mods s !! p); [|done]. by injection H1. }
  destruct (is_null (handle m)); [munfold; by injection H2 as _ <-|].
  destruct str as [str|]; [|munfold; by injection H2 as _ <-].
  revert H2. generalize s r s'. change (releases
    (pthread_mutex_lock;; dlerror;; m0 ← load p;
     symbol ← dlsym (se_dlsym env) (handle m0) str; dlerr ← dlerror;
     symbol0 ← (if dlerr is Some e
                then omx_errorLog "not founded symbol %s in module %s (%s)\n";;
                     module_set_error (se_copied env) (Some e);; mret NULL
                else omx_verboseLog "found symbol %s in module %s";; mret symbol);
     pthread_mutex_unlock;; mret symbol0)).
  repeat releases_step.
Qed.

(** [module_close] returns with the lock held on one path only: the guard on
    a count that is zero. *)
Lemma module_close_lock_held env p preload s r s' :
  g_lock s = Released → module_close env p preload s = Ret r s' →
  g_lock s' = Held →
  ∃ m, mods s !! p = Some m ∧ ref_count m = 0%Z.
Proof.
  intros Hlk Heq Hheld. unfold module_close in Heq.
  destruct (is_null p); [munfold; injection Heq as _ <-; congruence|].
  apply bind_Ret in Heq as (m & s1 & H1 & H2).
  assert (s1 = s ∧ mods s !! p = Some m) as [-> Hm].
  { munfold. destruct (mods s !! p); [|done]. by injection H1 as -> ->. }
  destruct (is_null (handle m)); [munfold; injection H2 as _ <-; congruence|].
  apply bind_Ret in H2 as ([] & s2 & H2 & H3).
  assert (s2 = with_lock Held s) as ->.
  { munfold. rewrite Hlk in H2. by injection H2. }
  apply bind_Ret in H3 as (m' & s3 & H3 & H4).
  assert (s3 = with_lock Held s ∧ m' = m) as [-> ->].
  { munfold. msimpl. rewrite Hm in H3. by injection H3 as -> ->. }
  destruct (Z.eqb_spec (ref_count m) 0) as [H0|H0]; [by eauto|].
  exfalso. revert H4 Hheld. generalize (with_lock Held s). intros s4 H4 Hheld.
  assert (g_lock s' = Released); [|congruence].
  revert H4. generalize s4 r s'.
  match goal with |- ∀ s a s', ?c s = Ret a s' → _ => change (releases c) end.
  repeat releases_step.
Qed.

(** C2, on the code: [module_close] on an entry whose count is zero returns
    with [g_lock] held.  The entry is the one left allocated by closing a
    preloaded module; after the call every operation on the registry waits
    for the lock for ever. *)
Theorem C2_module_close_leaves_lock_held :
  ∃ s,
    reachable closed_preload ∧
    module_close (CloseEnv None true) 10%N 1 closed_preload = Ret 0%Z s ∧
    g_lock closed_preload = Released ∧
    g_lock s = Held ∧
    (∀ env file flag preload, module_open env file flag preload s = Blocked) ∧
    (∀ env, module_close env 10%N 1 s = Blocked) ∧
    (∀ env, module_symbol env 10%N (Some "f") s = Blocked).
Proof.
  eexists. split.
  { eapply reachable_step.
    - eapply reachable_step; [apply reachable_empty|].
      apply (step_open _ _ (plain_env 10 20 0) "libP.so" 0%Z 300%N 10%N);
        [split; vm_compute; reflexivity|vm_compute; reflexivity].
    - apply (step_close _ _ (CloseEnv None true) 10%N 1%Z 0%Z);
        [right; vm_compute; by eexists|vm_compute; reflexivity]. }
  split; [vm_compute; reflexivity|].
  split; [reflexivity|]. split; [reflexivity|].
  split; [|split]; reflexivity.
Qed.

(** * Further properties of the operations *)

(** ** The lock, operation by operation *)

(** X1: whenever [module_open] returns, on whichever path and whatever the
    state it was called in, [g_lock] is released. *)
Theorem X1_module_open_returns_unlocked env file flag preload s r s' :
  module_open env file flag preload s = Ret r s' → g_lock s' = Released.
Proof. apply module_open_releases_lock. Qed.

Lemma X1_witness :
  ∃ r s', module_open (failing_init_env 30 40 200) "libB.so" 2 NULL one_entry
            = Ret r s' ∧ g_lock s' = Released.
Proof.
  eexists _, _. split; [vm_compute; reflexivity|].
  eapply (X1_module_open_returns_unlocked (failing_init_env 30 40 200)
            "libB.so" 2 NULL one_entry).
  vm_compute. reflexivity.
Defined.

(** X2: [module_symbol] called with the lock released returns with the lock
    released, whether it rejects its arguments, finds the symbol or fails to
    find it. *)
Theorem X2_module_symbol_returns_unlocked env p str s r s' :
  g_lock s = Released → module_symbol env p str s = Ret r s' →
  g_lock s' = Released.
Proof. apply module_symbol_releases_lock. Qed.

Lemma X2_witness :
  ∃ r s', module_symbol (SymbolEnv (NULL, Some "undefined symbol: f") true) 10%N
            (Some "f") one_entry = Ret r s' ∧ g_lock s' = Released.
Proof.
  eexists _, _. split; [vm_compute; reflexivity|].
  eapply (X2_module_symbol_returns_unlocked
            (SymbolEnv (NULL, Some "undefined symbol: f") true) 10%N (Some "f")
            one_entry); [reflexivity|].
  vm_compute. reflexivity.
Defined.

(** X3: [module_close] called with the lock released on a struct whose count
    is not zero returns with the lock released: the count that is zero is
    the only way to leave the lock held. *)
Theorem X3_module_close_returns_unlocked env p preload s m r s' :
  g_lock s = Released → mods s !! p = Some m → ref_count m ≠ 0%Z →
  module_close env p preload s = Ret r s' →
  g_lock s' = Released.
Proof.
  intros Hlk Hm Hr Heq. destruct (g_lock s') eqn:Hlk'; [done|].
  destruct (module_close_lock_held env p preload s r s' Hlk Heq Hlk')
    as (m' & Hm' & H0).
  congruence.
Qed.

Lemma X3_witness :
  ∃ r s', module_close (CloseEnv (Some "busy") true) 30%N 0 two_entries = Ret r s' ∧
          g_lock s' = Released.
Proof.
  eexists _, _. split; [vm_compute; reflexivity|].
  eapply (X3_module_close_returns_unlocked (CloseEnv (Some "busy") true) 30%N 0
            two_entries (Module 40 1 200 NULL NULL NULL NULL));
    [reflexivity|vm_compute; reflexivity|done|vm_compute; reflexivity].
Defined.

(** ** module_open when no entry is made *)

(** X4: when [dlopen] leaves an error pending, [module_open] returns NULL
    after [module_set_error] has freed the old message and stored what
    strdup answers for the loader's message: the last error is that message
    when the copy is made and NULL when it is not.  The new struct is freed,
    so that the list, the structs and the strings are what they were, and
    after [dlopen] only the error log is called: no symbol is resolved and
    [dlclose] is not called. *)
Theorem X4_load_failure env file flag s l e :
  g_lock s = Released → registry s = Some l →
  (∀ q, q ∈ l → is_Some (name_of s q)) →
  (∀ q, q ∈ l → name_of s q ≠ Some file) →
  oe_malloc env ≠ NULL → mods s !! oe_malloc env = None →
  snd (oe_dlopen env) = Some e →
  ∃ s', module_open env file flag NULL s = Ret NULL s' ∧
        module_error s' = (if oe_copied env then Some e else None) ∧
        g_module_head s' = g_module_head s ∧
        mods s' = mods s ∧ strs s' = strs s ∧
        registry s' = Some l ∧
        trace s' =
          trace s ++ [EvDlopen file flag; EvErrorLog "dlopen failed (%s)\n"].
Proof.
  intros Hlk Hl Hnamed Hfile Hnew Hfresh Herr.
  pose proof (proj1 (registry_is_list s l) Hl) as Hlist.
  eexists. split; [by eapply module_open_load_fails|].
  simpl. rewrite delete_id by done.
  do 4 (split; [done|]). split; [|done].
  by apply registry_is_list.
Qed.

Lemma X4_witness :
  (∃ s', module_open
           (OpenEnv 30 sample_junk (NULL, Some "libB.so: cannot open")
              (NULL, None) 0 NULL (NULL, None) 40 None true)
           "libB.so" 2 NULL one_entry = Ret NULL s' ∧
         module_error s' = Some "libB.so: cannot open" ∧
         mods s' = mods one_entry) ∧
  (∃ s', module_open
           (OpenEnv 30 sample_junk (NULL, Some "libB.so: cannot open")
              (NULL, None) 0 NULL (NULL, None) 40 None false)
           "libB.so" 2 NULL (with_err (Some "stale") one_entry) = Ret NULL s' ∧
         module_error s' = None).
Proof.
  split.
  - destruct (X4_load_failure
                (OpenEnv 30 sample_junk (NULL, Some "libB.so: cannot open")
                   (NULL, None) 0 NULL (NULL, None) 40 None true)
                "libB.so" 2 one_entry [10%N] "libB.so: cannot open")
      as (s' & H1 & H2 & _ & H3 & _);
      [reflexivity|reflexivity| | |done|reflexivity|reflexivity|].
    + intros q ->%list_elem_of_singleton. by eexists.
    + by intros q ->%list_elem_of_singleton.
    + exists s'. auto.
  - destruct (X4_load_failure
                (OpenEnv 30 sample_junk (NULL, Some "libB.so: cannot open")
                   (NULL, None) 0 NULL (NULL, None) 40 None false)
                "libB.so" 2 (with_err (Some "stale") one_entry) [10%N]
                "libB.so: cannot open")
      as (s' & H1 & H2 & _);
      [reflexivity|reflexivity| | |done|reflexivity|reflexivity|].
    + intros q ->%list_elem_of_singleton. by eexists.
    + by intros q ->%list_elem_of_singleton.
    + exists s'. auto.
Defined.

(** X5: when the path is not registered and malloc fails, [module_open]
    returns NULL and nothing else has happened: the state, the last error
    and the trace included, is the one before the call; the loader is not
    asked anything. *)
Theorem X5_no_memory env file flag preload s l :
  g_lock s = Released → registry s = Some l →
  (∀ q, q ∈ l → is_Some (name_of s q)) →
  (∀ q, q ∈ l → name_of s q ≠ Some file) →
  oe_malloc env = NULL →
  module_open env file flag preload s = Ret NULL s.
Proof.
  intros Hlk Hl%registry_is_list Hnamed Hfile Hnew.
  by eapply module_open_no_memory.
Qed.

Lemma X5_witness :
  module_open (plain_env 0 40 200) "libB.so" 2 NULL one_entry
    = Ret NULL one_entry.
Proof.
  apply (X5_no_memory (plain_env 0 40 200) "libB.so" 2 NULL one_entry [10%N]);
    [reflexivity|reflexivity| | |reflexivity].
  - intros q ->%list_elem_of_singleton. by eexists.
  - by intros q ->%list_elem_of_singleton.
Defined.

(** The run of [module_open] up to the initializer: the path is not
    registered, malloc succeeds, a handle is at hand and no entry has it. *)
Lemma module_open_reaches_init env file flag preload s l :
  g_lock s = Released →
  is_list (mods s) (g_module_head s) l →
  (∀ q, q ∈ l → is_Some (name_of s q)) →
  (∀ q, q ∈ l → name_of s q ≠ Some file) →
  oe_malloc env ≠ NULL → mods s !! oe_malloc env = None →
  preload ≠ NULL ∨ snd (oe_dlopen env) = None →
  (∀ q, q ∈ l → handle_of s q ≠ Some (new_handle env preload)) →
  module_open env file flag preload s =
    open_init env file (oe_malloc env) (loaded_state env file flag preload s).
Proof.
  intros Hlk Hl Hnamed Hfile Hnew Hfresh Hh Hhandles.
  rewrite (module_open_continues env file flag preload s l) by done.
  set (s1 := loaded_state env file flag preload s).
  assert (mods s1 !! oe_malloc env = Some (new_struct env preload)) as Hm1
    by apply lookup_insert_eq.
  assert (is_list (mods s1) (g_module_head s1) l) as Hl1
    by (by apply is_list_insert_fresh).
  pose proof (is_list_fresh _ _ _ _ Hl Hfresh) as Hnotin.
  destruct (open_by_handle_cases env file (oe_malloc env) s1 _ l Hl1 Hnew Hm1 Hnotin)
    as [(r & e & Hr & He & Hhe & _)|[_ ->]]; [|done].
  exfalso. apply (Hhandles r Hr). unfold handle_of.
  simpl in He. rewrite lookup_insert_ne in He by (by intros <-).
  rewrite He. simpl. by rewrite Hhe.
Qed.

(** The run of [module_open] that finds the handle in the list. *)
Lemma module_open_by_handle env file flag preload s l r e :
  g_lock s = Released →
  is_list (mods s) (g_module_head s) l →
  (∀ q, q ∈ l → is_Some (name_of s q)) →
  (∀ q, q ∈ l → name_of s q ≠ Some file) →
  oe_malloc env ≠ NULL → mods s !! oe_malloc env = None →
  preload ≠ NULL ∨ snd (oe_dlopen env) = None →
  r ∈ l → mods s !! r = Some e → handle e = new_handle env preload →
  (∀ q, q ∈ l → handle_of s q = Some (new_handle env preload) → q = r) →
  module_open env file flag preload s =
    Ret r (State (g_module_head s) (g_module_err s) Released
             (<[r := set_ref_count (int_incr (ref_count e)) e]> (mods s))
             (strs s) None
             (trace (loaded_state env file flag preload s) ++
                [EvErrorLog "found opened module %s\n"])).
Proof.
  intros Hlk Hl Hnamed Hfile Hnew Hfresh Hh Hr He Hhe Huniq.
  rewrite (module_open_continues env file flag preload s l) by done.
  set (s1 := loaded_state env file flag preload s).
  assert (mods s1 !! oe_malloc env = Some (new_struct env preload)) as Hm1
    by apply lookup_insert_eq.
  assert (is_list (mods s1) (g_module_head s1) l) as Hl1
    by (by apply is_list_insert_fresh).
  pose proof (is_list_fresh _ _ _ _ Hl Hfresh) as Hnotin.
  assert (∀ q, q ∈ l → mods s1 !! q = mods s !! q) as Hsame.
  { intros q Hq. simpl. rewrite lookup_insert_ne; [done|]. by intros <-. }
  destruct (open_by_handle_cases env file (oe_malloc env) s1 _ l Hl1 Hnew Hm1 Hnotin)
    as [(r0 & e0 & Hr0 & He0 & Hhe0 & ->)|[Hnone _]].
  - rewrite Hsame in He0 by done.
    assert (r0 = r) as ->.
    { apply Huniq; [done|]. unfold handle_of. rewrite He0. simpl. by rewrite Hhe0. }
    rewrite He in He0. injection He0 as <-.
    simpl. rewrite mods_fresh_swap by (done || by intros ->). done.
  - exfalso. apply (Hnone r Hr). unfold handle_of. rewrite Hsame by done.
    rewrite He. simpl. by rewrite Hhe.
Qed.

Lemma views_set_ref_count s s' r e c :
  mods s !! r = Some e →
  mods s' = <[r := set_ref_count c e]> (mods s) → strs s' = strs s →
  (∀ q, name_of s' q = name_of s q) ∧
  (∀ q, handle_of s' q = handle_of s q) ∧
  (∀ q, q ≠ r → ref_count_of s' q = ref_count_of s q) ∧
  ref_count_of s' r = Some c.
Proof.
  intros He Hm Hs. split; [|split; [|split]].
  - intros q. apply name_of_eq; [|done]. rewrite Hm.
    by apply name_field_set_ref_count.
  - intros q. unfold handle_of. rewrite Hm.
    destruct (decide (r = q)) as [<-|Hne].
    + by rewrite lookup_insert_eq, He.
    + by rewrite lookup_insert_ne.
  - intros q Hq. unfold ref_count_of. rewrite Hm. by rewrite lookup_insert_ne.
  - unfold ref_count_of. rewrite Hm. by rewrite lookup_insert_eq.
Qed.

(** ** A path that resolves to a loaded library *)

(** X6: when the path is not registered but the handle at hand (the preload
    handle, or the one [dlopen] returns) is the handle of an entry of the
    list, [module_open] returns that entry with its count incremented as an
    [int] is (one more holder, unless the count was [INT_MAX]).  The struct
    it had allocated is freed and the list is what it was; no entry changes
    its name, so the path stays unregistered; the last error is not written
    and [dlclose] is not called, although [dlopen] was when there was no
    preload handle. *)
Theorem X6_open_finds_handle env file flag preload s l r e :
  g_lock s = Released → registry s = Some l →
  (∀ q, q ∈ l → is_Some (name_of s q)) →
  (∀ q, q ∈ l → name_of s q ≠ Some file) →
  oe_malloc env ≠ NULL → mods s !! oe_malloc env = None →
  preload ≠ NULL ∨ snd (oe_dlopen env) = None →
  r ∈ l → mods s !! r = Some e → handle e = new_handle env preload →
  (∀ q, q ∈ l → handle_of s q = Some (new_handle env preload) → q = r) →
  ∃ s', module_open env file flag preload s = Ret r s' ∧
        ref_count_of s' r = Some (int_incr (ref_count e)) ∧
        registry s' = Some l ∧
        mods s' !! oe_malloc env = None ∧
        strs s' = strs s ∧
        (∀ q, q ∈ l → name_of s' q ≠ Some file) ∧
        module_error s' = module_error s ∧
        trace s' =
          trace s ++ (if is_null preload then [EvDlopen file flag] else [])
                  ++ [EvErrorLog "found opened module %s\n"].
Proof.
  intros Hlk Hl%registry_is_list Hnamed Hfile Hnew Hfresh Hh Hr He Hhe Huniq.
  eexists. split; [by eapply module_open_by_handle|].
  match goal with |- context [ref_count_of ?s1] =>
    destruct (views_set_ref_count s s1 r e (int_incr (ref_count e)) He eq_refl eq_refl)
      as (Hn & _ & _ & Hrc)
  end.
  split; [done|]. split.
  { apply registry_is_list. simpl. by apply is_list_set_ref_count. }
  split.
  { simpl. rewrite lookup_insert_ne; [done|]. intros ->.
    by apply (is_list_fresh _ _ _ _ Hl Hfresh). }
  split; [done|]. split.
  { intros q Hq. rewrite Hn. by apply Hfile. }
  split; [done|].
  simpl. destruct (is_null preload); by rewrite <- ?app_assoc.
Qed.

Lemma X6_witness :
  ∃ s', module_open (plain_env 50 60 100) "./libA.so" 2 NULL two_entries
          = Ret 10%N s' ∧
        ref_count_of s' 10%N = Some 2%Z ∧
        registry s' = Some [10%N; 30%N] ∧
        mods s' !! 50%N = None.
Proof.
  destruct (X6_open_finds_handle (plain_env 50 60 100) "./libA.so" 2 NULL
              two_entries [10%N; 30%N] 10%N (Module 20 1 100 NULL NULL NULL 30))
    as (s' & H1 & H2 & H3 & H4 & _);
    [reflexivity|vm_compute; reflexivity| | |done|vm_compute; reflexivity
    |by right|by left|vm_compute; reflexivity|reflexivity| |].
  - intros q [->|[->|[]%elem_of_nil]%elem_of_cons]%elem_of_cons;
      vm_compute; by eexists.
  - intros q [->|[->|[]%elem_of_nil]%elem_of_cons]%elem_of_cons;
      vm_compute; discriminate.
  - intros q [->|[->|[]%elem_of_nil]%elem_of_cons]%elem_of_cons;
      [done|vm_compute; discriminate].
  - exists s'. auto.
Defined.

(** What a new entry and the entries before it look like once the new
    struct is linked. *)
Lemma views_link s s' (l : list N) new entry file h' :
  (∀ q, q ∈ l → is_Some (name_of s q)) → new ∉ l →
  strs s !! name entry = None →
  same_but_next (<[new := entry]> (mods s)) h' →
  mods s' = h' → strs s' = <[name entry := file]> (strs s) →
  (∀ q, q ∈ l → name_of s' q = name_of s q ∧ handle_of s' q = handle_of s q ∧
                ref_count_of s' q = ref_count_of s q) ∧
  name_of s' new = Some file ∧
  handle_of s' new = Some (handle entry) ∧
  ref_count_of s' new = Some (ref_count entry).
Proof.
  intros Hnamed Hnotin Hsfresh Hsbn Hm Hs.
  assert (∀ {A} (f : module → A), (∀ m, f (set_next NULL m) = f m) →
            ∀ q, q ≠ new → f <$> mods s' !! q = f <$> mods s !! q) as Hview.
  { intros A f Hf q Hq. rewrite Hm, (same_but_next_field f _ _ q Hf Hsbn).
    by rewrite lookup_insert_ne. }
  assert (∀ {A} (f : module → A), (∀ m, f (set_next NULL m) = f m) →
            f <$> mods s' !! new = Some (f entry)) as Hview_new.
  { intros A f Hf. rewrite Hm, (same_but_next_field f _ _ new Hf Hsbn).
    by rewrite lookup_insert_eq. }
  split; [|split; [|split]].
  - intros q Hq. assert (q ≠ new) as Hne by (by intros ->).
    split; [|split].
    + rewrite !name_of_via, (Hview _ name) by done.
      destruct (Hnamed q Hq) as [x Hx]. rewrite name_of_via in Hx.
      destruct (name <$> mods s !! q) as [np|]; [|done]. simpl in *.
      rewrite Hs, lookup_insert_ne; [done|]. intros <-. congruence.
    + by apply (Hview _ handle).
    + by apply (Hview _ ref_count).
  - rewrite name_of_via, (Hview_new _ name) by done. simpl.
    by rewrite Hs, lookup_insert_eq.
  - by apply (Hview_new _ handle).
  - by apply (Hview_new _ ref_count).
Qed.

(** X7: when [strdup] of the path fails, [module_open] returns NULL after
    calling the finalizer it has just resolved, if there is one, and then
    [dlclose] on the handle; the struct is freed, so that the list, the
    structs and the strings are what they were, and the last error is not
    written. *)
Theorem X7_name_allocation_failure env file flag preload s l :
  g_lock s = Released → registry s = Some l →
  (∀ q, q ∈ l → is_Some (name_of s q)) →
  (∀ q, q ∈ l → name_of s q ≠ Some file) →
  oe_malloc env ≠ NULL → mods s !! oe_malloc env = None →
  preload ≠ NULL ∨ snd (oe_dlopen env) = None →
  (∀ q, q ∈ l → handle_of s q ≠ Some (new_handle env preload)) →
  init_passes env → oe_strdup env = NULL →
  ∃ s' evs,
    module_open env file flag preload s = Ret NULL s' ∧
    g_module_head s' = g_module_head s ∧
    mods s' = mods s ∧ strs s' = strs s ∧ registry s' = Some l ∧
    module_error s' = module_error s ∧
    trace s' =
      trace s ++ evs
        ++ (if is_null (resolved_exit env) then []
            else [EvExit (resolved_exit env) (oe_malloc env)])
        ++ [EvDlclose (new_handle env preload)] ∧
    (∀ fn p, EvExit fn p ∉ evs) ∧ (∀ h, EvDlclose h ∉ evs).
Proof.
  intros Hlk Hl Hnamed Hfile Hnew Hfresh Hh Hhandles Hpass Hdup.
  pose proof (proj1 (registry_is_list s l) Hl) as Hlist.
  rewrite (module_open_reaches_init env file flag preload s l) by done.
  rewrite (open_init_no_name env file (oe_malloc env) _ (new_struct env preload))
    by (done || apply lookup_insert_eq).
  eexists _, ((if is_null preload then [EvDlopen file flag] else [])
                ++ init_events env (new_struct env preload) (oe_malloc env)
                ++ [EvDlsym (new_handle env preload) "module_exit"]).
  split; [done|]. simpl. rewrite delete_insert_id by done.
  do 5 (split; [done|]). split.
  { unfold exit_events. simpl.
    destruct (is_null preload); simpl; by rewrite <- ?app_assoc. }
  assert (∀ (evs : list event),
            Forall (λ e, match e with EvExit _ _ | EvDlclose _ => False
                         | _ => True end) evs →
            (∀ fn p, EvExit fn p ∉ evs) ∧ (∀ h, EvDlclose h ∉ evs)) as Hno.
  { intros evs Hall. rewrite Forall_forall in Hall.
    split; [intros fn p Hin|intros h Hin]; by apply (Hall _ Hin). }
  apply Hno. unfold init_events.
  destruct (is_null preload), (snd (oe_dlsym_init env)); by repeat constructor.
Qed.

Lemma X7_witness :
  ∃ s', module_open
          (OpenEnv 30 sample_junk (200%N, None) (NULL, Some "no module_init") 0
             NULL (600%N, None) NULL None true)
          "libB.so" 2 NULL one_entry = Ret NULL s' ∧
        mods s' = mods one_entry ∧
        EvExit 600%N 30%N ∈ trace s'.
Proof.
  destruct (X7_name_allocation_failure
              (OpenEnv 30 sample_junk (200%N, None) (NULL, Some "no module_init")
                 0 NULL (600%N, None) NULL None true)
              "libB.so" 2 NULL one_entry [10%N])
    as (s' & evs & H1 & _ & H2 & _ & _ & _ & H3 & _);
    [reflexivity|reflexivity| | |done|reflexivity|by right| |left; by eexists
    |reflexivity|].
  - intros q ->%list_elem_of_singleton. by eexists.
  - by intros q ->%list_elem_of_singleton.
  - by intros q ->%list_elem_of_singleton.
  - exists s'. split; [exact H1|]. split; [exact H2|]. rewrite H3.
    apply elem_of_app. right. apply elem_of_app. right.
    apply elem_of_app. left. apply elem_of_cons. by left.
Defined.

(** ** module_open when it makes an entry *)

(** X8: when the path and the handle are not registered, malloc and strdup
    succeed and the initializer is absent or answers 0, [module_open] returns
    the new struct, linked as the last entry of the list, with one holder,
    the path as its name and the handle at hand as its handle.  The entries
    that were there keep their names, handles and counts, and the last error
    is not written. *)
Theorem X8_open_links_new_entry env file flag preload s l :
  g_lock s = Released → registry s = Some l →
  (∀ q, q ∈ l → is_Some (name_of s q)) →
  (∀ q, q ∈ l → name_of s q ≠ Some file) →
  oe_malloc env ≠ NULL → mods s !! oe_malloc env = None →
  preload ≠ NULL ∨ snd (oe_dlopen env) = None →
  (∀ q, q ∈ l → handle_of s q ≠ Some (new_handle env preload)) →
  init_passes env →
  oe_strdup env ≠ NULL → strs s !! oe_strdup env = None →
  ∃ s', module_open env file flag preload s = Ret (oe_malloc env) s' ∧
        registry s' = Some (l ++ [oe_malloc env]) ∧
        ref_count_of s' (oe_malloc env) = Some 1%Z ∧
        name_of s' (oe_malloc env) = Some file ∧
        handle_of s' (oe_malloc env) = Some (new_handle env preload) ∧
        (∀ q, q ∈ l → name_of s' q = name_of s q ∧
                      handle_of s' q = handle_of s q ∧
                      ref_count_of s' q = ref_count_of s q) ∧
        module_error s' = module_error s.
Proof.
  intros Hlk Hl Hnamed Hfile Hnew Hfresh Hh Hhandles Hpass Hdup Hsfresh.
  pose proof (proj1 (registry_is_list s l) Hl) as Hlist.
  rewrite (module_open_reaches_init env file flag preload s l) by done.
  pose proof (is_list_fresh _ _ _ _ Hlist Hfresh) as Hnotin.
  destruct (open_init_links env file (oe_malloc env)
              (loaded_state env file flag preload s) (new_struct env preload) l)
    as (head' & h' & Hlist' & Hsbn & ->); try done.
  { apply lookup_insert_eq. }
  { by apply is_list_insert_fresh. }
  simpl in Hsbn. rewrite mods_insert_insert in Hsbn.
  destruct (linked_entry_fields env (new_struct env preload)) as (Hn & Hr & Hhd).
  eexists. split; [done|].
  match goal with |- registry ?s1 = _ ∧ _ =>
    destruct (views_link s s1 l (oe_malloc env)
                (linked_entry env (new_struct env preload)) file h')
      as (Hold & Hname & Hhandle & Hcount);
      try done; try (simpl; rewrite ?Hn; done)
  end.
  split; [by apply registry_is_list|].
  rewrite Hname, Hhandle, Hcount, Hhd, Hr. done.
Qed.

Lemma X8_witness :
  ∃ s', module_open (plain_env 30 40 200) "libB.so" 2 NULL one_entry
          = Ret 30%N s' ∧
        registry s' = Some [10%N; 30%N] ∧
        name_of s' 30%N = Some "libB.so" ∧
        ref_count_of s' 10%N = Some 1%Z.
Proof.
  destruct (X8_open_links_new_entry (plain_env 30 40 200) "libB.so" 2 NULL
              one_entry [10%N])
    as (s' & H1 & H2 & _ & H3 & _ & H4 & _);
    [reflexivity|reflexivity| | |done|reflexivity|by right| |left; by eexists
    |done|reflexivity|].
  - intros q ->%list_elem_of_singleton. by eexists.
  - by intros q ->%list_elem_of_singleton.
  - by intros q ->%list_elem_of_singleton.
  - exists s'. split; [exact H1|]. split; [exact H2|]. split; [exact H3|].
    destruct (H4 10%N ltac:(by left)) as (_ & _ & ->). reflexivity.
Defined.

(** ** What the result of module_open tells *)

(** X9: a [module_open] that returns NULL has left the registry as it was:
    the head of the list, every struct and every string are the ones before
    the call (whatever was allocated on the way has been freed), and the
    lock is released. *)
Theorem X9_failed_open_leaves_registry env file flag preload s l s' :
  g_lock s = Released → registry s = Some l →
  (∀ q, q ∈ l → is_Some (name_of s q)) →
  mods s !! oe_malloc env = None →
  module_open env file flag preload s = Ret NULL s' →
  g_module_head s' = g_module_head s ∧ mods s' = mods s ∧ strs s' = strs s ∧
  registry s' = Some l ∧ g_lock s' = Released.
Proof.
  intros Hlk Hl Hnamed Hfresh Heq.
  pose proof (proj1 (registry_is_list s l) Hl) as Hlist.
  pose proof (module_open_outcome env file flag preload s l Hlk Hlist Hnamed Hfresh)
    as Hout.
  assert (∀ s1, g_module_head s1 = g_module_head s → mods s1 = mods s →
                strs s1 = strs s → g_lock s1 = Released →
                g_module_head s1 = g_module_head s ∧ mods s1 = mods s ∧
                strs s1 = strs s ∧ registry s1 = Some l ∧ g_lock s1 = Released)
    as Hsame.
  { intros s1 H1 H2 H3 H4. do 3 (split; [done|]). split; [|done].
    apply registry_is_list. by rewrite H1, H2. }
  rewrite Heq in Hout. inversion Hout; subst; clear Hout.
  - exfalso. by destruct (is_list_live _ _ _ NULL Hlist).
  - by apply Hsame.
  - by apply Hsame.
  - exfalso. by destruct (is_list_live _ _ _ NULL Hlist).
  - by apply Hsame.
  - by apply Hsame.
  - congruence.
Qed.

Lemma X9_witness :
  ∃ s', module_open (failing_init_env 30 40 200) "libB.so" 2 NULL one_entry
          = Ret NULL s' ∧
        mods s' = mods one_entry ∧ strs s' = strs one_entry.
Proof.
  eexists. split; [vm_compute; reflexivity|].
  destruct (X9_failed_open_leaves_registry (failing_init_env 30 40 200) "libB.so"
              2 NULL one_entry [10%N]
              (state_of (module_open (failing_init_env 30 40 200) "libB.so" 2
                           NULL one_entry)))
    as (_ & H1 & H2 & _);
    [reflexivity|reflexivity| |reflexivity|vm_compute; reflexivity|].
  - intros q ->%list_elem_of_singleton. by eexists.
  - split; [exact H1|exact H2].
Defined.

(** X10: in a registry reached from the empty one, a [module_open] that
    returns a pointer that is not null has returned an entry of the list
    that has the path as its name or the handle at hand as its handle.  Its
    count is 1 when the entry is new, and the count it had, incremented as
    an [int] is, when it was there. *)
Theorem X10_successful_open_returns_entry env file flag preload s r s' :
  reachable s → env_fresh env s →
  module_open env file flag preload s = Ret r s' → r ≠ NULL →
  ∃ l l' c, registry s = Some l ∧ registry s' = Some l' ∧ r ∈ l' ∧
          ref_count_of s' r = Some c ∧
          (((r ∉ l) ∧ c = 1%Z) ∨
           (r ∈ l ∧ ∃ c0, ref_count_of s r = Some c0 ∧ c = int_incr c0)) ∧
          (name_of s' r = Some file ∨
           handle_of s' r = Some (new_handle env preload)).
Proof.
  intros (l & Hinv)%reachable_inv [Hfresh Hsfresh] Heq Hr.
  destruct (g_lock s) eqn:Hlk;
    [|by rewrite module_open_blocked in Heq].
  pose proof (proj2 (registry_is_list s l) (inv_list _ _ Hinv)) as Hreg.
  pose proof (module_open_outcome env file flag preload s l Hlk
                (inv_list _ _ Hinv) (inv_named _ _ Hinv) Hfresh) as Hout.
  rewrite Heq in Hout. inversion Hout; subst; clear Hout; try done.
  - match goal with H : mods s !! r = Some e |- _ => rename H into He end.
    match goal with |- context [ref_count_of ?s1 _ = Some _ ∧ _] =>
      destruct (views_set_ref_count s s1 r e (int_incr (ref_count e)) He eq_refl eq_refl)
        as (Hn & _ & _ & Hrc)
    end.
    exists l, l, (int_incr (ref_count e)). split; [done|]. split.
    { apply registry_is_list. simpl.
      apply is_list_set_ref_count; [done|apply (inv_list _ _ Hinv)]. }
    split; [done|]. split; [done|]. split.
    { right. split; [done|]. exists (ref_count e). split; [|done].
      unfold ref_count_of. by rewrite He. }
    left. by rewrite Hn.
  - match goal with H : mods s !! r = Some e |- _ => rename H into He end.
    match goal with H : handle e = _ |- _ => rename H into Hhe end.
    match goal with |- context [ref_count_of ?s1 _ = Some _ ∧ _] =>
      destruct (views_set_ref_count s s1 r e (int_incr (ref_count e)) He eq_refl eq_refl)
        as (_ & Hhd & _ & Hrc)
    end.
    exists l, l, (int_incr (ref_count e)). split; [done|]. split.
    { apply registry_is_list. simpl.
      apply is_list_set_ref_count; [done|apply (inv_list _ _ Hinv)]. }
    split; [done|]. split; [done|]. split.
    { right. split; [done|]. exists (ref_count e). split; [|done].
      unfold ref_count_of. by rewrite He. }
    right. rewrite Hhd. unfold handle_of. rewrite He. simpl. by rewrite Hhe.
  - destruct (linked_entry_fields env (new_struct env preload)) as (Hn & Hrc & Hhd).
    assert (oe_malloc env ∉ l) as Hnotin.
    { eapply is_list_fresh; [apply (inv_list _ _ Hinv)|done]. }
    match goal with |- context [ref_count_of ?s1 _ = Some _ ∧ _] =>
      destruct (views_link s s1 l (oe_malloc env)
                  (linked_entry env (new_struct env preload)) file h')
        as (_ & Hname & _ & Hcount);
        try done; try (simpl; rewrite ?Hn; done)
    end.
    { apply (inv_named _ _ Hinv). }
    exists l, (l ++ [oe_malloc env]), 1%Z. split; [done|].
    split; [by apply registry_is_list|].
    split; [apply elem_of_app; right; by left|].
    split; [by rewrite Hcount, Hrc|]. split; [by left|]. by left.
Qed.

Lemma X10_witness :
  ∃ l', registry two_entries = Some l' ∧ 30%N ∈ l' ∧
        ref_count_of two_entries 30%N = Some 1%Z.
Proof.
  destruct (X10_successful_open_returns_entry (plain_env 30 40 200) "libB.so" 2
              NULL one_entry 30%N two_entries)
    as (l & l' & c & _ & H1 & H2 & H3 & _).
  - apply (reachable_step empty_registry); [apply reachable_empty|].
    apply (step_open _ _ (plain_env 10 20 100) "libA.so" 2%Z NULL 10%N);
      [split; vm_compute; reflexivity|vm_compute; reflexivity].
  - split; vm_compute; reflexivity.
  - vm_compute. reflexivity.
  - done.
  - exists l'. split; [exact H1|]. split; [exact H2|]. vm_compute. reflexivity.
Defined.

(** ** module_close, the other paths *)

(** X11: [module_close] on the null pointer, or on a struct whose handle is
    null, returns 0 at once in the state it was given: the lock is not
    taken (so the call returns even while the lock is held), the count is not
    touched and nothing is called. *)
Theorem X11_module_close_rejects env p preload s :
  p = NULL ∨ (∃ m, mods s !! p = Some m ∧ handle m = NULL) →
  module_close env p preload s = Ret 0%Z s.
Proof.
  intros [->|(m & Hm & Hh)]; [apply module_close_null|].
  by eapply module_close_no_handle.
Qed.

Lemma X11_witness :
  module_close (CloseEnv None true) NULL 0 stuck_registry = Ret 0%Z stuck_registry.
Proof.
  apply (X11_module_close_rejects (CloseEnv None true) NULL 0 stuck_registry).
  by left.
Defined.

(** X12: [module_close] on an entry with a handle and at least two holders
    returns the count less one and tears nothing down: the entry has that
    count and is still in the list, which is what it was; names, handles and
    the counts of the other structs are unchanged; the only call is the
    verbose log, and the last error is not written. *)
Theorem X12_close_with_holders_left env p preload s m l :
  g_lock s = Released → registry s = Some l →
  p ≠ NULL → mods s !! p = Some m → handle m ≠ NULL →
  (2 ≤ ref_count m)%Z →
  ∃ s', module_close env p preload s = Ret (ref_count m - 1)%Z s' ∧
        ref_count_of s' p = Some (ref_count m - 1)%Z ∧
        registry s' = Some l ∧
        (∀ q, name_of s' q = name_of s q ∧ handle_of s' q = handle_of s q) ∧
        (∀ q, q ≠ p → ref_count_of s' q = ref_count_of s q) ∧
        strs s' = strs s ∧
        module_error s' = module_error s ∧
        trace s' = trace s ++ [EvVerboseLog "module %s decrease refcont (%d)\n"].
Proof.
  intros Hlk Hl%registry_is_list Hp Hm Hh Hr.
  rewrite <- (int_decr_small (ref_count m)) by (unfold INT_MIN; lia).
  eexists. split; [eapply module_close_decrement; try done; lia|].
  match goal with |- context [ref_count_of ?s1] =>
    destruct (views_set_ref_count s s1 p m (int_decr (ref_count m)) Hm
                eq_refl eq_refl)
      as (Hn & Hhd & Hrc & Hrp)
  end.
  split; [done|]. split.
  { apply registry_is_list. simpl. by apply is_list_set_ref_count. }
  split; [by split|]. done.
Qed.

Lemma X12_witness :
  ∃ s', module_close (CloseEnv (Some "busy") true) 10%N 0
          (state_of (module_open (plain_env 30 40 200) "libA.so" 2 NULL one_entry))
          = Ret 1%Z s' ∧
        registry s' = Some [10%N] ∧ module_error s' = None.
Proof.
  destruct (X12_close_with_holders_left (CloseEnv (Some "busy") true) 10%N 0
              (state_of (module_open (plain_env 30 40 200) "libA.so" 2 NULL
                           one_entry))
              (Module 20 2 100 NULL NULL NULL NULL) [10%N])
    as (s' & H1 & _ & H2 & _ & _ & _ & H3 & _);
    [reflexivity|vm_compute; reflexivity|done|vm_compute; reflexivity|done|done|].
  exists s'. split; [exact H1|]. split; [exact H2|exact H3].
Defined.

(** X13: when [module_close] with [preload] zero takes the count of an entry
    of the list from one to zero and [dlclose] leaves no error, the call
    returns 0; the finalizer of the entry, if it has one, is called once and
    before [dlclose], which is called on the handle of the entry; the entry
    leaves the list, its struct and its name string are freed, the other
    structs keep their handles and counts, and the last error is not
    written. *)
Theorem X13_last_close_unloads env p s m l x :
  g_lock s = Released → registry s = Some l → p ∈ l →
  mods s !! p = Some m → handle m ≠ NULL → ref_count m = 1%Z →
  name m ≠ NULL → strs s !! name m = Some x →
  ce_dlclose env = None →
  ∃ s', module_close env p 0 s = Ret 0%Z s' ∧
        registry s' = Some (without p l) ∧
        mods s' !! p = None ∧ strs s' !! name m = None ∧
        (∀ q, q ≠ p → handle_of s' q = handle_of s q ∧
                      ref_count_of s' q = ref_count_of s q) ∧
        module_error s' = module_error s ∧
        trace s' =
          trace s ++ [EvVerboseLog "module %s decrease refcont (%d)\n"]
            ++ (if is_null (exit m) then [] else [EvExit (exit m) p])
            ++ [EvDlclose (handle m); EvVerboseLog "module %s closed\n"].
Proof.
  intros Hlk Hl%registry_is_list Hin Hm Hh Hr Hnm Hx He.
  destruct (is_list_live _ _ _ _ Hl Hin) as [Hp _].
  destruct (module_close_last env p 0 s m l) as (head' & h' & Hs & Hlist & Heq);
    try done.
  rewrite He in Heq. simpl in Heq.
  eexists. split; [done|]. simpl. split.
  { eapply registry_after_unlink; [by left|done|by apply Hlist]. }
  rewrite !lookup_delete_eq. do 2 (split; [done|]). split; [|done].
  intros q Hq. unfold handle_of, ref_count_of. simpl.
  rewrite !lookup_delete_ne by done.
  rewrite (same_but_next_field handle _ _ q (λ _, eq_refl) Hs).
  rewrite (same_but_next_field ref_count _ _ q (λ _, eq_refl) Hs).
  by rewrite !lookup_insert_ne.
Qed.

Lemma X13_witness :
  ∃ s', module_close (CloseEnv None true) 10%N 0 two_entries = Ret 0%Z s' ∧
        registry s' = Some [30%N] ∧
        mods s' !! 10%N = None ∧
        ref_count_of s' 30%N = Some 1%Z.
Proof.
  destruct (X13_last_close_unloads (CloseEnv None true) 10%N two_entries
              (Module 20 1 100 NULL NULL NULL 30) [10%N; 30%N] "libA.so")
    as (s' & H1 & H2 & H3 & _ & H4 & _);
    [reflexivity|vm_compute; reflexivity|by left|vm_compute; reflexivity
    |done|reflexivity|done|vm_compute; reflexivity|reflexivity|].
  exists s'. split; [exact H1|]. split; [exact H2|]. split; [exact H3|].
  destruct (H4 30%N ltac:(done)) as [_ ->]. vm_compute. reflexivity.
Defined.

(** ** Open and close together *)

Lemma set_ref_count_back e c :
  set_ref_count (ref_count e) (set_ref_count c e) = e.
Proof. by destruct e. Qed.

(** X14: on a registered path whose entry has a count of at least one,
    [module_open] followed by [module_close] of the entry it returned gives
    the registry back: the open returns the entry of that name with its
    count incremented as an [int] is (a count of [INT_MAX] becomes
    [INT_MIN]) and calls nothing but the log, the close returns the count the
    entry had before, and after it the head of the list, every struct, every
    string and the last error are the ones before the open. *)
Theorem X14_open_then_close_restores env cenv file flag preload cpreload s l r e :
  g_lock s = Released → registry s = Some l →
  (∀ q, q ∈ l → is_Some (name_of s q)) →
  r ∈ l → name_of s r = Some file →
  (∀ q, q ∈ l → name_of s q = Some file → q = r) →
  mods s !! r = Some e → handle e ≠ NULL →
  (1 ≤ ref_count e ≤ INT_MAX)%Z →
  ∃ s1 s2,
    module_open env file flag preload s = Ret r s1 ∧
    ref_count_of s1 r = Some (int_incr (ref_count e)) ∧
    trace s1 = trace s ++ [EvErrorLog "found opened module %s\n"] ∧
    module_close cenv r cpreload s1 = Ret (ref_count e) s2 ∧
    g_module_head s2 = g_module_head s ∧
    mods s2 = mods s ∧ strs s2 = strs s ∧
    module_error s2 = module_error s ∧ g_lock s2 = Released.
Proof.
  intros Hlk Hl%registry_is_list Hnamed Hr Hrn Huniq He Hh Hc.
  destruct (is_list_live _ _ _ _ Hl Hr) as [Hp _].
  destruct (module_open_by_name env file flag preload s l)
    as (r0 & e0 & Hr0 & Hrn0 & He0 & Hopen); try done; [by eauto|].
  assert (r0 = r) as -> by (by apply Huniq).
  rewrite He in He0. injection He0 as <-.
  match type of Hopen with _ = Ret _ ?s => set (s1 := s) in * end.
  set (m1 := set_ref_count (int_incr (ref_count e)) e).
  assert (mods s1 !! r = Some m1) as Hm1 by apply lookup_insert_eq.
  assert (int_decr (int_incr (ref_count e)) = ref_count e) as Hback.
  { apply int_decr_incr. unfold INT_MIN, INT_MAX in *. lia. }
  assert (ref_count m1 ≠ 0%Z ∧ ref_count m1 ≠ 1%Z) as [Hm0 Hm1'].
  { simpl. unfold int_incr, INT_MIN, INT_MAX in *.
    destruct (Z.eqb_spec (ref_count e) 2147483647); lia. }
  pose proof (module_close_decrement cenv r cpreload s1 m1 eq_refl Hp Hm1 Hh
                Hm0 Hm1') as Hclose.
  eexists s1, _. split; [done|]. split.
  { unfold ref_count_of. by rewrite Hm1. }
  split; [done|]. split.
  { rewrite Hclose. f_equal. simpl. exact Hback. }
  simpl. do 1 (split; [done|]). split; [|done].
  rewrite mods_insert_insert, Hback.
  unfold m1. rewrite set_ref_count_back. by apply insert_id.
Qed.

Lemma X14_witness :
  ∃ s1 s2,
    module_open (plain_env 50 60 500) "libB.so" 0 NULL two_entries = Ret 30%N s1 ∧
    module_close (CloseEnv (Some "busy") true) 30%N 0 s1 = Ret 1%Z s2 ∧
    mods s2 = mods two_entries ∧ strs s2 = strs two_entries.
Proof.
  destruct (X14_open_then_close_restores (plain_env 50 60 500)
              (CloseEnv (Some "busy") true) "libB.so" 0 NULL 0 two_entries
              [10%N; 30%N] 30%N (Module 40 1 200 NULL NULL NULL NULL))
    as (s1 & s2 & H1 & _ & _ & H2 & _ & H3 & H4 & _);
    [reflexivity|vm_compute; reflexivity| |by right; left|vm_compute; reflexivity
    | |vm_compute; reflexivity|done|by vm_compute|].
  - intros q [->|[->|[]%elem_of_nil]%elem_of_cons]%elem_of_cons;
      vm_compute; by eexists.
  - intros q [->|[->|[]%elem_of_nil]%elem_of_cons]%elem_of_cons Hq;
      [vm_compute in Hq; discriminate|done].
  - exists s1, s2. split; [exact H1|]. split; [exact H2|]. split; [exact H3|exact H4].
Defined.

(** ** The list helpers *)

Lemma find_with_name_loop_first s l fuel p f :
  is_list (mods s) p l → length l < fuel →
  (∀ q, q ∈ l → is_Some (name_of s q)) →
  ∃ r, find_with_name_loop fuel p f s = Ret r s ∧
       ((r = NULL ∧ ∀ q, q ∈ l → name_of s q ≠ Some f) ∨
        (∃ a b, l = a ++ r :: b ∧ name_of s r = Some f ∧
                ∀ q, q ∈ a → name_of s q ≠ Some f)).
Proof.
  revert p fuel. induction l as [|x l IH]; intros p fuel Hl Hlen Hnamed.
  - simpl in Hl. subst p. destruct fuel; [simpl in Hlen; lia|].
    exists NULL. split; [done|]. left. split; [done|].
    intros q Hq. by apply elem_of_nil in Hq.
  - destruct fuel; [simpl in Hlen; lia|].
    destruct Hl as (-> & Hx & m & Hm & Hl).
    destruct (Hnamed x ltac:(left)) as [nm Hnm].
    pose proof Hnm as Hnm'. unfold name_of in Hnm'. rewrite Hm in Hnm'. simpl in Hnm'.
    simpl. rewrite (is_null_false _ Hx). munfold. rewrite Hm, Hnm'.
    destruct (String.eqb_spec nm f) as [->|Hne].
    + exists x. split; [done|]. right. exists [], l. split; [done|].
      split; [done|]. intros q Hq. by apply elem_of_nil in Hq.
    + destruct (IH (next m) fuel Hl) as (r & Hr & Hcase).
      { simpl in Hlen. lia. }
      { intros q Hq. apply Hnamed. by right. }
      exists r. split; [done|].
      destruct Hcase as [[-> Hnone]|(a & b & -> & Hrn & Hbefore)].
      * left. split; [done|]. intros q [->|Hq]%elem_of_cons; [|by apply Hnone].
        rewrite Hnm. congruence.
      * right. exists (x :: a), b. split; [done|]. split; [done|].
        intros q [->|Hq]%elem_of_cons; [|by apply Hbefore].
        rewrite Hnm. congruence.
Qed.

Lemma find_with_handle_loop_first s l fuel p h :
  is_list (mods s) p l → length l < fuel →
  ∃ r, find_with_handle_loop fuel p h s = Ret r s ∧
       ((r = NULL ∧ ∀ q, q ∈ l → handle_of s q ≠ Some h) ∨
        (∃ a b, l = a ++ r :: b ∧ handle_of s r = Some h ∧
                ∀ q, q ∈ a → handle_of s q ≠ Some h)).
Proof.
  revert p fuel. induction l as [|x l IH]; intros p fuel Hl Hlen.
  - simpl in Hl. subst p. destruct fuel; [simpl in Hlen; lia|].
    exists NULL. split; [done|]. left. split; [done|].
    intros q Hq. by apply elem_of_nil in Hq.
  - destruct fuel; [simpl in Hlen; lia|].
    destruct Hl as (-> & Hx & m & Hm & Hl).
    assert (handle_of s x = Some (handle m)) as Hhx
      by (unfold handle_of; by rewrite Hm).
    simpl. rewrite (is_null_false _ Hx). munfold. rewrite Hm.
    destruct (N.eqb_spec (handle m) h) as [Heq|Hne].
    + exists x. split; [done|]. right. exists [], l. split; [done|].
      split; [by rewrite Hhx, Heq|]. intros q Hq. by apply elem_of_nil in Hq.
    + destruct (IH (next m) fuel Hl) as (r & Hr & Hcase).
      { simpl in Hlen. lia. }
      exists r. split; [done|].
      destruct Hcase as [[-> Hnone]|(a & b & -> & Hrn & Hbefore)].
      * left. split; [done|]. intros q [->|Hq]%elem_of_cons; [|by apply Hnone].
        rewrite Hhx. congruence.
      * right. exists (x :: a), b. split; [done|]. split; [done|].
        intros q [->|Hq]%elem_of_cons; [|by apply Hbefore].
        rewrite Hhx. congruence.
Qed.

(** X15: on a well-formed list whose entries have name strings,
    [module_find_with_name] leaves the state as it is and returns NULL when
    no entry has the name, and otherwise the first entry, in list order,
    whose name string equals it. *)
Theorem X15_module_find_with_name s l f :
  registry s = Some l →
  (∀ q, q ∈ l → is_Some (name_of s q)) →
  ∃ r, module_find_with_name (g_module_head s) f s = Ret r s ∧
       ((r = NULL ∧ ∀ q, q ∈ l → name_of s q ≠ Some f) ∨
        (∃ a b, l = a ++ r :: b ∧ name_of s r = Some f ∧
                ∀ q, q ∈ a → name_of s q ≠ Some f)).
Proof.
  intros Hl%registry_is_list Hnamed. unfold module_find_with_name. munfold.
  eapply find_with_name_loop_first; eauto using walk_fuel_enough.
Qed.

Lemma X15_witness :
  ∃ r, module_find_with_name (g_module_head two_entries) "libB.so" two_entries
         = Ret r two_entries ∧
       (r = NULL ∨ name_of two_entries r = Some "libB.so").
Proof.
  destruct (X15_module_find_with_name two_entries [10%N; 30%N] "libB.so")
    as (r & H1 & [[-> _]|(a & b & _ & H2 & _)]); [vm_compute; reflexivity| | |].
  - intros q [->|[->|[]%elem_of_nil]%elem_of_cons]%elem_of_cons;
      vm_compute; by eexists.
  - exists NULL. split; [exact H1|by left].
  - exists r. split; [exact H1|by right].
Defined.

(** X16: on a well-formed list, [module_find_with_handle] leaves the state
    as it is and returns NULL when no entry has the handle, and otherwise the
    first entry, in list order, whose handle equals it. *)
Theorem X16_module_find_with_handle s l h :
  registry s = Some l →
  ∃ r, module_find_with_handle (g_module_head s) h s = Ret r s ∧
       ((r = NULL ∧ ∀ q, q ∈ l → handle_of s q ≠ Some h) ∨
        (∃ a b, l = a ++ r :: b ∧ handle_of s r = Some h ∧
                ∀ q, q ∈ a → handle_of s q ≠ Some h)).
Proof.
  intros Hl%registry_is_list. unfold module_find_with_handle. munfold.
  eapply find_with_handle_loop_first; eauto using walk_fuel_enough.
Qed.

Lemma X16_witness :
  ∃ r, module_find_with_handle (g_module_head two_entries) 200%N two_entries
         = Ret r two_entries ∧
       (r = NULL ∨ handle_of two_entries r = Some 200%N).
Proof.
  destruct (X16_module_find_with_handle two_entries [10%N; 30%N] 200%N)
    as (r & H1 & [[-> _]|(a & b & _ & H2 & _)]); [vm_compute; reflexivity| |].
  - exists NULL. split; [exact H1|by left].
  - exists r. split; [exact H1|by right].
Defined.

(** X17: [module_add_list] appends: on a well-formed list and a struct that
    is allocated, not in the list and has a null [next], the list read from
    the head it returns is the old list followed by the new struct.  No
    struct changes but in its [next] field, and no string changes. *)
Theorem X17_module_add_list_appends s l new mn :
  registry s = Some l →
  new ≠ NULL → new ∉ l → mods s !! new = Some mn → next mn = NULL →
  ∃ head' s', module_add_list (g_module_head s) new s = Ret head' s' ∧
              registry (with_head head' s') = Some (l ++ [new]) ∧
              same_but_next (mods s) (mods s') ∧ strs s' = strs s.
Proof.
  intros Hl%registry_is_list Hnew Hnotin Hmn Hnext.
  destruct (module_add_list_spec s (g_module_head s) l new mn)
    as (head' & h' & Heq & Hlist & Hsbn); try done.
  exists head', (with_mods h' s). split; [done|]. split; [|done].
  by apply registry_is_list.
Qed.

Lemma X17_witness :
  ∃ head' s',
    module_add_list (g_module_head one_entry_and_a_stranger) 30%N
      one_entry_and_a_stranger = Ret head' s' ∧
    registry (with_head head' s') = Some [10%N; 30%N].
Proof.
  destruct (X17_module_add_list_appends one_entry_and_a_stranger [10%N] 30%N
              (Module 40 1 200 NULL NULL NULL NULL))
    as (head' & s' & H1 & H2 & _);
    [vm_compute; reflexivity|done| |vm_compute; reflexivity|reflexivity|].
  - by intros ?%list_elem_of_singleton.
  - exists head', s'. split; [exact H1|exact H2].
Defined.

(** X18: [module_del_list] on an entry of a well-formed list unlinks it: the
    list read from the head it returns is the old list without that entry,
    the others in their order.  The struct is not freed, and no struct
    changes but in its [next] field. *)
Theorem X18_module_del_list_unlinks s l del :
  registry s = Some l → del ∈ l →
  ∃ head' s', module_del_list (g_module_head s) del s = Ret head' s' ∧
              registry (with_head head' s') = Some (without del l) ∧
              is_Some (mods s' !! del) ∧
              same_but_next (mods s) (mods s') ∧ strs s' = strs s.
Proof.
  intros Hl%registry_is_list Hin.
  destruct (is_list_live _ _ _ _ Hl Hin) as [Hdel [md Hmd]].
  destruct (module_del_list_spec s (g_module_head s) l del md)
    as (head' & h' & Heq & Hsbn & Hlist); try done.
  exists head', (with_mods h' s). split; [done|]. split.
  { apply registry_is_list. by apply Hlist. }
  split; [|done].
  destruct (same_but_next_lookup _ _ _ _ Hsbn Hmd) as (m' & Hm' & _).
  by exists m'.
Qed.

Lemma X18_witness :
  ∃ head' s',
    module_del_list (g_module_head two_entries) 30%N two_entries = Ret head' s' ∧
    registry (with_head head' s') = Some [10%N] ∧
    is_Some (mods s' !! 30%N).
Proof.
  destruct (X18_module_del_list_unlinks two_entries [10%N; 30%N] 30%N)
    as (head' & s' & H1 & H2 & H3 & _);
    [vm_compute; reflexivity|by right; left|].
  exists head', s'. split; [exact H1|]. split; [exact H2|exact H3].
Defined.

(** X19: [module_del_list] on a struct that is not in the list does not
    leave the list alone: no node points to the struct, the loop ends on
    NULL, and the head it returns is the [next] of that struct, whatever the
    list was.  The heap is not written. *)
Theorem X19_module_del_list_of_a_stranger s l del md :
  registry s = Some l → del ∉ l → del ≠ NULL → mods s !! del = Some md →
  module_del_list (g_module_head s) del s = Ret (next md) s.
Proof.
  intros Hl%registry_is_list Hnotin Hdel Hmd.
  unfold module_del_list. munfold.
  destruct (del_list_loop_spec s l (walk_fuel s) (g_module_head s) del Hl)
    as (r & -> & [[-> _]|(a & b & m & -> & Hm & Hnext)]).
  { eauto using walk_fuel_enough. }
  - by rewrite Hmd.
  - exfalso. assert (next m ≠ NULL) as Hnz by congruence.
    destruct (is_list_next_in _ _ _ _ _ _ Hl Hm Hnz) as (b' & ->).
    apply Hnotin. rewrite Hnext. apply elem_of_app. right.
    apply elem_of_cons. right. by left.
Qed.

Lemma X19_witness :
  module_del_list (g_module_head one_entry_and_a_stranger) 30%N
    one_entry_and_a_stranger
  = Ret NULL one_entry_and_a_stranger.
Proof.
  apply (X19_module_del_list_of_a_stranger one_entry_and_a_stranger
           [10%N] 30%N (Module 40 1 200 NULL NULL NULL NULL));
    [vm_compute; reflexivity| |done|vm_compute; reflexivity].
  by intros ?%list_elem_of_singleton.
Defined.

(** X20: [module_add_list] followed by [module_del_list] of the same struct
    gives the list back: the list read from the head that [module_del_list]
    returns is the list before [module_add_list]. *)
Theorem X20_add_then_del_gives_the_list_back s l new mn :
  registry s = Some l →
  new ≠ NULL → new ∉ l → mods s !! new = Some mn → next mn = NULL →
  ∃ head1 s1 head2 s2,
    module_add_list (g_module_head s) new s = Ret head1 s1 ∧
    module_del_list head1 new s1 = Ret head2 s2 ∧
    registry (with_head head2 s2) = Some l ∧
    same_but_next (mods s) (mods s2).
Proof.
  intros Hl%registry_is_list Hnew Hnotin Hmn Hnext.
  destruct (module_add_list_spec s (g_module_head s) l new mn)
    as (head1 & h1 & Heq1 & Hlist1 & Hsbn1); try done.
  destruct (same_but_next_lookup _ _ _ _ Hsbn1 Hmn) as (m1 & Hm1 & _).
  destruct (module_del_list_spec (with_mods h1 s) head1 (l ++ [new]) new m1)
    as (head2 & h2 & Heq2 & Hsbn2 & Hlist2); try done.
  exists head1, (with_mods h1 s), head2, (with_mods h2 (with_mods h1 s)).
  split; [done|]. split; [done|]. split.
  - apply registry_is_list. simpl.
    assert (without new (l ++ [new]) = l) as <-.
    { rewrite <- (app_nil_r (l ++ [new])), <- app_assoc. simpl.
      rewrite without_split; [by rewrite app_nil_r|].
      apply NoDup_app. split; [by eapply is_list_NoDup|].
      split; [|apply NoDup_singleton].
      by intros q Hq ->%list_elem_of_singleton. }
    apply Hlist2. apply elem_of_app. right. by left.
  - simpl in *. intros q. by rewrite (Hsbn2 q), (Hsbn1 q).
Qed.

Lemma X20_witness :
  ∃ head1 s1 head2 s2,
    module_add_list (g_module_head one_entry_and_a_stranger) 30%N
      one_entry_and_a_stranger = Ret head1 s1 ∧
    module_del_list head1 30%N s1 = Ret head2 s2 ∧
    registry (with_head head2 s2) = Some [10%N].
Proof.
  destruct (X20_add_then_del_gives_the_list_back one_entry_and_a_stranger
              [10%N] 30%N (Module 40 1 200 NULL NULL NULL NULL))
    as (head1 & s1 & head2 & s2 & H1 & H2 & H3 & _);
    [vm_compute; reflexivity|done| |vm_compute; reflexivity|reflexivity|].
  - by intros ?%list_elem_of_singleton.
  - exists head1, s1, head2, s2. split; [exact H1|]. split; [exact H2|exact H3].
Defined.

(** ** Registries reached from the empty one *)

Lemma reachable_in_reachable n s : reachable_in n s → reachable s.
Proof.
  induction 1 as [|n s s' _ IH Hstep]; [apply reachable_empty|].
  by apply (reachable_step s).
Qed.

(** The list and the counts are read from the head and the structs. *)
Lemma same_data_counts s s' l l' q c' :
  is_list (mods s) (g_module_head s) l →
  g_module_head s' = g_module_head s → mods s' = mods s →
  registry s' = Some l' → q ∈ l' → ref_count_of s' q = Some c' →
  count_moves s l q c'.
Proof.
  intros Hl Hh Hm Hl'%registry_is_list Hq Hc'. rewrite Hh, Hm in Hl'.
  pose proof (is_list_functional _ _ _ _ Hl Hl') as <-.
  right. exists c'. split; [done|]. split; [|by left].
  unfold ref_count_of in *. by rewrite <- Hm.
Qed.

Lemma recount_counts s s' l l' r e c q c' :
  is_list (mods s) (g_module_head s) l → mods s !! r = Some e →
  g_module_head s' = g_module_head s →
  mods s' = <[r := set_ref_count c e]> (mods s) →
  registry s' = Some l' → q ∈ l' → ref_count_of s' q = Some c' →
  q ∈ l ∧ ((q = r ∧ c' = c) ∨ (q ≠ r ∧ ref_count_of s q = Some c')).
Proof.
  intros Hl He Hh Hm Hl'%registry_is_list Hq Hc'. rewrite Hh, Hm in Hl'.
  pose proof (is_list_functional _ _ _ _
                (is_list_set_ref_count _ _ _ r e c He Hl) Hl') as <-.
  split; [done|]. unfold ref_count_of in *. rewrite Hm in Hc'.
  destruct (decide (q = r)) as [->|Hne].
  - left. rewrite lookup_insert_eq in Hc'. by injection Hc' as <-.
  - right. by rewrite lookup_insert_ne in Hc'.
Qed.

Lemma module_open_counts env file flag preload s l r s' l' q c' :
  registry_inv s l → env_fresh env s →
  module_open env file flag preload s = Ret r s' →
  registry s' = Some l' → q ∈ l' → ref_count_of s' q = Some c' →
  count_moves s l q c'.
Proof.
  intros Hinv [Hfresh Hsfresh] Heq Hl' Hq Hc'.
  pose proof (inv_list _ _ Hinv) as Hl.
  destruct (g_lock s) eqn:Hlk;
    [|by rewrite module_open_blocked in Heq].
  pose proof (module_open_outcome env file flag preload s l Hlk Hl
                (inv_named _ _ Hinv) Hfresh) as Hout.
  rewrite Heq in Hout. inversion Hout; subst; clear Hout.
  - match goal with H : mods s !! r = Some e |- _ => rename H into He end.
    match type of Hl' with registry ?s1 = _ =>
      destruct (recount_counts s s1 l l' r e (int_incr (ref_count e)) q c'
                  Hl He eq_refl eq_refl Hl' Hq Hc')
        as [Hql [[-> ->]|[_ Hc]]]; right
    end.
    + exists (ref_count e). split; [done|]. split; [|by right; left].
      unfold ref_count_of. by rewrite He.
    + exists c'. split; [done|]. split; [done|by left].
  - eapply (same_data_counts _ _ l l'); [exact Hl|done|done|exact Hl'|done|done].
  - match type of Hl' with registry ?s1 = _ =>
      by apply (same_data_counts s s1 l l' q c' Hl eq_refl eq_refl)
    end.
  - match goal with H : mods s !! r = Some e |- _ => rename H into He end.
    match type of Hl' with registry ?s1 = _ =>
      destruct (recount_counts s s1 l l' r e (int_incr (ref_count e)) q c'
                  Hl He eq_refl eq_refl Hl' Hq Hc')
        as [Hql [[-> ->]|[_ Hc]]]; right
    end.
    + exists (ref_count e). split; [done|]. split; [|by right; left].
      unfold ref_count_of. by rewrite He.
    + exists c'. split; [done|]. split; [done|by left].
  - match type of Hl' with registry ?s1 = _ =>
      by apply (same_data_counts s s1 l l' q c' Hl eq_refl eq_refl)
    end.
  - match type of Hl' with registry ?s1 = _ =>
      by apply (same_data_counts s s1 l l' q c' Hl eq_refl eq_refl)
    end.
  - destruct (linked_entry_fields env (new_struct env preload)) as (Hn & Hrc & _).
    match goal with H : is_list h' head' _ |- _ => rename H into Hlist end.
    apply registry_is_list in Hl'. simpl in Hl'.
    pose proof (is_list_functional _ _ _ _ Hlist Hl') as <-.
    match type of Hc' with ref_count_of ?s1 _ = _ =>
      destruct (views_link s s1 l (oe_malloc env)
                  (linked_entry env (new_struct env preload)) file h')
        as (Hold & _ & _ & Hnew);
        try done; try (simpl; rewrite ?Hn; done)
    end.
    { apply (inv_named _ _ Hinv). }
    { by eapply is_list_fresh. }
    apply elem_of_app in Hq as [Hq| ->%list_elem_of_singleton].
    + destruct (Hold q Hq) as (_ & _ & Hc). rewrite Hc in Hc'.
      right. exists c'. split; [done|]. split; [done|by left].
    + rewrite Hnew, Hrc in Hc'. left. by injection Hc' as <-.
Qed.

Lemma module_close_counts env p preload s l r s' l' q c' :
  registry_inv s l → valid_arg s p →
  module_close env p preload s = Ret r s' →
  registry s' = Some l' → q ∈ l' → ref_count_of s' q = Some c' →
  count_moves s l q c'.
Proof.
  intros Hinv Hvalid Heq Hl' Hq Hc'.
  pose proof (inv_list _ _ Hinv) as Hl.
  destruct Hvalid as [->|[m Hm]].
  { rewrite module_close_null in Heq. injection Heq as _ <-.
    by apply (same_data_counts s s l l'). }
  assert (p ≠ NULL) as Hp.
  { intros ->. pose proof (inv_null_mods _ _ Hinv). congruence. }
  destruct (decide (handle m = NULL)) as [Hh|Hh].
  { rewrite (module_close_no_handle env p preload s m) in Heq by done.
    injection Heq as _ <-. by apply (same_data_counts s s l l'). }
  destruct (g_lock s) eqn:Hlk;
    [|by rewrite (module_close_blocked env p preload s m) in Heq].
  destruct (decide (ref_count m = 0%Z)) as [H0|H0].
  { rewrite (module_close_zero env p preload s m) in Heq by done.
    injection Heq as _ <-.
    match type of Hl' with registry ?s1 = _ =>
      by apply (same_data_counts s s1 l l' q c' Hl eq_refl eq_refl)
    end. }
  assert (p ∈ l) as Hin.
  { destruct (decide (p ∈ l)) as [|Hnotin]; [done|]. exfalso. apply H0.
    apply (inv_unlinked _ _ Hinv p); [done|]. unfold ref_count_of. by rewrite Hm. }
  destruct (decide (ref_count m = 1%Z)) as [H1|H1].
  - destruct (inv_named _ _ Hinv p Hin) as [x Hx].
    unfold name_of in Hx. rewrite Hm in Hx. simpl in Hx.
    assert (name m ≠ NULL) as Hnm.
    { intros Hz. rewrite Hz in Hx. pose proof (inv_null_strs _ _ Hinv). congruence. }
    destruct (module_close_last env p preload s m l)
      as (head' & h' & Hs & Hlist & Heq'); try done.
    rewrite Heq' in Heq.
    assert (g_module_head s' = head' ∧ (mods s' = delete p h' ∨ mods s' = h'))
      as [Hh' Hm'].
    { destruct (preload =? 0)%Z; injection Heq as _ <-; simpl; auto. }
    rewrite (registry_after_unlink s' l p h' head' Hm' Hh' (Hlist Hin)) in Hl'.
    injection Hl' as <-. apply elem_of_without in Hq as [Hq Hqp].
    right. exists c'. split; [done|]. split; [|by left].
    unfold ref_count_of in *. rewrite <- Hc'.
    transitivity (ref_count <$> h' !! q).
    + rewrite (same_but_next_field ref_count _ _ q (λ _, eq_refl) Hs).
      by rewrite lookup_insert_ne.
    + destruct Hm' as [-> | ->]; [by rewrite lookup_delete_ne|done].
  - rewrite (module_close_decrement env p preload s m) in Heq by done.
    injection Heq as _ <-.
    match type of Hl' with registry ?s1 = _ =>
      destruct (recount_counts s s1 l l' p m (int_decr (ref_count m)) q c'
                  Hl Hm eq_refl eq_refl Hl' Hq Hc')
        as [Hql [[-> ->]|[_ Hc]]]; right
    end.
    + exists (ref_count m). split; [done|]. split; [|by right; right].
      unfold ref_count_of. by rewrite Hm.
    + exists c'. split; [done|]. split; [done|by left].
Qed.

Lemma module_symbol_keeps_registry env p str s r s' :
  module_symbol env p str s = Ret r s' →
  g_module_head s' = g_module_head s ∧ mods s' = mods s ∧ strs s' = strs s ∧
  (module_error s' = module_error s ∨
   (r = NULL ∧ ∃ e, snd (se_dlsym env) = Some e ∧
                    module_error s' = (if se_copied env then Some e else None))).
Proof.
  intros Heq.
  destruct (decide (p = NULL)) as [->|Hp].
  { rewrite module_symbol_rejects in Heq by (by left).
    injection Heq as _ <-. by eauto. }
  destruct (mods s !! p) as [m|] eqn:Hm.
  2:{ exfalso. revert Heq. unfold module_symbol.
      rewrite (is_null_false p Hp). munfold. by mrew Hm. }
  destruct (decide (handle m = NULL)) as [Hh|Hh].
  { rewrite module_symbol_rejects in Heq by eauto.
    injection Heq as _ <-. by eauto. }
  destruct str as [x|].
  2:{ rewrite module_symbol_rejects in Heq by eauto.
      injection Heq as _ <-. by eauto. }
  destruct (g_lock s) eqn:Hlk;
    [|by rewrite (module_symbol_blocked env p x s m) in Heq].
  rewrite (module_symbol_looks_up env p x s m) in Heq by done.
  destruct (snd (se_dlsym env)) as [e|]; injection Heq as <- <-; simpl.
  - do 3 (split; [done|]). right. split; [done|]. by exists e.
  - do 3 (split; [done|]). by left.
Qed.

Lemma step_counts s s' l l' q c' :
  registry_inv s l → step s s' →
  registry s' = Some l' → q ∈ l' → ref_count_of s' q = Some c' →
  count_moves s l q c'.
Proof.
  intros Hinv [env file flag preload r Hfresh Heq
              |env p preload r Hvalid Heq
              |env p str r Hvalid Heq] Hl' Hq Hc'.
  - by eapply module_open_counts.
  - by eapply module_close_counts.
  - destruct (module_symbol_keeps_registry env p str s r s' Heq) as (Hh & Hm & _).
    by apply (same_data_counts s s' l l' q c' (inv_list _ _ Hinv)).
Qed.

(** Until [INT_MAX] calls have been made no count has been incremented past
    the range: every entry has at least one holder, and at most as many as
    calls were made. *)
Lemma reachable_in_counts n s :
  reachable_in n s → (Z.of_nat n ≤ INT_MAX)%Z →
  ∃ l, registry_inv s l ∧
       ∀ q c, q ∈ l → ref_count_of s q = Some c → (1 ≤ c ≤ Z.of_nat n)%Z.
Proof.
  induction 1 as [|n s s' _ IH Hstep]; intros Hn.
  - exists []. split; [apply registry_inv_empty|].
    intros q c Hq. by apply elem_of_nil in Hq.
  - destruct IH as (l & Hinv & Hcounts); [lia|].
    destruct (step_inv s s' (ex_intro _ l Hinv) Hstep) as [l' Hinv'].
    exists l'. split; [done|]. intros q c' Hq Hc'.
    pose proof (proj2 (registry_is_list s' l') (inv_list _ _ Hinv')) as Hl'.
    destruct (step_counts s s' l l' q c' Hinv Hstep Hl' Hq Hc')
      as [->|(c & Hql & Hc & Hmove)]; [lia|].
    specialize (Hcounts q c Hql Hc).
    unfold INT_MAX in Hn.
    destruct Hmove as [->|[->|(-> & H0 & H1)]]; [lia| |].
    + rewrite int_incr_small by (unfold INT_MAX; lia). lia.
    + rewrite int_decr_small by (unfold INT_MIN; lia). lia.
Qed.

(** X21: in a registry reached from the empty one by [n] calls, every entry
    of the list has a name string and a struct that is allocated but not in
    the list has no holder.  As long as [n] is at most [INT_MAX], every
    entry has at least one holder and at most [n]: the count of an entry can
    leave that range only by being incremented past [INT_MAX]. *)
Theorem X21_reachable_counts n s l :
  reachable_in n s → registry s = Some l →
  (∀ q, q ∈ l → is_Some (name_of s q)) ∧
  (∀ q c, q ∉ l → ref_count_of s q = Some c → c = 0%Z) ∧
  ((Z.of_nat n ≤ INT_MAX)%Z →
   ∀ q, q ∈ l → ∃ c, ref_count_of s q = Some c ∧ (1 ≤ c ≤ Z.of_nat n)%Z).
Proof.
  intros Hreach Hl%registry_is_list.
  destruct (reachable_inv s (reachable_in_reachable n s Hreach)) as (l0 & Hinv).
  pose proof (is_list_functional _ _ _ _ (inv_list _ _ Hinv) Hl) as ->.
  split; [apply (inv_named _ _ Hinv)|]. split; [apply (inv_unlinked _ _ Hinv)|].
  intros Hn q Hq.
  destruct (reachable_in_counts n s Hreach Hn) as (l1 & Hinv1 & Hcounts).
  pose proof (is_list_functional _ _ _ _ (inv_list _ _ Hinv1) Hl) as ->.
  destruct (is_list_live _ _ _ _ Hl Hq) as [_ [m Hm]].
  exists (ref_count m). unfold ref_count_of at 1. rewrite Hm. split; [done|].
  apply (Hcounts q); [done|]. unfold ref_count_of. by rewrite Hm.
Qed.

Lemma X21_witness :
  (∀ q, q ∈ [30%N] → is_Some (name_of
      (state_of (module_close (CloseEnv None true) 10%N 1 two_entries)) q)) ∧
  (∀ c, ref_count_of
          (state_of (module_close (CloseEnv None true) 10%N 1 two_entries))
          10%N = Some c → c = 0%Z) ∧
  (∃ c, ref_count_of
          (state_of (module_close (CloseEnv None true) 10%N 1 two_entries))
          30%N = Some c ∧ (1 ≤ c ≤ 3)%Z).
Proof.
  destruct (X21_reachable_counts 3
              (state_of (module_close (CloseEnv None true) 10%N 1 two_entries))
              [30%N])
    as (H1 & H2 & H3).
  - apply (reachable_in_step 2 two_entries).
    + apply (reachable_in_step 1 one_entry).
      * apply (reachable_in_step 0 empty_registry); [apply reachable_in_empty|].
        apply (step_open _ _ (plain_env 10 20 100) "libA.so" 2%Z NULL 10%N);
          [split; vm_compute; reflexivity|vm_compute; reflexivity].
      * apply (step_open _ _ (plain_env 30 40 200) "libB.so" 2%Z NULL 30%N);
          [split; vm_compute; reflexivity|vm_compute; reflexivity].
    + apply (step_close _ _ (CloseEnv None true) 10%N 1%Z 0%Z);
        [right; vm_compute; by eexists|vm_compute; reflexivity].
  - vm_compute. reflexivity.
  - split; [exact H1|]. split.
    + intros c. apply H2. by intros ?%list_elem_of_singleton.
    + apply H3; [by vm_compute|]. by apply list_elem_of_singleton.
Defined.

Lemma module_close_returns env p preload s :
  reachable s → g_lock s = Released → valid_arg s p →
  ∃ r s', module_close env p preload s = Ret r s' ∧
          ((r ≠ (-1)%Z ∧ module_error s' = module_error s) ∨
           (r = (-1)%Z ∧ preload = 0%Z ∧
            ∃ e, ce_dlclose env = Some e ∧
                 module_error s' = (if ce_copied env then Some e else None))).
Proof.
  intros (l & Hinv)%reachable_inv Hlk [->|[m Hm]].
  { eexists _, _. split; [apply module_close_null|]. by left. }
  assert (p ≠ NULL) as Hp.
  { intros ->. pose proof (inv_null_mods _ _ Hinv). congruence. }
  destruct (decide (handle m = NULL)) as [Hh|Hh].
  { eexists _, _. split; [by eapply module_close_no_handle|]. by left. }
  destruct (decide (ref_count m = 0%Z)) as [H0|H0].
  { eexists _, _. split; [by eapply module_close_zero|]. by left. }
  assert (p ∈ l) as Hin.
  { destruct (decide (p ∈ l)) as [|Hnotin]; [done|]. exfalso. apply H0.
    apply (inv_unlinked _ _ Hinv p); [done|]. unfold ref_count_of. by rewrite Hm. }
  destruct (decide (ref_count m = 1%Z)) as [H1|H1].
  - destruct (inv_named _ _ Hinv p Hin) as [x Hx].
    unfold name_of in Hx. rewrite Hm in Hx. simpl in Hx.
    assert (name m ≠ NULL) as Hnm.
    { intros Hz. rewrite Hz in Hx. pose proof (inv_null_strs _ _ Hinv). congruence. }
    destruct (module_close_last env p preload s m l)
      as (head' & h' & _ & _ & Heq); try done; [by apply (inv_list _ _ Hinv)|].
    rewrite Heq. destruct (Z.eqb_spec preload 0) as [Hpre|Hpre].
    + destruct (ce_dlclose env) as [e|] eqn:He; eexists _, _; (split; [done|]).
      * right. split; [done|]. split; [done|]. by exists e.
      * by left.
    + eexists _, _. split; [done|]. by left.
  - eexists _, _. split; [by eapply module_close_decrement|].
    left. split; [|done]. by intros ?%int_decr_minus_one.
Qed.

(** X22: in a registry reached from the empty one, with the lock released,
    [module_close] on the null pointer or on a struct that has not been freed
    returns: it reads no freed memory and its loop ends.  Its result is -1
    only when [preload] is zero and [dlclose] left an error; the last error
    is then what strdup answers for that message, the message or NULL.
    Otherwise the result is not -1 (the count that would be decremented to
    -1 is the zero that the guard turns away) and the last error is not
    written. *)
Theorem X22_close_returns env p preload s :
  reachable s → g_lock s = Released → valid_arg s p →
  ∃ r s', module_close env p preload s = Ret r s' ∧
          ((r ≠ (-1)%Z ∧ module_error s' = module_error s) ∨
           (r = (-1)%Z ∧ preload = 0%Z ∧
            ∃ e, ce_dlclose env = Some e ∧
                 module_error s' = (if ce_copied env then Some e else None))).
Proof. apply module_close_returns. Qed.

Lemma X22_witness :
  ∃ r s', module_close (CloseEnv (Some "busy") false) 30%N 0 two_entries
            = Ret r s' ∧
          (r ≠ (-1)%Z ∨ r = (-1)%Z ∧ module_error s' = None).
Proof.
  destruct (X22_close_returns (CloseEnv (Some "busy") false) 30%N 0 two_entries)
    as (r & s' & H1 & [[H2 _]|(H2 & _ & e & He & H3)]).
  - apply (reachable_step one_entry).
    + apply (reachable_step empty_registry); [apply reachable_empty|].
      apply (step_open _ _ (plain_env 10 20 100) "libA.so" 2%Z NULL 10%N);
        [split; vm_compute; reflexivity|vm_compute; reflexivity].
    + apply (step_open _ _ (plain_env 30 40 200) "libB.so" 2%Z NULL 30%N);
        [split; vm_compute; reflexivity|vm_compute; reflexivity].
  - reflexivity.
  - right. vm_compute. by eexists.
  - exists r, s'. split; [exact H1|by left].
  - exists r, s'. split; [exact H1|]. right. split; [exact H2|exact H3].
Defined.

Lemma module_open_returns env file flag preload s :
  reachable s → g_lock s = Released → env_fresh env s →
  ¬ (snd (oe_dlsym_init env) = None ∧ fst (oe_dlsym_init env) = NULL) →
  ∃ r s', module_open env file flag preload s = Ret r s' ∧
          (module_error s' = module_error s ∨
           (r = NULL ∧ preload = NULL ∧
            ∃ e, snd (oe_dlopen env) = Some e ∧
                 module_error s' = (if oe_copied env then Some e else None))).
Proof.
  intros (l & Hinv)%reachable_inv Hlk [Hfresh _] Hinit.
  pose proof (module_open_outcome env file flag preload s l Hlk
                (inv_list _ _ Hinv) (inv_named _ _ Hinv) Hfresh) as Hout.
  destruct Hout; try (eexists _, _; split; [done|]; by left).
  - eexists _, _. split; [done|]. right. do 2 (split; [done|]).
    exists e. by split.
  - exfalso. apply Hinit. by split.
Qed.

(** X23: in a registry reached from the empty one, with the lock released
    and fresh addresses from malloc and strdup, [module_open] returns unless
    [dlsym] answers the null pointer for [module_init] without an error (the
    call through it is then undefined).  The last error is written on one
    path only: [dlopen] left an error and the result is NULL; the last error
    is then what strdup answers for that message, the message or NULL. *)
Theorem X23_open_returns env file flag preload s :
  reachable s → g_lock s = Released → env_fresh env s →
  ¬ (snd (oe_dlsym_init env) = None ∧ fst (oe_dlsym_init env) = NULL) →
  ∃ r s', module_open env file flag preload s = Ret r s' ∧
          (module_error s' = module_error s ∨
           (r = NULL ∧ preload = NULL ∧
            ∃ e, snd (oe_dlopen env) = Some e ∧
                 module_error s' = (if oe_copied env then Some e else None))).
Proof. apply module_open_returns. Qed.

Lemma X23_witness :
  ∃ r s', module_open
            (OpenEnv 50 sample_junk (NULL, Some "libC.so: cannot open")
               (NULL, Some "no module_init") 0 NULL (NULL, None) 60 None true)
            "libC.so" 2 NULL two_entries = Ret r s' ∧
          (module_error s' = None ∨
           r = NULL ∧ module_error s' = Some "libC.so: cannot open").
Proof.
  destruct (X23_open_returns
              (OpenEnv 50 sample_junk (NULL, Some "libC.so: cannot open")
                 (NULL, Some "no module_init") 0 NULL (NULL, None) 60 None true)
              "libC.so" 2 NULL two_entries)
    as (r & s' & H1 & [H2|(H2 & _ & e & He & H3)]).
  - apply (reachable_step one_entry).
    + apply (reachable_step empty_registry); [apply reachable_empty|].
      apply (step_open _ _ (plain_env 10 20 100) "libA.so" 2%Z NULL 10%N);
        [split; vm_compute; reflexivity|vm_compute; reflexivity].
    + apply (step_open _ _ (plain_env 30 40 200) "libB.so" 2%Z NULL 30%N);
        [split; vm_compute; reflexivity|vm_compute; reflexivity].
  - reflexivity.
  - split; vm_compute; reflexivity.
  - simpl. by intros [[=] _].
  - exists r, s'. split; [exact H1|]. left. rewrite H2. vm_compute. reflexivity.
  - exists r, s'. split; [exact H1|]. right. split; [exact H2|].
    simpl in He. injection He as <-. exact H3.
Defined.

(** ** The count that is zero, in general *)

(** X24: on any struct that has a handle and whose count is zero,
    [module_close] called with the lock released returns 0 with the lock
    held, and from the state it leaves every [module_open], every
    [module_close] on that struct and every [module_symbol] lookup in it
    waits for the lock. *)
Theorem X24_close_at_zero_count_keeps_lock env p preload s m :
  g_lock s = Released → p ≠ NULL →
  mods s !! p = Some m → handle m ≠ NULL → ref_count m = 0%Z →
  ∃ s', module_close env p preload s = Ret 0%Z s' ∧
        g_lock s' = Held ∧
        (∀ env' file flag preload',
           module_open env' file flag preload' s' = Blocked) ∧
        (∀ env' preload', module_close env' p preload' s' = Blocked) ∧
        (∀ env' sym, module_symbol env' p (Some sym) s' = Blocked).
Proof.
  intros Hlk Hp Hm Hh Hr. eexists. split; [by eapply module_close_zero|].
  split; [done|]. split; [|split].
  - intros. by apply module_open_blocked.
  - intros. by apply (module_close_blocked _ _ _ _ m).
  - intros. by apply (module_symbol_blocked _ _ _ _ m).
Qed.

Lemma X24_witness :
  ∃ s', module_close (CloseEnv None true) 10%N 0 closed_preload = Ret 0%Z s' ∧
        g_lock s' = Held ∧
        module_open (plain_env 30 40 200) "libB.so" 2 NULL s' = Blocked.
Proof.
  destruct (X24_close_at_zero_count_keeps_lock (CloseEnv None true) 10%N 0
              closed_preload (Module 20 0 300 NULL NULL NULL NULL))
    as (s' & H1 & H2 & H3 & _).
  - reflexivity.
  - done.
  - vm_compute. reflexivity.
  - done.
  - reflexivity.
  - exists s'. split; [exact H1|]. split; [exact H2|]. apply H3.
Defined.

(** ** What the operations never write *)

(** X25: [module_symbol] never writes the registry: whenever it returns, the
    list head, the structs and the strings are what they were.  The last
    error is what it was, or, when [dlsym] left an error and the result is
    NULL, what strdup answers for that message: the message or NULL. *)
Theorem X25_module_symbol_keeps_registry env p str s r s' :
  module_symbol env p str s = Ret r s' →
  g_module_head s' = g_module_head s ∧ mods s' = mods s ∧ strs s' = strs s ∧
  (module_error s' = module_error s ∨
   (r = NULL ∧ ∃ e, snd (se_dlsym env) = Some e ∧
                    module_error s' = (if se_copied env then Some e else None))).
Proof. apply module_symbol_keeps_registry. Qed.

Lemma X25_witness :
  ∃ s', module_symbol (SymbolEnv (NULL, Some "undefined symbol: f") true) 30%N
          (Some "f") two_entries = Ret NULL s' ∧
        registry s' = Some [10%N; 30%N] ∧
        mods s' = mods two_entries ∧ strs s' = strs two_entries.
Proof.
  eexists. split; [vm_compute; reflexivity|].
  split; [vm_compute; reflexivity|].
  destruct (X25_module_symbol_keeps_registry
              (SymbolEnv (NULL, Some "undefined symbol: f") true) 30%N (Some "f")
              two_entries NULL
              (state_of (module_symbol
                           (SymbolEnv (NULL, Some "undefined symbol: f") true)
                           30%N (Some "f") two_entries)))
    as (_ & H2 & H3 & _).
  - vm_compute. reflexivity.
  - split; [exact H2|exact H3].
Defined.

(** X26: the last error is taken back to NULL only by a copy that fails.
    In a registry reached from the empty one that has a last error, a call
    of [module_open], [module_close] or [module_symbol] that returns leaves
    a last error, the old message or a new one, whenever the strdup of
    [module_set_error] succeeds in that call: no path calls
    [module_set_error] with the null pointer. *)
Theorem X26_last_error_is_kept_by_copies s :
  reachable s → is_Some (module_error s) →
  (∀ env file flag preload r s',
     env_fresh env s → oe_copied env = true →
     module_open env file flag preload s = Ret r s' →
     is_Some (module_error s')) ∧
  (∀ env p preload r s',
     valid_arg s p → ce_copied env = true →
     module_close env p preload s = Ret r s' →
     is_Some (module_error s')) ∧
  (∀ env p str r s',
     se_copied env = true →
     module_symbol env p str s = Ret r s' →
     is_Some (module_error s')).
Proof.
  intros Hreach Herr. split; [|split].
  - intros env file flag preload r s' Hfresh Hcopy Heq.
    destruct (g_lock s) eqn:Hlk;
      [|by rewrite module_open_blocked in Heq].
    destruct (reachable_inv _ Hreach) as (l & Hinv).
    pose proof (module_open_outcome env file flag preload s l Hlk
                  (inv_list _ _ Hinv) (inv_named _ _ Hinv) (proj1 Hfresh)) as Hout.
    rewrite Heq in Hout. inversion Hout; subst; clear Hout; try done.
    unfold module_error. simpl. rewrite Hcopy. by eexists.
  - intros env p preload r s' Hvalid Hcopy Heq.
    destruct (g_lock s) eqn:Hlk.
    + destruct (module_close_returns env p preload s Hreach Hlk Hvalid)
        as (r0 & s0 & Heq0 & Hcase).
      rewrite Heq in Heq0. injection Heq0 as _ <-.
      destruct Hcase as [[_ H]|(_ & _ & e & _ & H)]; rewrite H; [done|].
      rewrite Hcopy. by eexists.
    + destruct Hvalid as [->|[m Hm]].
      { rewrite module_close_null in Heq. by injection Heq as _ <-. }
      destruct (decide (p = NULL)) as [->|Hp].
      { rewrite module_close_null in Heq. by injection Heq as _ <-. }
      destruct (decide (handle m = NULL)) as [Hh|Hh].
      { rewrite (module_close_no_handle env p preload s m) in Heq by done.
        by injection Heq as _ <-. }
      by rewrite (module_close_blocked env p preload s m) in Heq.
  - intros env p str r s' Hcopy Heq.
    destruct (module_symbol_keeps_registry env p str s r s' Heq)
      as (_ & _ & _ & [H|(_ & e & _ & H)]); rewrite H; [done|].
    rewrite Hcopy. by eexists.
Qed.

Lemma X26_witness :
  module_error two_entries_after_error = Some "undefined symbol: g" ∧
  is_Some (module_error
    (state_of (module_close (CloseEnv (Some "busy") true) 30%N 0
                 two_entries_after_error))).
Proof.
  split; [reflexivity|].
  apply (proj1 (proj2 (X26_last_error_is_kept_by_copies two_entries_after_error
    ltac:(apply (reachable_step two_entries);
          [apply (reachable_step one_entry);
           [apply (reachable_step empty_registry); [apply reachable_empty|];
            apply (step_open _ _ (plain_env 10 20 100) "libA.so" 2%Z NULL 10%N);
            [split; vm_compute; reflexivity|vm_compute; reflexivity]
           |apply (step_open _ _ (plain_env 30 40 200) "libB.so" 2%Z NULL 30%N);
            [split; vm_compute; reflexivity|vm_compute; reflexivity]]
          |apply (step_symbol _ _
                    (SymbolEnv (NULL, Some "undefined symbol: g") true)
                    10%N (Some "g") NULL);
           [right; vm_compute; by eexists|vm_compute; reflexivity]])
    ltac:(vm_compute; by eexists)))
    (CloseEnv (Some "busy") true) 30%N 0%Z (-1)%Z);
    [right; vm_compute; by eexists|reflexivity|vm_compute; reflexivity].
Defined.

(** ** The count at the end of its range *)

(** X27: [module_open] on a registered path whose entry has [INT_MAX]
    holders returns the entry with the count [INT_MIN]: the increment wraps
    around, and the entry stays in the list with a negative count.  A
    [module_close] of the entry then finds a count that is not zero,
    decrements it back to [INT_MAX], returns that and tears nothing down. *)
Theorem X27_count_wraps_at_INT_MAX env cenv file flag preload cpreload s l r e :
  g_lock s = Released → registry s = Some l →
  (∀ q, q ∈ l → is_Some (name_of s q)) →
  r ∈ l → name_of s r = Some file →
  (∀ q, q ∈ l → name_of s q = Some file → q = r) →
  mods s !! r = Some e → handle e ≠ NULL → ref_count e = INT_MAX →
  ∃ s1 s2,
    module_open env file flag preload s = Ret r s1 ∧
    ref_count_of s1 r = Some INT_MIN ∧ registry s1 = Some l ∧
    module_close cenv r cpreload s1 = Ret INT_MAX s2 ∧
    ref_count_of s2 r = Some INT_MAX ∧ registry s2 = Some l.
Proof.
  intros Hlk Hl%registry_is_list Hnamed Hr Hrn Huniq He Hh Hc.
  destruct (is_list_live _ _ _ _ Hl Hr) as [Hp _].
  destruct (module_open_by_name env file flag preload s l)
    as (r0 & e0 & Hr0 & Hrn0 & He0 & Hopen); try done; [by eauto|].
  assert (r0 = r) as -> by (by apply Huniq).
  rewrite He in He0. injection He0 as <-.
  rewrite Hc in Hopen. change (int_incr INT_MAX) with INT_MIN in Hopen.
  match type of Hopen with _ = Ret _ ?s => set (s1 := s) in * end.
  set (m1 := set_ref_count INT_MIN e).
  assert (mods s1 !! r = Some m1) as Hm1 by apply lookup_insert_eq.
  assert (is_list (mods s1) (g_module_head s1) l) as Hl1.
  { simpl. by apply is_list_set_ref_count. }
  pose proof (module_close_decrement cenv r cpreload s1 m1 eq_refl Hp Hm1 Hh
                ltac:(done) ltac:(done)) as Hclose.
  change (int_decr (ref_count m1)) with INT_MAX in Hclose.
  eexists s1, _. split; [done|]. split.
  { unfold ref_count_of. by rewrite Hm1. }
  split; [by apply registry_is_list|]. split; [exact Hclose|]. split.
  { unfold ref_count_of. simpl. by rewrite lookup_insert_eq. }
  apply registry_is_list.
  exact (is_list_set_ref_count (mods s1) _ _ r m1 INT_MAX Hm1 Hl1).
Qed.

Lemma X27_witness :
  ∃ s1 s2,
    module_open (plain_env 30 40 200) "libA.so" 2 NULL one_entry_at_INT_MAX
      = Ret 10%N s1 ∧
    ref_count_of s1 10%N = Some (-2147483648)%Z ∧
    module_close (CloseEnv None true) 10%N 0 s1 = Ret 2147483647%Z s2.
Proof.
  destruct (X27_count_wraps_at_INT_MAX (plain_env 30 40 200) (CloseEnv None true)
              "libA.so" 2 NULL 0 one_entry_at_INT_MAX [10%N] 10%N
              (Module 20 INT_MAX 100 NULL NULL NULL NULL))
    as (s1 & s2 & H1 & H2 & _ & H3 & _);
    [reflexivity|vm_compute; reflexivity| |by left|vm_compute; reflexivity
    | |vm_compute; reflexivity|done|reflexivity|].
  - intros q ->%list_elem_of_singleton. vm_compute. by eexists.
  - by intros q ->%list_elem_of_singleton.
  - exists s1, s2. split; [exact H1|]. split; [exact H2|exact H3].
Defined.
